(** * WebWhatsAPI: a shallow embedding of [webwhatsapi/__init__.py]

    The driver class [WhatsAPIDriver] talks to three outside parties: the
    selenium web driver, the page-hosted JavaScript bridge
    ([WapiJsWrapper]) and the local file system.  Each method is embedded
    as a function over an explicit world, returning either a value or the
    Python exception it raises.  What lives outside the repository (the
    bridge, selenium, [shutil], the crypto packages) appears as an
    interface, with a small concrete instance wherever a statement is run
    on an example. *)

From Stdlib Require Import ZArith List String Ascii Bool Lia.
From Stdlib Require Import Sorting.Sorted Sorting.Permutation.
From Stdlib Require Floats.SpecFloat.
From stdpp Require Import base list strings gmap.
Import ListNotations.

Local Open Scope string_scope.
Local Open Scope list_scope.
Local Open Scope Z_scope.

(** ** Exceptions and the call monad *)

(** The exceptions the module defines (lines 46-55) and those of the
    packages it calls that can reach a caller. *)
Inductive exn : Type :=
| WhatsAPIException (msg : string)
| ChatNotFoundError (msg : string)
| ContactNotFoundError (msg : string)
| NoSuchElementException
| WebDriverException (msg : string)
| JsException (msg : string)
| AttributeError
| KeyError (key : string)
| ValueError (msg : string)
| BinasciiError
| OSError (kind : string).

Inductive result (A : Type) : Type :=
| Ok (a : A)
| Raise (e : exn).
Arguments Ok {A} a.
Arguments Raise {A} e.

(** A call runs in a world [W]; what it did to the world stays done when
    it raises. *)
Definition call (W A : Type) : Type := W -> result A * W.

Definition ret {W A} (a : A) : call W A := fun w => (Ok a, w).
Definition throw {W A} (e : exn) : call W A := fun w => (Raise e, w).
Definition bind {W A B} (c : call W A) (k : A -> call W B) : call W B :=
  fun w => match c w with
           | (Ok a, w') => k a w'
           | (Raise e, w') => (Raise e, w')
           end.
Definition read {W A} (f : W -> A) : call W A := fun w => (Ok (f w), w).

Declare Scope call_scope.
Delimit Scope call_scope with call.
Notation "'let!' x ':=' c 'in' k" := (bind c (fun x => k))
  (at level 10, x name, c at level 100, k at level 200) : call_scope.
Notation "'do!' c 'in' k" := (bind c (fun _ => k))
  (at level 10, c at level 100, k at level 200) : call_scope.

(** Errors without a world. *)
Definition rbind {A B} (r : result A) (k : A -> result B) : result B :=
  match r with Ok a => k a | Raise e => Raise e end.

(** * Part I: the embedding *)

(** ** Message synchronisation: [get_unread], [get_all_messages_until_date] *)

(** A raw message as the bridge hands it over: a dictionary read only at
    ["timestamp"] (Unix seconds); the rest travels as [rm_payload]. *)
Record RawMessage (P : Type) : Type := mkRawMessage {
  rm_timestamp : Z;
  rm_payload : P
}.
Arguments mkRawMessage {P} _ _.
Arguments rm_timestamp {P} _.
Arguments rm_payload {P} _.

(** A raw message group: the chat's own dictionary, read at ["messages"]. *)
Record RawGroup (C P : Type) : Type := mkRawGroup {
  rg_chat : C;
  rg_messages : list (RawMessage P)
}.
Arguments mkRawGroup {C P} _ _.
Arguments rg_chat {C P} _.
Arguments rg_messages {C P} _.

(** [objects.message.MessageGroup(chat, messages)]. *)
Record MessageGroup (Chat Message : Type) : Type := mkMessageGroup {
  mg_chat : Chat;
  mg_messages : list Message
}.
Arguments mkMessageGroup {Chat Message} _ _.
Arguments mg_chat {Chat Message} _.
Arguments mg_messages {Chat Message} _.

(** Python's [sorted(iterable, key=...)] is a stable sort.  A stable sort
    has one possible output ([stable_sort_unique] below), so it is
    modelled by the insertion sort that puts an element in front of the
    first element whose key is not smaller. *)
Fixpoint insert_by {A : Type} (key : A -> Z) (x : A) (l : list A) : list A :=
  match l with
  | [] => [x]
  | y :: l' => if key x <=? key y then x :: l else y :: insert_by key x l'
  end.

Fixpoint sorted {A : Type} (key : A -> Z) (l : list A) : list A :=
  match l with
  | [] => []
  | x :: l' => insert_by key x (sorted key l')
  end.

(** Non-decreasing keys. *)
Definition ascending {A : Type} (key : A -> Z) (l : list A) : Prop :=
  Sorted (fun a b => key a <= key b) l.

(** Equal keys keep their order: at every key, [l'] shows the elements of
    [l] in the order [l] has them. *)
Definition same_arrival_order {A : Type} (key : A -> Z) (l l' : list A) : Prop :=
  forall k, List.filter (fun a => key a =? k) l' =
            List.filter (fun a => key a =? k) l.

(** *** The clock: [int((datetime.now() - timedelta(days=7)).timestamp())]

    [datetime.now()] is a reading of the local wall clock, and
    [timestamp()] takes it back to Unix time through the zone rules of
    the platform.  The rules are [time.localtime]: from Unix seconds to
    the wall clock, counted in seconds from 1970-01-01 00:00:00. *)
Class LocalTime : Type := {
  localtime : Z -> Z
}.

(** A [datetime] without [tzinfo]: whole seconds of the wall clock and
    the microsecond.  The clock is a date [datetime] can hold. *)
Record datetime : Type := mkDatetime {
  wall : Z;
  microsecond : Z
}.

(** A double: 53 bits of mantissa, rounded to nearest, ties to even. *)
Definition float : Type := SpecFloat.spec_float.

Definition float_of_int (n : Z) : float :=
  SpecFloat.binary_normalize 53 1024 n 0 false.
Definition float_add (x y : float) : float := SpecFloat.SFadd 53 1024 x y.
Definition float_div (x y : float) : float := SpecFloat.SFdiv 53 1024 x y.

(** [int(x)] truncates towards zero. *)
Definition int_of_float (x : float) : Z :=
  match x with
  | SpecFloat.S754_finite negative m e =>
      let magnitude :=
        if 0 <=? e then Z.pos m * 2 ^ e else Z.quot (Z.pos m) (2 ^ (- e)) in
      if negative then - magnitude else magnitude
  | _ => 0
  end.

(** [s + microsecond / 1e6], the float that [timestamp()] returns. *)
Definition posix_float (s us : Z) : float :=
  float_add (float_of_int s) (float_div (float_of_int us) (float_of_int 1000000)).

Section Clock.
Context {zone : LocalTime}.

(** [datetime.now()] when the clock shows [now_us] microseconds of Unix
    time. *)
Definition datetime_now (now_us : Z) : datetime :=
  mkDatetime (localtime (now_us / 1000000)) (now_us mod 1000000).

(** [d - timedelta(days=n)]: days of the calendar, 86400 seconds each on
    the wall clock. *)
Definition minus_days (d : datetime) (days : Z) : datetime :=
  mkDatetime (wall d - days * 86400) (microsecond d).

(** [datetime._mktime] for [fold = 0], as the difference has it: the
    Unix second [u] with [localtime u = t], the earlier one where the
    wall clock shows [t] twice, and past the gap where it never shows
    it. *)
Definition _mktime (t : Z) : Z :=
  let a := localtime t - t in
  let u1 := t - a in
  let t1 := localtime u1 in
  let second_guess (b : Z) : Z :=
    let u2 := t - b in
    let t2 := localtime u2 in
    if t2 =? t then u2
    else if t1 =? t then u1
    else Z.max u1 u2 in
  if t1 =? t then
    let u2 := u1 - 24 * 3600 in
    let b := localtime u2 - u2 in
    if a =? b then u1 else second_guess b
  else second_guess (t1 - u1).

(** [d.timestamp()] for a [datetime] without [tzinfo]. *)
Definition datetime_timestamp (d : datetime) : float :=
  posix_float (_mktime (wall d)) (microsecond d).

(** Lines 363 and 654. *)
Definition seven_days_ago (now_us : Z) : Z :=
  int_of_float (datetime_timestamp (minus_days (datetime_now now_us) 7)).

End Clock.

(** The zone keeps one offset from Unix time over a stretch of it. *)
Definition steady_offset {zone : LocalTime} (offset first last : Z) : Prop :=
  forall u, first <= u <= last -> localtime u = u + offset.

(** Lines 655-658: [date = seven_days_ago] when [date is None], else
    [max(date, seven_days_ago)]. *)
Definition effective_date (date : option Z) (seven_days_ago : Z) : Z :=
  match date with
  | None => seven_days_ago
  | Some d => Z.max d seven_days_ago
  end.

(** The clock and the four bridge calls of the two entry points.  [W] is
    the world: the wall clock and the page behind the bridge. *)
Class SyncBridge (W RawChat Payload : Type) : Type := {
  now_us : W -> Z;
  getUnreadMessages :
    bool -> bool -> call W (list (RawGroup RawChat Payload));
  getUnreadMessagesUsingChatId :
    string -> bool -> bool -> call W (list (RawGroup RawChat Payload));
  loadEarlierMessagesTillDateAllChats : Z -> call W unit;
  getAllLatestMessages :
    bool -> bool -> call W (list (RawGroup RawChat Payload))
}.

(** [objects.chat.factory_chat], [objects.message.factory_message] and
    the [timestamp] attribute of a classified message. *)
Class Classifier (RawChat Payload Chat Message : Type) : Type := {
  factory_chat : RawGroup RawChat Payload -> Chat;
  factory_message : RawMessage Payload -> Message;
  timestamp : Message -> Z
}.

Section SyncDriver.
Context {W RawChat Payload Chat Message : Type}.
Context {zone : LocalTime}.
Context {bridge : SyncBridge W RawChat Payload}.
Context {classifier : Classifier RawChat Payload Chat Message}.

(** Lines 378-387 and 669-678: [sorted(map(factory_message, filter(...)),
    key=timestamp)]. *)
Definition recent_sorted (cutoff : Z) (raw : RawGroup RawChat Payload)
    : list Message :=
  sorted timestamp
    (map factory_message
       (List.filter (fun msg => cutoff <=? rm_timestamp msg)
          (rg_messages raw))).

(** Lines 389-394: [list(map(factory_message, messages))]. *)
Definition as_listed (raw : RawGroup RawChat Payload) : list Message :=
  map factory_message (rg_messages raw).

(** Lines 364-371: the bridge call chosen by [specific_chat]. *)
Definition unread_fetch (include_me include_notifications : bool)
    (specific_chat : option string)
    : call W (list (RawGroup RawChat Payload)) :=
  match specific_chat with
  | None => getUnreadMessages include_me include_notifications
  | Some chat_id =>
      getUnreadMessagesUsingChatId chat_id include_me include_notifications
  end.

(** Lines 344-398. *)
Definition get_unread (include_me include_notifications filter_week : bool)
    (specific_chat : option string)
    : call W (list (MessageGroup Chat Message)) :=
  (let! now := read now_us in
   let seven_days_ago := seven_days_ago now in
   let! raw_message_groups :=
     unread_fetch include_me include_notifications specific_chat in
   ret (map (fun raw_message_group =>
               let chat := factory_chat raw_message_group in
               let messages :=
                 if filter_week
                 then recent_sorted seven_days_ago raw_message_group
                 else as_listed raw_message_group in
               mkMessageGroup chat messages)
            raw_message_groups))%call.

(** Lines 640-681. *)
Definition get_all_messages_until_date (date : option Z)
    (include_me include_notifications : bool)
    : call W (list (MessageGroup Chat Message)) :=
  (let! now := read now_us in
   let date := effective_date date (seven_days_ago now) in
   do! loadEarlierMessagesTillDateAllChats date in
   let! raw_message_groups :=
     getAllLatestMessages include_me include_notifications in
   ret (map (fun raw_message_group =>
               let chat := factory_chat raw_message_group in
               let messages := recent_sorted date raw_message_group in
               mkMessageGroup chat messages)
            raw_message_groups))%call.
End SyncDriver.

(** *** A small page to run the two entry points on

    The page holds every message of every chat and the date back to which
    history is loaded; the bridge only returns what is loaded. *)
Record ToyPage : Type := mkToyPage {
  tp_clock_us : Z;
  tp_history : list (RawGroup string string);
  tp_loaded_from : Z
}.

Definition toy_loaded (w : ToyPage) : list (RawGroup string string) :=
  map (fun g => mkRawGroup (rg_chat g)
                  (List.filter (fun m => tp_loaded_from w <=? rm_timestamp m)
                     (rg_messages g)))
      (tp_history w).

(** A platform on UTC, and one on the rules of New York in the autumn of
    2024: four hours behind UTC until 2024-11-03 06:00:00 UTC
    (1730613600), five hours behind from then on. *)
#[local] Instance utc : LocalTime := {| localtime := fun u => u |}.

Definition new_york_2024 : LocalTime := {|
  localtime := fun u => if u <? 1730613600 then u - 14400 else u - 18000
|}.

#[local] Instance toy_bridge : SyncBridge ToyPage string string := {|
  now_us := tp_clock_us;
  getUnreadMessages := fun _ _ w => (Ok (toy_loaded w), w);
  getUnreadMessagesUsingChatId := fun chat_id _ _ w =>
    (Ok (List.filter (fun g => String.eqb (rg_chat g) chat_id) (toy_loaded w)), w);
  loadEarlierMessagesTillDateAllChats := fun date w =>
    (Ok tt, mkToyPage (tp_clock_us w) (tp_history w)
              (Z.min date (tp_loaded_from w)));
  getAllLatestMessages := fun _ _ w => (Ok (toy_loaded w), w)
|}.

(** Chats are classified to their id, messages to themselves. *)
#[local] Instance toy_classifier
  : Classifier string string string (RawMessage string) := {|
  factory_chat := rg_chat;
  factory_message := fun m => m;
  timestamp := rm_timestamp
|}.

(** 2024-01-31 00:00:00 UTC is 1706659200; a week earlier is 1706054400. *)
Definition toy_now : Z := 1706659200.

Definition toy_page : ToyPage := {|
  tp_clock_us := toy_now * 1000000;
  tp_history :=
    [ mkRawGroup "alice@c.us"
        [ mkRawMessage (toy_now - 100) "late";
          mkRawMessage (toy_now - 300) "early";
          mkRawMessage (toy_now - 20 * 86400) "stale" ];
      mkRawGroup "bob@c.us"
        [ mkRawMessage (toy_now - 10 * 86400) "old" ] ];
  tp_loaded_from := toy_now - 30 * 86400
|}.

(** The same page a moment before the next second. *)
Definition toy_page_late : ToyPage := {|
  tp_clock_us := toy_now * 1000000 + 999999;
  tp_history := tp_history toy_page;
  tp_loaded_from := tp_loaded_from toy_page
|}.

(** A page read in New York on 2024-11-05 at noon (17:00:00.25 UTC), two
    days after the clocks went back. *)
Definition toy_page_new_york : ToyPage := {|
  tp_clock_us := 1730826000 * 1000000 + 250000;
  tp_history :=
    [ mkRawGroup "alice@c.us"
        [ mkRawMessage (1730826000 - 100) "late";
          mkRawMessage (1730826000 - 606600) "a week and half an hour old";
          mkRawMessage (1730826000 - 20 * 86400) "stale" ] ];
  tp_loaded_from := 1730826000 - 30 * 86400
|}.

(** ** Session: [get_status], [get_qr], [reload_qr] *)

(** Lines 38-43. *)
Inductive WhatsAPIDriverStatus : Type :=
| Unknown
| NoDriver
| NotConnected
| NotLoggedIn
| LoggedIn.

(** The two entries of [_SELECTORS] the session methods read. *)
Definition selector_mainPage : string := ".app.two".
Definition selector_qrCode : string :=
  "img[alt=" +:+ String (ascii_of_nat 34) "Scan me!"
  +:+ String (ascii_of_nat 34) "]".

(** Python's [needle in haystack] on strings. *)
Fixpoint contains (needle haystack : string) : bool :=
  if String.prefix needle haystack then true
  else match haystack with
       | EmptyString => false
       | String _ rest => contains needle rest
       end.

(** The driver object with the browser and the machine behind it: what
    the session methods read and call.  [E] is selenium's [WebElement]. *)
Class Desktop (W E : Type) : Type := {
  driver_is_None : W -> bool;
  session_id_is_None : W -> bool;
  username : W -> string;
  page_source : call W string;
  find_element_by_css_selector : string -> call W E;
  click : E -> call W unit;
  screenshot : E -> string -> call W bool;
  mkstemp : string -> string -> call W (Z * string);
  os_open : string -> call W Z;
  os_path_abspath : string -> W -> string;
  os_close : Z -> call W unit
}.

Definition is_NoSuchElementException (e : exn) : bool :=
  match e with NoSuchElementException => true | _ => false end.

(** [try: body / except <caught>: handler]. *)
Definition try_except {W A : Type} (body : call W A)
    (caught : exn -> bool) (handler : call W A) : call W A :=
  fun w => match body w with
           | (Ok a, w') => (Ok a, w')
           | (Raise e, w') => if caught e then handler w' else (Raise e, w')
           end.

Section SessionDriver.
Context {W E : Type} {desktop : Desktop W E}.

(** Lines 494-498 and 499-503: one [try] block; [Some status] is the
    [return] inside it, [None] is falling out of the [except ... pass]. *)
Definition marker_probe (selector : string) (status : WhatsAPIDriverStatus)
    : call W (option WhatsAPIDriverStatus) :=
  try_except
    (do! find_element_by_css_selector selector in ret (Some status))%call
    is_NoSuchElementException
    (ret None).

(** Lines 489-504. *)
Definition get_status : call W WhatsAPIDriverStatus :=
  fun w =>
    if driver_is_None w then (Ok NotConnected, w)
    else if session_id_is_None w then (Ok NotConnected, w)
    else
      (let! at_main := marker_probe selector_mainPage LoggedIn in
       match at_main with
       | Some status => ret status
       | None =>
           let! at_qr := marker_probe selector_qrCode NotLoggedIn in
           match at_qr with
           | Some status => ret status
           | None => ret Unknown
           end
       end)%call w.

(** Lines 486-487. *)
Definition reload_qr : call W unit :=
  (let! qr := find_element_by_css_selector selector_qrCode in
   click qr)%call.

(** Lines 285-298 ([logger.debug] left out). *)
Definition get_qr (filename : option string) : call W string :=
  (let! source := page_source in
   do! (if contains "Click to reload QR code" source
        then reload_qr else ret tt) in
   let! qr := find_element_by_css_selector selector_qrCode in
   let! opened :=
     match filename with
     | None =>
         let! prefix := read username in
         mkstemp prefix ".png"
     | Some filename =>
         let! fd := os_open filename in
         let! fn_png := read (os_path_abspath filename) in
         ret (fd, fn_png)
     end in
   let fd := fst opened in
   let fn_png := snd opened in
   do! screenshot qr fn_png in
   do! os_close fd in
   ret fn_png)%call.
End SessionDriver.

(** *** A small browser to run the session methods on *)

Inductive ToyElement : Type :=
| MainShell
| QrImage.

Record ToyBrowser : Type := mkToyBrowser {
  tb_has_driver : bool;
  tb_session : option string;
  tb_source : string;
  tb_main : result ToyElement;
  tb_qr : result ToyElement;
  tb_clicks : nat;
  tb_files : list string
}.

Definition toy_find (selector : string) (w : ToyBrowser) : result ToyElement :=
  if String.eqb selector selector_mainPage then tb_main w
  else if String.eqb selector selector_qrCode then tb_qr w
  else Raise NoSuchElementException.

#[local] Instance toy_desktop : Desktop ToyBrowser ToyElement := {|
  driver_is_None := fun w => negb (tb_has_driver w);
  session_id_is_None := fun w =>
    match tb_session w with None => true | Some _ => false end;
  username := fun _ => "API";
  page_source := fun w => (Ok (tb_source w), w);
  find_element_by_css_selector := fun selector w => (toy_find selector w, w);
  click := fun _ w =>
    (Ok tt, mkToyBrowser (tb_has_driver w) (tb_session w) (tb_source w)
              (tb_main w) (tb_qr w) (S (tb_clicks w)) (tb_files w));
  screenshot := fun _ path w =>
    (Ok true, mkToyBrowser (tb_has_driver w) (tb_session w) (tb_source w)
                (tb_main w) (tb_qr w) (tb_clicks w) (path :: tb_files w));
  mkstemp := fun prefix suffix w => (Ok (3, "/tmp/" +:+ prefix +:+ suffix), w);
  os_open := fun _ w => (Ok 3, w);
  os_path_abspath := fun filename _ => "/home/api/" +:+ filename;
  os_close := fun _ w => (Ok tt, w)
|}.

(** After login: the main shell is there, the QR image is gone. *)
Definition toy_logged_in : ToyBrowser := {|
  tb_has_driver := true;
  tb_session := Some "7f3a";
  tb_source := "<div class='app two'></div>";
  tb_main := Ok MainShell;
  tb_qr := Raise NoSuchElementException;
  tb_clicks := 0;
  tb_files := []
|}.

(** Before login: the QR image is shown. *)
Definition toy_showing_qr : ToyBrowser := {|
  tb_has_driver := true;
  tb_session := Some "7f3a";
  tb_source := "<img alt='Scan me!'>";
  tb_main := Raise NoSuchElementException;
  tb_qr := Ok QrImage;
  tb_clicks := 0;
  tb_files := []
|}.

(** The browser window has gone away: every lookup fails with a driver
    error other than [NoSuchElementException]. *)
Definition toy_window_closed : ToyBrowser := {|
  tb_has_driver := true;
  tb_session := Some "7f3a";
  tb_source := "";
  tb_main := Raise (WebDriverException "no such window");
  tb_qr := Raise (WebDriverException "no such window");
  tb_clicks := 0;
  tb_files := []
|}.

(** ** Lookups by id: [get_message_by_id], [get_contact_from_id],
       [get_chat_from_id] *)

(** What the bridge answers to a lookup: [None], [False] or a record. *)
Inductive bridge_value (R : Type) : Type :=
| PyNone
| PyFalse
| PyRecord (r : R).
Arguments PyNone {R}.
Arguments PyFalse {R}.
Arguments PyRecord {R} r.

(** Python's truth test: [None] and [False] are falsy, a record (a
    dictionary with entries) is truthy. *)
Definition truthy {R : Type} (v : bridge_value R) : bool :=
  match v with PyRecord _ => true | _ => false end.

(** The three bridge lookups.  [getContact] answers an unknown id with
    [None] (the test of line 453). *)
Class LookupBridge (W RawChat Payload RawContact : Type) : Type := {
  getMessageById : string -> call W (bridge_value (RawMessage Payload));
  getContact : string -> call W (option RawContact);
  getChatById : string -> call W (bridge_value (RawGroup RawChat Payload))
}.

Section LookupDriver.
Context {W RawChat Payload RawContact Chat Message Contact : Type}.
Context {lookups : LookupBridge W RawChat Payload RawContact}.
Context {classifier : Classifier RawChat Payload Chat Message}.
(** The constructor of [objects.contact.Contact]. *)
Context (new_Contact : RawContact -> Contact).

(** Lines 436-448: the value is classified when truthy and handed back as
    it is otherwise. *)
Definition get_message_by_id (message_id : string)
    : call W (bridge_value Message) :=
  (let! result := getMessageById message_id in
   ret (match result with
        | PyRecord raw => PyRecord (factory_message raw)
        | PyNone => PyNone
        | PyFalse => PyFalse
        end))%call.

(** Lines 450-456. *)
Definition get_contact_from_id (contact_id : string) : call W Contact :=
  (let! contact := getContact contact_id in
   match contact with
   | None =>
       throw (ContactNotFoundError ("Contact " +:+ contact_id +:+ " not found"))
   | Some raw => ret (new_Contact raw)
   end)%call.

(** Lines 458-463. *)
Definition get_chat_from_id (chat_id : string) : call W Chat :=
  (let! chat := getChatById chat_id in
   match chat with
   | PyRecord raw => ret (factory_chat raw)
   | _ => throw (ChatNotFoundError ("Chat " +:+ chat_id +:+ " not found"))
   end)%call.
End LookupDriver.

(** *** A small address book to run the lookups on *)

Definition toy_known_message : RawMessage string :=
  mkRawMessage 1706659100 "hello".

#[local] Instance toy_lookups : LookupBridge unit string string string := {|
  getMessageById := fun message_id w =>
    (Ok (if String.eqb message_id "true_1@c.us_3EB0"
         then PyRecord toy_known_message else PyFalse), w);
  getContact := fun contact_id w =>
    (Ok (if String.eqb contact_id "alice@c.us" then Some "Alice" else None), w);
  getChatById := fun chat_id w =>
    (Ok (if String.eqb chat_id "alice@c.us"
         then PyRecord (mkRawGroup "alice@c.us" []) else PyFalse), w)
|}.


(** ** Media: [download_file], [download_media] *)

(** A Python [bytes] value: a list of integers in 0..255. *)
Definition bytes : Type := list Z.

(** The slice [data[:stop]] of Python, for a stop of either sign. *)
Definition slice_until {A : Type} (stop : Z) (data : list A) : list A :=
  let len := Z.of_nat (length data) in
  let stop := if stop <? 0 then Z.max (stop + len) 0 else Z.min stop len in
  firstn (Z.to_nat stop) data.

(** [axolotl.util.byteutil.ByteUtil.split(input, firstLength,
    secondLength)]: the list of [input[:firstLength]] and
    [input[firstLength:firstLength + secondLength]]. *)
Definition ByteUtil_split (input : bytes) (firstLength secondLength : nat)
    : list bytes :=
  [ firstn firstLength input;
    firstn secondLength (skipn firstLength input) ].

(** [parts[i]] for the two indices used; both are in range. *)
Definition part (parts : list bytes) (i : nat) : bytes := nth i parts [].

(** The pure functions of the packages [download_media] calls:
    [base64.b64decode], [binascii.unhexlify], [HKDFv3().deriveSecrets]
    (input key material, info, output length; default salt) and the AES
    block decryption under a key. *)
Class Codecs : Type := {
  b64decode : string -> result bytes;
  unhexlify : string -> result bytes;
  deriveSecrets : bytes -> bytes -> nat -> bytes;
  aes_decrypt_block : bytes -> bytes -> bytes
}.

(** [wapi_functions.downloadFile(url)]: the blob, base64-encoded. *)
Class MediaBridge (W : Type) : Type := {
  downloadFile : string -> call W string
}.

(** The attributes of a media message that [download_media] reads.
    [content] is [None] when the attribute is missing; an empty string
    stands for a falsy value. *)
Record MediaMessage : Type := mkMediaMessage {
  content : option string;
  client_url : string;
  media_key : string;
  crypt_keys : list (string * string);
  type : string
}.

Fixpoint dict_get (key : string) (dict : list (string * string))
    : result string :=
  match dict with
  | [] => Raise (KeyError key)
  | (k, v) :: rest => if String.eqb k key then Ok v else dict_get key rest
  end.

Fixpoint xor_bytes (a b : bytes) : bytes :=
  match a, b with
  | x :: a', y :: b' => Z.lxor x y :: xor_bytes a' b'
  | _, _ => []
  end.

(** [algorithms.AES(key)] accepts keys of 128, 192 and 256 bits. *)
Definition new_AES (key : bytes) : result bytes :=
  if (length key =? 16)%nat || (length key =? 24)%nat || (length key =? 32)%nat
  then Ok key
  else Raise (ValueError "Invalid key size for AES.").

(** [Cipher(algorithm, modes.CBC(iv), backend)] accepts an IV of one
    block. *)
Definition new_Cipher_CBC (key iv : bytes) : result (bytes * bytes) :=
  if (length iv =? 16)%nat then Ok (key, iv)
  else Raise (ValueError "Invalid IV size for CBC.").

Section Cbc.
Context {codecs : Codecs}.

(** CBC decryption of the first [blocks] blocks of [data]: a block is
    decrypted and xor-ed with the ciphertext block before it, the IV for
    the first. *)
Fixpoint cbc_decrypt (key : bytes) (blocks : nat) (previous data : bytes)
    : bytes :=
  match blocks with
  | O => []
  | S blocks' =>
      let block := firstn 16 data in
      xor_bytes (aes_decrypt_block key block) previous
      ++ cbc_decrypt key blocks' block (skipn 16 data)
  end.

(** [decryptor.update(data) + decryptor.finalize()]: [update] returns
    the whole blocks decrypted, [finalize] raises when bytes are left
    over. *)
Definition decryptor_update_finalize (cipher : bytes * bytes) (data : bytes)
    : result bytes :=
  let '(key, iv) := cipher in
  let plain := cbc_decrypt key (length data / 16)%nat iv data in
  if (length data mod 16 =? 0)%nat then Ok plain
  else Raise (ValueError
    "The length of the provided data is not a multiple of the block length.").
End Cbc.

Section MediaDriver.
Context {W : Type} {media_bridge : MediaBridge W} {codecs : Codecs}.

Definition lift {A : Type} (r : result A) : call W A := fun w => (r, w).

(** Lines 584-585. *)
Definition download_file (url : string) : call W bytes :=
  (let! encoded := downloadFile url in
   lift (b64decode encoded))%call.

(** Lines 588-592: [Some] is the [return] of the preview; a missing
    [content] attribute raises [AttributeError], which is caught. *)
Definition preview (media_msg : MediaMessage) (download_preview : bool)
    : call W (option bytes) :=
  try_except
    (let! content := lift (match content media_msg with
                           | Some c => Ok c
                           | None => Raise AttributeError
                           end) in
     if negb (String.eqb content "") && download_preview
     then let! decoded := lift (b64decode content) in ret (Some decoded)
     else ret None)%call
    (fun e => match e with AttributeError => true | _ => false end)
    (ret None).

(** Lines 587-608. *)
Definition download_media (media_msg : MediaMessage) (download_preview : bool)
    : call W bytes :=
  (let! early := preview media_msg download_preview in
   match early with
   | Some decoded => ret decoded
   | None =>
       let! file_data := download_file (client_url media_msg) in
       let! media_key := lift (b64decode (media_key media_msg)) in
       let! hex := lift (dict_get (type media_msg) (crypt_keys media_msg)) in
       let! info := lift (unhexlify hex) in
       let derivative := deriveSecrets media_key info 112 in
       let parts := ByteUtil_split derivative 16 32 in
       let iv := part parts 0 in
       let cipher_key := part parts 1 in
       let e_file := slice_until (-10) file_data in
       let! algorithm := lift (new_AES cipher_key) in
       let! cr_obj := lift (new_Cipher_CBC algorithm iv) in
       lift (decryptor_update_finalize cr_obj e_file)
   end)%call.
End MediaDriver.

(** *** The sending side, for fixtures *)

(** CBC encryption of [blocks] blocks under a block encryption
    [encrypt_block]. *)
Fixpoint cbc_encrypt (encrypt_block : bytes -> bytes -> bytes) (key : bytes)
    (blocks : nat) (previous data : bytes) : bytes :=
  match blocks with
  | O => []
  | S blocks' =>
      let block := encrypt_block key (xor_bytes (firstn 16 data) previous) in
      block ++ cbc_encrypt encrypt_block key blocks' block (skipn 16 data)
  end.

(** PKCS#7: [n] bytes of value [n] bring the length to the next multiple
    of 16, a whole block when it is one already. *)
Definition pkcs7_pad (data : bytes) : bytes :=
  let n := (16 - length data mod 16)%nat in
  data ++ repeat (Z.of_nat n) n.

(** What the remote side uploads: the ciphertext of the (block-aligned)
    data, followed by the MAC tag. *)
Definition uploaded_blob (encrypt_block : bytes -> bytes -> bytes)
    (key iv aligned tag : bytes) : bytes :=
  cbc_encrypt encrypt_block key (length aligned / 16)%nat iv aligned ++ tag.

(** *** Stand-ins to run [download_media] on

    Strings are decoded to their character codes, the derived secret
    repeats its input, and a block is decrypted by xor with the start of
    the key (which is its own inverse). *)
Definition codes (s : string) : bytes :=
  map (fun c => Z.of_nat (nat_of_ascii c)) (list_ascii_of_string s).

Fixpoint chars (data : bytes) : string :=
  match data with
  | [] => EmptyString
  | b :: rest => String (ascii_of_nat (Z.to_nat b)) (chars rest)
  end.

Fixpoint cycle (n : nat) (seed rest : bytes) : bytes :=
  match n with
  | O => []
  | S n' => match rest with
            | [] => match seed with
                    | [] => 0 :: cycle n' seed []
                    | b :: seed' => b :: cycle n' seed seed'
                    end
            | b :: rest' => b :: cycle n' seed rest'
            end
  end.

Definition toy_block (key block : bytes) : bytes :=
  xor_bytes block (firstn 16 key).

#[local] Instance toy_codecs : Codecs := {|
  b64decode := fun s => Ok (codes s);
  unhexlify := fun s => Ok (codes s);
  deriveSecrets := fun ikm info n => cycle n (ikm ++ info) [];
  aes_decrypt_block := toy_block
|}.

(** The page serves one blob per URL. *)
#[local] Instance toy_media_bridge : MediaBridge (string -> string) := {|
  downloadFile := fun url served => (Ok (served url), served)
|}.

Definition toy_media_message : MediaMessage := {|
  content := None;
  client_url := "https://mmg.example/d/f/abc.enc";
  media_key := "0123456789abcdefghijklmnopqrstuv";
  crypt_keys := [("image", "WhatsApp Image Keys");
                 ("video", "WhatsApp Video Keys")];
  type := "image"
|}.

Definition toy_okm : bytes :=
  deriveSecrets (codes (media_key toy_media_message))
    (codes "WhatsApp Image Keys") 112.
Definition toy_iv : bytes := firstn 16 toy_okm.
Definition toy_cipher_key : bytes := firstn 32 (skipn 16 toy_okm).
Definition toy_tag : bytes := [1; 2; 3; 4; 5; 6; 7; 8; 9; 10].

Definition toy_sixteen : bytes := codes "sixteen byte msg".

(** A page that serves the given blob. *)
Definition toy_served (blob : bytes) : string -> string :=
  fun _ => chars blob.


(** [encrypt_block] and [decrypt_block] are a block cipher under [key]:
    blocks of 16 bytes go to blocks of 16 bytes and decryption undoes
    encryption. *)
Definition block_cipher_pair (encrypt_block decrypt_block : bytes -> bytes -> bytes)
    (key : bytes) : Prop :=
  forall block, length block = 16%nat ->
    length (encrypt_block key block) = 16%nat /\
    decrypt_block key (encrypt_block key block) = block.


(** ** Profile persistence: [save_firefox_profile] *)

(** The file system: a tree of directories and files.  A directory lists
    its entries by name, each name once. *)
#[warnings="-register-all"]
Inductive node : Type :=
| File (data : string)
| Dir (entries : list (string * node)).

(** A place in the tree: the components of its directory and its own
    name.  [os.path.join(place, item)] is [inside place item]. *)
Record place : Type := mkPlace {
  parent : list string;
  name : string
}.

Definition components (p : place) : list string := parent p ++ [name p].
Definition inside (p : place) (item : string) : place :=
  mkPlace (components p) item.

(** A path as its text was given: the text of a place, or that text with
    a separator at its end.  Both texts lead to the same place
    ([place_of]); they differ where the text itself is used, in the
    format ["{}__tmp"] of line 123, which appends to the name of a plain
    path and lands behind the separator, inside the directory, of the
    other. *)
Inductive pathname : Type :=
| Plain (p : place)
| Slashed (p : place).
Coercion Plain : place >-> pathname.

Definition place_of (t : pathname) : place :=
  match t with
  | Plain p => p
  | Slashed p => p
  end.

Definition tmp_of (t : pathname) : place :=
  match t with
  | Plain p => mkPlace (parent p) (name p +:+ "__tmp")
  | Slashed p => mkPlace (components p) "__tmp"
  end.

Fixpoint entry (item : string) (entries : list (string * node)) : option node :=
  match entries with
  | [] => None
  | (n, child) :: rest => if String.eqb n item then Some child else entry item rest
  end.

Fixpoint set_entry (item : string) (new : node) (entries : list (string * node))
    : list (string * node) :=
  match entries with
  | [] => [(item, new)]
  | (n, child) :: rest =>
      if String.eqb n item then (n, new) :: rest
      else (n, child) :: set_entry item new rest
  end.

Fixpoint del_entry (item : string) (entries : list (string * node))
    : list (string * node) :=
  match entries with
  | [] => []
  | (n, child) :: rest =>
      if String.eqb n item then rest else (n, child) :: del_entry item rest
  end.

Fixpoint node_at (p : list string) (root : node) : option node :=
  match p with
  | [] => Some root
  | c :: p' =>
      match root with
      | File _ => None
      | Dir entries =>
          match entry c entries with
          | Some child => node_at p' child
          | None => None
          end
      end
  end.

(** Put [new] at [p].  With [create] the missing directories on the way
    are made, as [os.makedirs] does; without it they are an error. *)
Fixpoint put_at (create : bool) (p : list string) (new : node) (root : node)
    : result node :=
  match p with
  | [] => Ok new
  | c :: p' =>
      match root with
      | File _ => Raise (OSError "NotADirectoryError")
      | Dir entries =>
          match p' with
          | [] => Ok (Dir (set_entry c new entries))
          | _ :: _ =>
              match entry c entries with
              | Some child =>
                  rbind (put_at create p' new child)
                    (fun child' => Ok (Dir (set_entry c child' entries)))
              | None =>
                  if create
                  then rbind (put_at create p' new (Dir []))
                         (fun child' => Ok (Dir (set_entry c child' entries)))
                  else Raise (OSError "FileNotFoundError")
              end
          end
      end
  end.

Fixpoint remove_at (p : list string) (root : node) : node :=
  match p with
  | [] => root
  | c :: p' =>
      match root with
      | File data => File data
      | Dir entries =>
          match p' with
          | [] => Dir (del_entry c entries)
          | _ :: _ =>
              match entry c entries with
              | Some child => Dir (set_entry c (remove_at p' child) entries)
              | None => Dir entries
              end
          end
      end
  end.

(** The lock files that every copy leaves out (lines 127-129, 145, 151). *)
Definition is_lock (item : string) : bool :=
  String.eqb item "parent.lock" || String.eqb item "lock"
  || String.eqb item ".parentlock".

(** A tree without its lock files, at every depth: what
    [copytree(..., ignore=ignore_patterns("parent.lock", "lock",
    ".parentlock"))] copies. *)
Fixpoint without_locks (n : node) : node :=
  match n with
  | File data => File data
  | Dir entries =>
      Dir ((fix go (entries : list (string * node)) : list (string * node) :=
              match entries with
              | [] => []
              | (item, child) :: rest =>
                  if is_lock item then go rest
                  else (item, without_locks child) :: go rest
              end) entries)
  end.

(** The machine: its files, and what [dumps(self.get_local_storage())]
    gives in the running browser. *)
Record Machine : Type := mkMachine {
  files : node;
  storage_dump : result string
}.

Definition with_files (m : Machine) (root : node) : Machine :=
  mkMachine root (storage_dump m).

(** [os.path.exists(path)]: behind a separator only a directory is
    found. *)
Definition os_path_exists (t : pathname) : call Machine bool :=
  read (fun m => match node_at (components (place_of t)) (files m) with
                 | Some (Dir _) => true
                 | Some (File _) =>
                     match t with Plain _ => true | Slashed _ => false end
                 | None => false
                 end).

Definition os_path_isdir (p : place) : call Machine bool :=
  read (fun m => match node_at (components p) (files m) with
                 | Some (Dir _) => true
                 | _ => false
                 end).

Definition os_listdir (p : place) : call Machine (list string) :=
  fun m => match node_at (components p) (files m) with
           | Some (Dir entries) => (Ok (map fst entries), m)
           | Some (File _) => (Raise (OSError "NotADirectoryError"), m)
           | None => (Raise (OSError "FileNotFoundError"), m)
           end.

(** [shutil.copytree(src, dst, ignore=...)]: lists [src], makes [dst]
    (which must not exist) and copies what is not ignored. *)
Definition shutil_copytree (src dst : place) : call Machine unit :=
  fun m => match node_at (components src) (files m) with
           | None => (Raise (OSError "FileNotFoundError"), m)
           | Some (File _) => (Raise (OSError "NotADirectoryError"), m)
           | Some (Dir entries) =>
               match node_at (components dst) (files m) with
               | Some _ => (Raise (OSError "FileExistsError"), m)
               | None =>
                   match put_at true (components dst)
                           (without_locks (Dir entries)) (files m) with
                   | Ok root => (Ok tt, with_files m root)
                   | Raise e => (Raise e, m)
                   end
               end
           end.

(** [shutil.rmtree(path)]. *)
Definition shutil_rmtree (p : place) : call Machine unit :=
  fun m => match node_at (components p) (files m) with
           | None => (Raise (OSError "FileNotFoundError"), m)
           | Some (File _) => (Raise (OSError "NotADirectoryError"), m)
           | Some (Dir _) =>
               (Ok tt, with_files m (remove_at (components p) (files m)))
           end.

(** [shutil.move(src, dst)] for a directory [src]: renamed to [dst] when
    [dst] is free (copied there, the directories on the way made, when
    the renaming fails), moved into [dst] when that is a directory,
    refused when [dst] is a file. *)
Definition shutil_move (src dst : place) : call Machine unit :=
  fun m =>
    match node_at (components src) (files m) with
    | None => (Raise (OSError "FileNotFoundError"), m)
    | Some moved =>
        let real_dst :=
          match node_at (components dst) (files m) with
          | Some (Dir _) => Ok (inside dst (name src))
          | Some (File _) => Raise (OSError "FileExistsError")
          | None => Ok dst
          end in
        match real_dst with
        | Raise e => (Raise e, m)
        | Ok real_dst =>
            match node_at (components real_dst) (files m) with
            | Some _ => (Raise (OSError "shutil.Error"), m)
            | None =>
                match put_at true (components real_dst) moved
                        (remove_at (components src) (files m)) with
                | Ok root => (Ok tt, with_files m root)
                | Raise e => (Raise e, m)
                end
            end
        end
    end.

(** [shutil.copy2(src, dst)]: the file [src] is written at [dst], or
    under its own name inside [dst] when that is a directory.  The target
    must not be a directory itself, nor the source file. *)
Definition shutil_copy2 (src dst : place) : call Machine unit :=
  fun m =>
    match node_at (components src) (files m) with
    | Some (File data) =>
        let target :=
          match node_at (components dst) (files m) with
          | Some (Dir _) => inside dst (name src)
          | _ => dst
          end in
        if decide (components src = components target)
        then (Raise (OSError "SameFileError"), m)
        else
          match node_at (components target) (files m) with
          | Some (Dir _) => (Raise (OSError "IsADirectoryError"), m)
          | _ =>
              match put_at false (components target) (File data) (files m) with
              | Ok root => (Ok tt, with_files m root)
              | Raise e => (Raise e, m)
              end
          end
    | Some (Dir _) => (Raise (OSError "IsADirectoryError"), m)
    | None => (Raise (OSError "FileNotFoundError"), m)
    end.

(** [open(path, 'w')]: the file is created or emptied. *)
Definition open_w (p : place) : call Machine unit :=
  fun m =>
    match node_at (components p) (files m) with
    | Some (Dir _) => (Raise (OSError "IsADirectoryError"), m)
    | _ =>
        match put_at false (components p) (File "") (files m) with
        | Ok root => (Ok tt, with_files m root)
        | Raise e => (Raise e, m)
        end
    end.

(** [f.write(text)] on the file just opened. *)
Definition write_text (p : place) (text : string) : call Machine unit :=
  fun m =>
    match put_at false (components p) (File text) (files m) with
    | Ok root => (Ok tt, with_files m root)
    | Raise e => (Raise e, m)
    end.

Definition is_OSError (e : exn) : bool :=
  match e with OSError _ => true | _ => false end.

(** [for item in items: body(item)]. *)
Fixpoint for_each {W A : Type} (items : list A) (body : A -> call W unit)
    : call W unit :=
  match items with
  | [] => ret tt
  | item :: rest => (do! body item in for_each rest body)%call
  end.

Definition _LOCAL_STORAGE_FILE : string := "localStorage.json".

(** Lines 118-156 ([logger.info] left out).  [profile_path] is
    [self._profile.path], the live profile; [_profile_path] is the
    permanent one, as the caller wrote it.  [shutil] and [os.path.join]
    take a path with a separator at its end for the place it leads
    to. *)
Definition save_firefox_profile (profile_path : place)
    (_profile_path : pathname) (remove_old : bool) : call Machine unit :=
  (do! (if remove_old then
          let tmp_path := tmp_of _profile_path in
          do! shutil_copytree profile_path tmp_path in
          let! tmp_exists := os_path_exists tmp_path in
          let! filled :=
            if tmp_exists
            then let! listing := os_listdir tmp_path in
                 ret (0 <? Z.of_nat (length listing))
            else ret false in
          if filled then
            let! old_exists := os_path_exists _profile_path in
            do! (if old_exists
                 then try_except (shutil_rmtree (place_of _profile_path))
                        is_OSError (ret tt)
                 else ret tt) in
            shutil_move tmp_path (place_of _profile_path)
          else
            do! shutil_rmtree tmp_path in
            throw (WhatsAPIException "Missing tmp firefox profile.")
        else
          let! listing := os_listdir profile_path in
          for_each listing (fun item =>
            if is_lock item then ret tt
            else
              let s := inside profile_path item in
              let d := inside (place_of _profile_path) item in
              let! s_is_dir := os_path_isdir s in
              if s_is_dir then shutil_copytree s d
              else shutil_copy2 s d)) in
   let target := inside (place_of _profile_path) _LOCAL_STORAGE_FILE in
   do! open_w target in
   let! text := (fun m => (storage_dump m, m)) in
   write_text target text)%call.

(** *** A small disk to run the save on *)

Definition toy_live : place := mkPlace ["tmp"] "rust_mozprofile".
Definition toy_permanent : place := mkPlace ["home"; "api"] "profile".

Definition toy_disk (live_entries : list (string * node)) : Machine := {|
  files :=
    Dir [ ("tmp", Dir [("rust_mozprofile", Dir live_entries)]);
          ("home", Dir [("api", Dir [("profile",
                     Dir [("cookies.sqlite", File "old cookies")])])]) ];
  storage_dump := Ok "{}"
|}.


(** A live profile that holds nothing but lock files, and one with data. *)
Definition toy_only_locks : list (string * node) :=
  [ ("parent.lock", File ""); (".parentlock", File "") ].

Definition toy_fresh_profile : list (string * node) :=
  [ ("cookies.sqlite", File "new cookies"); ("lock", File "");
    ("storage", Dir [("parent.lock", File ""); ("ls.sqlite", File "data")]) ].


(** ** Local storage: [get_local_storage], [set_local_storage] *)

(** A Python [str] and a JavaScript string: the list of its characters,
    each a code point. *)
Definition pystr : Type := list Z.

(** A value of the dictionary the driver returns for
    [window.localStorage]: a [str], or something else, kept with its
    [str()] rendering. *)
Inductive storage_value : Type :=
| VStr (s : pystr)
| VOther (rendered : pystr).

(** The lower-case hexadecimal digit of [n]. *)
Definition hexdigit (n : Z) : Z := if n <? 10 then 48 + n else 87 + n.

(** [str.encode('unicode-escape')], one character at a time: printable
    ASCII stands for itself, except the backslash, which is doubled; tab,
    line feed and carriage return get their letter; the other characters
    below 256 become [\xhh], those below 65536 [\uhhhh] and the rest
    [\Uhhhhhhhh]. *)
Definition unicode_escape_char (c : Z) : pystr :=
  if c <? 256 then
    if (32 <=? c) && (c <? 127) then
      if c =? 92 then [92; 92] else [c]
    else if c =? 9 then [92; 116]
    else if c =? 10 then [92; 110]
    else if c =? 13 then [92; 114]
    else [92; 120; hexdigit (c / 16); hexdigit (c mod 16)]
  else if c <? 65536 then
    [92; 117; hexdigit (c / 4096); hexdigit (c / 256 mod 16);
     hexdigit (c / 16 mod 16); hexdigit (c mod 16)]
  else
    [92; 85; hexdigit (c / 268435456 mod 16); hexdigit (c / 16777216 mod 16);
     hexdigit (c / 1048576 mod 16); hexdigit (c / 65536 mod 16);
     hexdigit (c / 4096 mod 16); hexdigit (c / 256 mod 16);
     hexdigit (c / 16 mod 16); hexdigit (c mod 16)].

(** [v.encode('unicode-escape').decode('ascii')]. *)
Definition unicode_escape (s : pystr) : pystr := flat_map unicode_escape_char s.

(** The browser as the two methods use it: the dictionary that
    ['return window.localStorage;'] gives back, and the run of a
    script. *)
Class Browser (W : Type) : Type := {
  return_localStorage : call W (list (pystr * storage_value));
  execute_script : pystr -> call W unit
}.

(** [str.format] puts a value in by its [str()]. *)
Definition rendered_value (v : storage_value) : pystr :=
  match v with VStr s => s | VOther r => r end.

(** ["window.localStorage.setItem('{}', '{}');".format(k, v)]. *)
Definition setItem_statement (k : pystr) (v : storage_value) : pystr :=
  codes "window.localStorage.setItem('" ++ k ++ codes "', '"
  ++ rendered_value v ++ codes "');".

Section LocalStorageDriver.
Context {W : Type} {browser : Browser W}.

(** Lines 107-112. *)
Definition get_local_storage : call W (list (pystr * storage_value)) :=
  (let! local_storage := return_localStorage in
   ret (map (fun item =>
               match item with
               | (k, VStr v) => (k, VStr (unicode_escape v))
               | (k, v) => (k, v)
               end)
          local_storage))%call.

(** Lines 114-116. *)
Definition set_local_storage (data : list (pystr * storage_value))
    : call W unit :=
  execute_script
    (concat (map (fun item => setItem_statement (fst item) (snd item)) data)).
End LocalStorageDriver.

(** *** The page: its storage, and the scripts it runs

    The storage of a page is a list of items, each key once.  The page
    runs the scripts that are a sequence of
    [window.localStorage.setItem('...', '...');] statements, reading the
    two string literals by the rules of the language; on any other
    script it gives up. *)
Definition Storage : Type := list (pystr * pystr).

Fixpoint setItem (k v : pystr) (items : Storage) : Storage :=
  match items with
  | [] => [(k, v)]
  | (k', v') :: rest =>
      if decide (k' = k) then (k', v) :: rest else (k', v') :: setItem k v rest
  end.

(** The value of a hexadecimal digit of either case. *)
Definition unhex (c : Z) : option Z :=
  if (48 <=? c) && (c <=? 57) then Some (c - 48)
  else if (97 <=? c) && (c <=? 102) then Some (c - 87)
  else if (65 <=? c) && (c <=? 70) then Some (c - 55)
  else None.

(** Reading a string literal after its opening quote. *)
Inductive literal : Type :=
| Literal (value rest : pystr)
| Unterminated
| BadEscape
| NotModelled.

Definition literal_cons (c : Z) (l : literal) : literal :=
  match l with
  | Literal value rest => Literal (c :: value) rest
  | other => other
  end.

(** The single-character escapes other than the quotes and the
    backslash. *)
Definition control_escape (e : Z) : option Z :=
  if e =? 98 then Some 8
  else if e =? 102 then Some 12
  else if e =? 110 then Some 10
  else if e =? 114 then Some 13
  else if e =? 116 then Some 9
  else if e =? 118 then Some 11
  else None.

(** A single-quoted string literal: the closing quote ends it, a raw
    line feed or carriage return breaks it, a backslash starts an
    escape: [\xhh], [\uhhhh], a control letter, or any other character,
    which then stands for itself ([\U] is the letter U).  Escapes that
    start with a digit or a line break, and [\u{...}], are left out. *)
Fixpoint js_string_literal (input : pystr) : literal :=
  match input with
  | [] => Unterminated
  | c :: rest =>
      if c =? 39 then Literal [] rest
      else if (c =? 10) || (c =? 13) then Unterminated
      else if c =? 92 then
        match rest with
        | [] => Unterminated
        | e :: rest1 =>
            if e =? 120 then
              match rest1 with
              | h1 :: h2 :: rest2 =>
                  match unhex h1, unhex h2 with
                  | Some a, Some b =>
                      literal_cons (16 * a + b) (js_string_literal rest2)
                  | _, _ => BadEscape
                  end
              | _ => BadEscape
              end
            else if e =? 117 then
              match rest1 with
              | h1 :: h2 :: h3 :: h4 :: rest2 =>
                  if h1 =? 123 then NotModelled
                  else
                    match unhex h1, unhex h2, unhex h3, unhex h4 with
                    | Some a, Some b, Some c', Some d =>
                        literal_cons (4096 * a + 256 * b + 16 * c' + d)
                          (js_string_literal rest2)
                    | _, _, _, _ => BadEscape
                    end
              | _ => BadEscape
              end
            else if (48 <=? e) && (e <=? 57) then NotModelled
            else if (e =? 10) || (e =? 13) || (e =? 8232) || (e =? 8233)
            then NotModelled
            else
              match control_escape e with
              | Some control => literal_cons control (js_string_literal rest1)
              | None => literal_cons e (js_string_literal rest1)
              end
        end
      else literal_cons c (js_string_literal rest)
  end.

Fixpoint strip_prefix (prefix input : pystr) : option pystr :=
  match prefix with
  | [] => Some input
  | p :: prefix' =>
      match input with
      | c :: input' => if c =? p then strip_prefix prefix' input' else None
      | [] => None
      end
  end.

(** One [setItem] statement read off the front of a script. *)
Inductive statement : Type :=
| SetItem (k v rest : pystr)
| SyntaxError
| GivenUp.

Definition js_statement (script : pystr) : statement :=
  match strip_prefix (codes "window.localStorage.setItem('") script with
  | None => GivenUp
  | Some after_open =>
      match js_string_literal after_open with
      | Literal k after_key =>
          match strip_prefix (codes ", '") after_key with
          | None => GivenUp
          | Some after_comma =>
              match js_string_literal after_comma with
              | Literal v after_value =>
                  match strip_prefix (codes ");") after_value with
                  | None => GivenUp
                  | Some rest => SetItem k v rest
                  end
              | Unterminated | BadEscape => SyntaxError
              | NotModelled => GivenUp
              end
          end
      | Unterminated | BadEscape => SyntaxError
      | NotModelled => GivenUp
      end
  end.

(** A script is read in full before any of it runs; [steps] bounds the
    number of statements. *)
Fixpoint js_program (steps : nat) (script : pystr)
    : result (list (pystr * pystr)) :=
  match script with
  | [] => Ok []
  | _ :: _ =>
      match steps with
      | O => Raise (JsException "script outside the model")
      | S steps' =>
          match js_statement script with
          | SetItem k v rest =>
              rbind (js_program steps' rest) (fun later => Ok ((k, v) :: later))
          | SyntaxError => Raise (JsException "SyntaxError")
          | GivenUp => Raise (JsException "script outside the model")
          end
      end
  end.

Definition run_setItems (program : list (pystr * pystr)) (items : Storage)
    : Storage :=
  fold_left (fun items kv => setItem (fst kv) (snd kv) items) program items.

#[local] Instance js_page : Browser Storage := {|
  return_localStorage := fun items =>
    (Ok (map (fun kv => (fst kv, VStr (snd kv))) items), items);
  execute_script := fun script items =>
    match js_program (length script) script with
    | Ok program => (Ok tt, run_setItems program items)
    | Raise e => (Raise e, items)
    end
|}.

(** The snapshot [get_local_storage] takes of a page with the given
    items, and the script [set_local_storage] writes for a snapshot. *)
Definition snapshot_of (items : Storage) : list (pystr * storage_value) :=
  map (fun kv => (fst kv, VStr (unicode_escape (snd kv)))) items.

Definition script_of (data : list (pystr * storage_value)) : pystr :=
  concat (map (fun item => setItem_statement (fst item) (snd item)) data).

(** Characters a key may hold for the restore to read it back: a key is
    put between the quotes as it is. *)
Definition plain_in_quotes (c : Z) : Prop :=
  c <> 39 /\ c <> 92 /\ c <> 10 /\ c <> 13.

(** Characters a value may hold for the restore to read it back. *)
Definition restorable (c : Z) : Prop := 0 <= c < 65536 /\ c <> 39.

(** A storage with a control character, a backslash and characters
    beyond ASCII, and one with a character beyond U+FFFF. *)
Definition toy_storage : Storage :=
  [ (codes "WABrowserId", codes "abc" ++ [9; 92; 233; 8364; 0; 127]);
    (codes "WAToken1", codes "x=1;y=2") ].

Definition toy_storage_emoji : Storage :=
  [ (codes "last-status", [128512]) ].


(** ** More of the driver: chats by phone number, the browser pid *)

(** [wapi_functions.getAllChats()]. *)
Class ChatsBridge (W RawChat Payload : Type) : Type := {
  getAllChats : call W (list (RawGroup RawChat Payload))
}.

(** What [get_chat_from_phone_number] asks of a classified chat:
    [isinstance(chat, UserChat)] and [chat.get_id()]. *)
Class ChatView (Chat : Type) : Type := {
  is_UserChat : Chat -> bool;
  get_id : Chat -> string
}.

Section ChatsDriver.
Context {W RawChat Payload Chat Message : Type}.
Context {chats_bridge : ChatsBridge W RawChat Payload}.
Context {classifier : Classifier RawChat Payload Chat Message}.
Context {chat_view : ChatView Chat}.

(** Lines 326-333. *)
Definition get_all_chats : call W (list Chat) :=
  (let! chats := getAllChats in
   ret (map factory_chat chats))%call.

(** Lines 479-484: the loop over the chats, with its [continue] and its
    [return], and the [raise] after it. *)
Fixpoint first_chat_for (number : string) (chats : list Chat) : call W Chat :=
  match chats with
  | [] => throw (ChatNotFoundError
                   ("Chat for phone " +:+ number +:+ " not found"))
  | chat :: rest =>
      if negb (is_UserChat chat) || negb (contains number (get_id chat))
      then first_chat_for number rest
      else ret chat
  end.

(** Lines 465-484. *)
Definition get_chat_from_phone_number (number : string) : call W Chat :=
  (let! chats := get_all_chats in
   first_chat_for number chats)%call.
End ChatsDriver.

(** The chat is a user chat and the number occurs in its id. *)
Definition chat_matches {Chat : Type} {chat_view : ChatView Chat}
    (number : string) (chat : Chat) : Prop :=
  is_UserChat chat = true /\
  exists before after, get_id chat = before +:+ number +:+ after.

(** *** A small chat list *)

Record ToyChat : Type := mkToyChat {
  tc_user : bool;
  tc_id : string
}.

#[local] Instance toy_chat_view : ChatView ToyChat := {|
  is_UserChat := tc_user;
  get_id := tc_id
|}.

#[local] Instance toy_chat_classifier
  : Classifier bool string ToyChat (RawMessage string) := {|
  factory_chat := fun raw =>
    mkToyChat (rg_chat raw)
      (match rg_messages raw with
       | m :: _ => rm_payload m
       | [] => ""
       end);
  factory_message := fun m => m;
  timestamp := rm_timestamp
|}.

(** A group whose id holds the number, then two user chats. *)
Definition toy_chats : list (RawGroup bool string) :=
  [ mkRawGroup false [mkRawMessage 0 "972512345678-1500000000@g.us"];
    mkRawGroup true [mkRawMessage 0 "4915112345678@c.us"];
    mkRawGroup true [mkRawMessage 0 "972512345678@c.us"] ].

#[local] Instance toy_chats_bridge
  : ChatsBridge (list (RawGroup bool string)) bool string := {|
  getAllChats := fun w => (Ok w, w)
|}.


(** A media message that carries an inline preview. *)
Definition toy_preview_message : MediaMessage := {|
  content := Some "thumb";
  client_url := "https://mmg.example/d/f/abc.enc";
  media_key := "0123456789abcdefghijklmnopqrstuv";
  crypt_keys := [("image", "WhatsApp Image Keys")];
  type := "image"
|}.


(** [localStorage.getItem(k)] on the page. *)
Fixpoint getItem (k : pystr) (items : Storage) : option pystr :=
  match items with
  | [] => None
  | (k', v) :: rest => if decide (k' = k) then Some v else getItem k rest
  end.

(** A page that already holds items. *)
Definition toy_page_storage : Storage :=
  [ (codes "WAToken1", codes "stale"); (codes "theme", codes "dark") ].



(** A disk on which an earlier save left its temporary directory. *)
Definition toy_disk_stale_tmp : Machine := {|
  files :=
    Dir [ ("tmp", Dir [("rust_mozprofile", Dir toy_fresh_profile)]);
          ("home", Dir [("api", Dir [("profile", Dir []);
                                     ("profile__tmp", Dir [])])]) ];
  storage_dump := Ok "{}"
|}.



(** Lines 145-153: the body of the loop of the non-replacing save. *)
Definition copy_item (profile_path _profile_path : place) (item : string)
    : call Machine unit :=
  if is_lock item then ret tt
  else
    (let s := inside profile_path item in
     let d := inside _profile_path item in
     let! s_is_dir := os_path_isdir s in
     if s_is_dir then shutil_copytree s d
     else shutil_copy2 s d)%call.

(** Two paths that part ways at some component: neither lies inside the
    other. *)
Definition apart (p q : list string) : Prop :=
  exists common a b p' q',
    p = common ++ a :: p' /\ q = common ++ b :: q' /\ a <> b.

(** A permanent profile that already holds the [storage] directory. *)
Definition toy_disk_saved_before : Machine := {|
  files :=
    Dir [ ("tmp", Dir [("rust_mozprofile", Dir toy_fresh_profile)]);
          ("home", Dir [("api", Dir [("profile",
             Dir [ ("cookies.sqlite", File "old cookies");
                   ("storage", Dir [("ls.sqlite", File "old data")]) ])])]) ];
  storage_dump := Ok "{}"
|}.


(** ** The proxy settings: [set_proxy] *)

(** A preference of the Firefox profile is a number or a text; the
    profile keeps its preferences in a dictionary, and
    [set_preference] assigns to one key of it. *)
Inductive pref : Type :=
| PInt (n : Z)
| PStr (s : string).

Definition set_preference (key : string) (value : pref)
    : call (gmap string pref) unit :=
  fun prefs => (Ok tt, <[key := value]> prefs).

(** Python's [int] on a text: a number, or [ValueError]. *)
Class Builtins : Type := {
  int : string -> result Z
}.

(** [s.split(sep)] for a separator of one character: the pieces between
    the separators, an empty text giving one empty piece. *)
Fixpoint str_split (sep : ascii) (s : string) : list string :=
  match s with
  | EmptyString => [EmptyString]
  | String c rest =>
      if Ascii.eqb c sep then EmptyString :: str_split sep rest
      else match str_split sep rest with
           | piece :: pieces => String c piece :: pieces
           | [] => [String c EmptyString]
           end
  end.

(** How often a character occurs in a text. *)
Fixpoint occurrences (c : ascii) (s : string) : nat :=
  match s with
  | EmptyString => 0%nat
  | String c' rest =>
      if Ascii.eqb c' c then S (occurrences c rest) else occurrences c rest
  end.

Section ProxyDriver.
Context {builtins : Builtins}.

(** Lines 158-165 ([logger.info] left out).  The unpacking of the split
    into two names raises [ValueError] unless there are two pieces. *)
Definition set_proxy (proxy : string) : call (gmap string pref) unit :=
  match str_split ":" proxy with
  | [proxy_address; proxy_port] =>
      (do! set_preference "network.proxy.type" (PInt 1) in
       do! set_preference "network.proxy.http" (PStr proxy_address) in
       let! http_port := lift (int proxy_port) in
       do! set_preference "network.proxy.http_port" (PInt http_port) in
       do! set_preference "network.proxy.ssl" (PStr proxy_address) in
       let! ssl_port := lift (int proxy_port) in
       set_preference "network.proxy.ssl_port" (PInt ssl_port))%call
  | [] => throw (ValueError "not enough values to unpack (expected 2, got 0)")
  | [_] => throw (ValueError "not enough values to unpack (expected 2, got 1)")
  | _ => throw (ValueError "too many values to unpack (expected 2)")
  end.

End ProxyDriver.

(** *** [int] on ASCII text, to run [set_proxy] with

    Blanks around the number are dropped, a sign may lead it, and its
    digits may be parted by single underscores.  The message quotes the
    text as [repr] does a text without quotes, backslashes or control
    characters. *)

Definition digit_of (c : ascii) : option Z :=
  let n := Z.of_nat (nat_of_ascii c) in
  if (48 <=? n) && (n <=? 57) then Some (n - 48) else None.

Definition is_blank (c : ascii) : bool :=
  let n := Z.of_nat (nat_of_ascii c) in
  ((9 <=? n) && (n <=? 13)) || (n =? 32).

Fixpoint all_blank (s : string) : bool :=
  match s with
  | EmptyString => true
  | String c rest => is_blank c && all_blank rest
  end.

Fixpoint lstrip (s : string) : string :=
  match s with
  | EmptyString => EmptyString
  | String c rest => if is_blank c then lstrip rest else s
  end.

(** The digits, [after_digit] telling whether the last character read
    was one. *)
Fixpoint decimal_from (value : Z) (after_digit : bool) (s : string)
    : option Z :=
  match s with
  | EmptyString => if after_digit then Some value else None
  | String c rest =>
      match digit_of c with
      | Some d => decimal_from (10 * value + d) true rest
      | None =>
          if negb after_digit then None
          else if Ascii.eqb c "_" then decimal_from value false rest
          else if is_blank c && all_blank rest then Some value
          else None
      end
  end.

#[local] Instance toy_builtins : Builtins := {|
  int s :=
    let number :=
      match lstrip s with
      | String "-" rest => option_map Z.opp (decimal_from 0 false rest)
      | String "+" rest => decimal_from 0 false rest
      | stripped => decimal_from 0 false stripped
      end in
    match number with
    | Some n => Ok n
    | None =>
        Raise (ValueError
                 ("invalid literal for int() with base 10: '" +:+ s +:+ "'"))
    end
|}.


(** * Part II: properties *)

(** ** The sort *)

Section SortFacts.
Context {A : Type} (key : A -> Z).

Lemma insert_by_perm (x : A) (l : list A) : Permutation (insert_by key x l) (x :: l).
Proof.
  induction l as [|y l IH]; simpl; [reflexivity|].
  destruct (key x <=? key y); [reflexivity|].
  rewrite IH. apply perm_swap.
Qed.

Lemma sorted_perm (l : list A) : Permutation (sorted key l) l.
Proof.
  induction l as [|x l IH]; simpl; [reflexivity|].
  rewrite insert_by_perm. now constructor.
Qed.

Lemma insert_by_ascending (x : A) (l : list A) :
  ascending key l -> ascending key (insert_by key x l).
Proof.
  unfold ascending. induction 1 as [|y l Hl IH Hy]; simpl.
  - repeat constructor.
  - destruct (Z.leb_spec (key x) (key y)) as [Hxy|Hxy].
    + repeat constructor; assumption.
    + constructor; [exact IH|].
      destruct l as [|z l]; simpl.
      * constructor. lia.
      * inversion Hy; subst.
        destruct (key x <=? key z); constructor; lia.
Qed.

Lemma sorted_ascending (l : list A) : ascending key (sorted key l).
Proof.
  induction l as [|x l IH]; simpl.
  - constructor.
  - now apply insert_by_ascending.
Qed.

Lemma insert_by_filter (k : Z) (x : A) (l : list A) :
  List.filter (fun a => key a =? k) (insert_by key x l) =
  List.filter (fun a => key a =? k) (x :: l).
Proof.
  induction l as [|y l IH]; [reflexivity|].
  cbn [insert_by].
  destruct (Z.leb_spec (key x) (key y)) as [Hxy|Hxy]; [reflexivity|].
  cbn [List.filter] in *. rewrite IH.
  destruct (Z.eqb_spec (key x) k) as [Hx|Hx];
    destruct (Z.eqb_spec (key y) k) as [Hy|Hy]; try reflexivity.
  lia.
Qed.

Lemma sorted_stable (l : list A) : same_arrival_order key l (sorted key l).
Proof.
  intros k. induction l as [|x l IH]; [reflexivity|].
  cbn [sorted]. rewrite insert_by_filter. cbn [List.filter].
  now rewrite IH.
Qed.

(** What a stable sort is: any other list with the three properties is
    the same list. *)
Lemma stable_sort_unique (l s : list A) :
  ascending key s -> same_arrival_order key l s -> s = sorted key l.
Proof.
  intros Hs Hst.
  assert (Hst' : same_arrival_order key (sorted key l) s).
  { intros k. rewrite Hst. symmetry. apply sorted_stable. }
  pose proof (sorted_ascending l) as Hl.
  clear Hst. revert Hs Hl Hst'. generalize (sorted key l). clear l.
  unfold ascending.
  induction s as [|a s IH]; intros t Hs Ht Hst.
  - destruct t as [|b t]; [reflexivity|].
    specialize (Hst (key b)). cbn in Hst.
    rewrite Z.eqb_refl in Hst. discriminate.
  - destruct t as [|b t].
    { specialize (Hst (key a)). cbn in Hst.
      rewrite Z.eqb_refl in Hst. discriminate. }
    apply Sorted_StronglySorted in Hs; [|intros ? ? ?; lia].
    apply Sorted_StronglySorted in Ht; [|intros ? ? ?; lia].
    inversion Hs as [|? ? Hs' Ha]; subst.
    inversion Ht as [|? ? Ht' Hb]; subst.
    assert (Hin : forall (u : list A) c,
               In c (List.filter (fun a => key a =? key c) u) <-> In c u).
    { intros u c. rewrite List.filter_In. rewrite Z.eqb_refl. tauto. }
    assert (Hab : key a = key b).
    { pose proof (Hst (key a)) as H1. pose proof (Hst (key b)) as H2.
      assert (In a (b :: t)) as [->|Ia].
      { apply Hin. rewrite <- H1. apply Hin. now left. }
      { reflexivity. }
      assert (In b (a :: s)) as [->|Ib].
      { apply Hin. rewrite H2. apply Hin. now left. }
      { reflexivity. }
      rewrite List.Forall_forall in Ha, Hb.
      specialize (Ha _ Ib). specialize (Hb _ Ia). lia. }
    pose proof (Hst (key a)) as H1. cbn in H1.
    rewrite <- Hab in H1. rewrite !Z.eqb_refl in H1.
    injection H1 as Heq _. subst b. f_equal.
    apply IH.
    + now apply StronglySorted_Sorted.
    + now apply StronglySorted_Sorted.
    + intros k. specialize (Hst k). cbn in Hst.
      destruct (key a =? k); [now injection Hst|exact Hst].
Qed.
End SortFacts.

(** ** The clock *)

(** *** The float of the timestamp

    [posix_float] is read off [SpecFloat]: the sum of the mantissas, or
    their quotient, cut to 53 digits and rounded. *)

Module FloatFacts.
Import SpecFloat.

(** The number of binary digits. *)
Lemma digits2_pos_size (p : positive) : SpecFloat.digits2_pos p = Pos.size p.
Proof. induction p; cbn; congruence. Qed.

Lemma size_bounds (p : positive) :
  2 ^ (Z.pos (Pos.size p) - 1) <= Z.pos p < 2 ^ Z.pos (Pos.size p).
Proof.
  pose proof (Pos.size_gt p) as Hgt. pose proof (Pos.size_le p) as Hle.
  apply Pos2Z.pos_lt_pos in Hgt. apply Pos2Z.pos_le_pos in Hle.
  rewrite Pos2Z.inj_pow in Hgt, Hle. change (Z.pos 2) with 2 in *.
  change (Z.pos p~0) with (2 * Z.pos p) in Hle.
  assert (Hpow : 2 ^ Z.pos (Pos.size p) = 2 * 2 ^ (Z.pos (Pos.size p) - 1)).
  { rewrite <- Z.pow_succ_r by lia. f_equal. lia. }
  lia.
Qed.

Lemma size_unique (p : positive) (d : Z) :
  2 ^ (d - 1) <= Z.pos p < 2 ^ d -> Z.pos (Pos.size p) = d.
Proof.
  intros [Hlow Hhigh]. pose proof (size_bounds p) as [Hlow' Hhigh'].
  assert (Hd : 0 < d).
  { destruct (Z.ltb_spec 0 d) as [|Hneg]; [assumption|].
    destruct (Z.eq_dec d 0) as [->|]; [cbn in Hhigh; lia|].
    rewrite Z.pow_neg_r in Hhigh by lia. lia. }
  assert (H1 : Z.pos (Pos.size p) - 1 < d).
  { apply (Z.pow_lt_mono_r_iff 2); lia. }
  assert (H2 : d - 1 < Z.pos (Pos.size p)).
  { apply (Z.pow_lt_mono_r_iff 2); lia. }
  lia.
Qed.


Lemma shr_1_m (mrs : shr_record) :
  0 <= shr_m mrs -> shr_m (shr_1 mrs) = shr_m mrs / 2.
Proof.
  destruct mrs as [m r s]. cbn [shr_m]. intros Hm.
  destruct m as [|[p|p|]|p]; cbn [shr_1 shr_m]; try lia.
  - reflexivity.
  - apply (Z.div_unique _ _ _ 1); lia.
  - apply (Z.div_unique _ _ _ 0); lia.
  - reflexivity.
Qed.

Lemma iter_shr_m (n : positive) :
  forall mrs, 0 <= shr_m mrs ->
    shr_m (iter_pos shr_1 n mrs) = shr_m mrs / 2 ^ Z.pos n.
Proof.
  assert (Hpos : forall k, 0 < 2 ^ Z.pos k) by (intros; apply Z.pow_pos_nonneg; lia).
  induction n as [n IH|n IH|]; intros mrs Hm; cbn [iter_pos].
  - assert (H1 : 0 <= shr_m (shr_1 mrs))
      by (rewrite shr_1_m by assumption; apply Z.div_pos; lia).
    assert (H2 : 0 <= shr_m (iter_pos shr_1 n (shr_1 mrs)))
      by (rewrite IH by assumption; apply Z.div_pos; [assumption|apply Hpos]).
    rewrite IH, IH, shr_1_m by assumption.
    pose proof (Hpos n).
    assert (Hsplit : 2 ^ Z.pos n~1 = 2 * 2 ^ Z.pos n * 2 ^ Z.pos n).
    { rewrite <- Z.mul_assoc, <- Z.pow_add_r, <- Z.pow_succ_r by lia.
      f_equal. lia. }
    rewrite !Z.div_div by lia. rewrite Hsplit. f_equal. lia.
  - assert (H2 : 0 <= shr_m (iter_pos shr_1 n mrs))
      by (rewrite IH by assumption; apply Z.div_pos; [assumption|apply Hpos]).
    rewrite IH, IH by assumption.
    pose proof (Hpos n).
    assert (Hsplit : 2 ^ Z.pos n~0 = 2 ^ Z.pos n * 2 ^ Z.pos n).
    { rewrite <- Z.pow_add_r by lia. f_equal. lia. }
    rewrite !Z.div_div by lia. now rewrite Hsplit.
  - now apply shr_1_m.
Qed.

Lemma shr_record_of_loc_m (m : Z) (l : location) :
  shr_m (shr_record_of_loc m l) = m.
Proof. destruct l as [|[]]; reflexivity. Qed.

(** Shifting a mantissa of [d >= 53] digits down to 53. *)
Lemma shr_fexp_m (p : positive) (ex : Z) (l : location) :
  let d := Z.pos (Pos.size p) in
  53 <= d -> - 1021 <= d + ex ->
  exists r,
    shr_fexp 53 1024 (Z.pos p) ex l = (r, ex + (d - 53)) /\
    shr_m r = Z.pos p / 2 ^ (d - 53) /\
    (d = 53 -> r = shr_record_of_loc (Z.pos p) l).
Proof.
  intros d Hd Hex. unfold shr_fexp, fexp, emin. cbn [Zdigits2].
  rewrite digits2_pos_size. fold d.
  replace (Z.max (d + ex - 53) (3 - 1024 - 53)) with (d + ex - 53) by lia.
  replace (d + ex - 53 - ex) with (d - 53) by lia.
  unfold shr. destruct (d - 53) as [|n|n] eqn:Hn; [| |lia].
  - exists (shr_record_of_loc (Z.pos p) l).
    rewrite Z.add_0_r, shr_record_of_loc_m, Z.div_1_r. auto.
  - eexists. split; [reflexivity|]. split; [|lia].
    rewrite iter_shr_m, shr_record_of_loc_m; [reflexivity|].
    rewrite shr_record_of_loc_m. lia.
Qed.

Lemma round_nearest_even_bounds (m : Z) (l : location) :
  m <= round_nearest_even m l <= m + 1.
Proof.
  destruct l as [|[]]; cbn [round_nearest_even]; try lia.
  destruct (Z.even m); lia.
Qed.

(** The rounding: a mantissa of 53 digits next to the 53 leading digits
    of the given one. *)
Lemma binary_round_aux_bounds (sx : bool) (p : positive) (ex : Z)
    (l : location) :
  let d := Z.pos (Pos.size p) in
  53 <= d -> - 1021 <= d + ex <= 1000 ->
  exists mf j,
    binary_round_aux 53 1024 sx (Z.pos p) ex l =
      S754_finite sx mf (ex + (d - 53) + j) /\
    (j = 0 \/ j = 1) /\
    2 ^ 52 <= Z.pos mf < 2 ^ 53 /\
    Z.pos p / 2 ^ (d - 53) <= Z.pos mf * 2 ^ j <= Z.pos p / 2 ^ (d - 53) + 1.
Proof.
  intros d Hd Hex. unfold binary_round_aux.
  destruct (shr_fexp_m p ex l Hd) as (r & -> & Hr & _); [fold d; lia|].
  fold d in Hr |- *.
  assert (Hpow : 0 < 2 ^ (d - 53)) by (apply Z.pow_pos_nonneg; lia).
  assert (Hm1 : 2 ^ 52 <= shr_m r < 2 ^ 53).
  { pose proof (size_bounds p) as [Hlow Hhigh]. fold d in Hlow, Hhigh.
    rewrite Hr. split.
    - apply Z.div_le_lower_bound; [assumption|].
      rewrite <- Z.pow_add_r by lia.
      now replace (d - 53 + 52) with (d - 1) by lia.
    - apply Z.div_lt_upper_bound; [assumption|].
      rewrite <- Z.pow_add_r by lia.
      now replace (d - 53 + 53) with d by lia. }
  pose proof (round_nearest_even_bounds (shr_m r) (loc_of_shr_record r))
    as Hround.
  set (rounded := round_nearest_even (shr_m r) (loc_of_shr_record r)) in *.
  rewrite <- Hr.
  destruct rounded as [|q|q] eqn:Hq; [lia| |lia].
  destruct (Z.eq_dec (Z.pos q) (2 ^ 53)) as [Htop|Hbelow].
  - assert (Hsize : Z.pos (Pos.size q) = 54)
      by (apply size_unique; rewrite Htop; cbn; lia).
    destruct (shr_fexp_m q (ex + (d - 53)) loc_Exact) as (r' & Hshr & Hr' & _);
      [lia|lia|].
    rewrite Hsize in Hshr, Hr'. rewrite Hshr.
    change (2 ^ (54 - 53)) with 2 in Hr'. rewrite Htop in Hr'.
    change (2 ^ 53 / 2) with (2 ^ 52) in Hr'.
    rewrite Hr'. change (2 ^ 52) with (Z.pos (2 ^ 52)).
    exists (2 ^ 52)%positive, 1.
    replace (ex + (d - 53) + (54 - 53)) with (ex + (d - 53) + 1) by lia.
    replace (ex + (d - 53) + 1 <=? 1024 - 53) with true
      by (symmetry; apply Z.leb_le; lia).
    split; [reflexivity|]. split; [now right|].
    split; [cbn; lia|].
    change (Z.pos (2 ^ 52) * 2 ^ 1) with (2 ^ 53). rewrite <- Htop. lia.
  - assert (Hsize : Z.pos (Pos.size q) = 53) by (apply size_unique; lia).
    destruct (shr_fexp_m q (ex + (d - 53)) loc_Exact) as (r' & Hshr & _ & Hr');
      [lia|lia|].
    rewrite Hsize in Hshr. rewrite Hshr, (Hr' Hsize).
    cbn [shr_record_of_loc shr_m].
    exists q, 0.
    replace (ex + (d - 53) + (53 - 53)) with (ex + (d - 53) + 0) by lia.
    replace (ex + (d - 53) + 0 <=? 1024 - 53) with true
      by (symmetry; apply Z.leb_le; lia).
    split; [reflexivity|]. split; [now left|].
    split; [lia|]. rewrite Z.pow_0_r. lia.
Qed.

Lemma pos_iter_xO (p d : positive) :
  Z.pos (Pos.iter xO p d) = Z.pos p * 2 ^ Z.pos d.
Proof.
  induction d as [|d IH] using Pos.peano_ind.
  - cbn. lia.
  - rewrite Pos.iter_succ, Pos2Z.inj_xO, IH, Pos2Z.inj_succ, Z.pow_succ_r by lia.
    lia.
Qed.

(** A mantissa of 53 digits that is exact stays as it is. *)
Lemma binary_round_aux_exact (sx : bool) (p : positive) (ex : Z) :
  Z.pos (Pos.size p) = 53 -> - 1074 <= ex <= 900 ->
  binary_round_aux 53 1024 sx (Z.pos p) ex loc_Exact = S754_finite sx p ex.
Proof.
  intros Hsize Hex. unfold binary_round_aux.
  destruct (shr_fexp_m p ex loc_Exact) as (r & Hshr & _ & Hr);
    [lia|lia|].
  rewrite Hsize in Hshr, Hr.
  replace (ex + (53 - 53)) with ex in Hshr by lia.
  rewrite Hshr, (Hr eq_refl).
  cbn [shr_record_of_loc shr_m loc_of_shr_record round_nearest_even].
  rewrite Hshr, (Hr eq_refl). cbn [shr_record_of_loc shr_m].
  now replace (ex <=? 1024 - 53) with true by (symmetry; apply Z.leb_le; lia).
Qed.

(** An integer below [2 ^ 53] is a float: its digits moved up to 53. *)
Lemma float_of_int_exact (n : positive) :
  let b := Z.pos (Pos.size n) in
  Z.pos n < 2 ^ 53 ->
  exists mx,
    float_of_int (Z.pos n) = S754_finite false mx (b - 53) /\
    Z.pos mx = Z.pos n * 2 ^ (53 - b) /\
    Z.pos (Pos.size mx) = 53.
Proof.
  intros b Hn.
  pose proof (size_bounds n) as [Hlow Hhigh]. fold b in Hlow, Hhigh.
  assert (Hb : 1 <= b <= 53).
  { split; [unfold b; lia|].
    destruct (Z.leb_spec b 53) as [|Hbig]; [assumption|].
    assert (2 ^ 53 <= 2 ^ (b - 1)) by (apply Z.pow_le_mono_r; lia). lia. }
  unfold float_of_int, binary_normalize, binary_round, fexp, emin.
  rewrite digits2_pos_size. fold b.
  replace (Z.max (b + 0 - 53) (3 - 1024 - 53)) with (b - 53) by lia.
  unfold shl_align. rewrite Z.sub_0_r.
  destruct (b - 53) as [|k|k] eqn:Hk; [|lia|].
  - exists n. replace (53 - b) with 0 by lia. rewrite Z.mul_1_r.
    assert (Hsize : Z.pos (Pos.size n) = 53) by (fold b; lia).
    rewrite binary_round_aux_exact by (assumption || lia). auto.
  - exists (Pos.iter xO n k).
    assert (Hvalue : Z.pos (Pos.iter xO n k) = Z.pos n * 2 ^ (53 - b))
      by (rewrite pos_iter_xO; f_equal; f_equal; lia).
    assert (Hsize : Z.pos (Pos.size (Pos.iter xO n k)) = 53).
    { apply size_unique. rewrite Hvalue.
      assert (Hpow : 0 < 2 ^ (53 - b)) by (apply Z.pow_pos_nonneg; lia).
      assert (H52 : 2 ^ (53 - 1) = 2 ^ (b - 1) * 2 ^ (53 - b))
        by (rewrite <- Z.pow_add_r by lia; f_equal; lia).
      assert (H53 : 2 ^ 53 = 2 ^ b * 2 ^ (53 - b))
        by (rewrite <- Z.pow_add_r by lia; f_equal; lia).
      rewrite H52, H53. split.
      - apply Z.mul_le_mono_nonneg_r; lia.
      - apply Z.mul_lt_mono_pos_r; lia. }
    rewrite binary_round_aux_exact by (assumption || lia). auto.
Qed.

Lemma float_of_million :
  float_of_int 1000000 = S754_finite false 8589934592000000 (- 33).
Proof. reflexivity. Qed.

(** [us / 1e6] for a count of microseconds: a float below
    [1 - 2 ^ -20]. *)
Lemma float_div_microsecond (us : positive) :
  Z.pos us < 1000000 ->
  exists my ey,
    float_div (float_of_int (Z.pos us)) (float_of_int 1000000) =
      S754_finite false my ey /\
    2 ^ 52 <= Z.pos my < 2 ^ 53 /\
    - 100 <= ey <= - 53 /\
    Z.pos my * 2 ^ 20 < (2 ^ 20 - 1) * 2 ^ (- ey).
Proof.
  intros Hus.
  destruct (float_of_int_exact us) as (m1 & Hx & Hm1 & Hs1); [lia|].
  set (a := Z.pos (Pos.size us)) in *.
  pose proof (size_bounds us) as [Hlow Hhigh]. fold a in Hlow, Hhigh.
  assert (Ha : 1 <= a <= 20).
  { split; [unfold a; lia|].
    destruct (Z.leb_spec a 20) as [|Hbig]; [assumption|].
    assert (2 ^ 20 <= 2 ^ (a - 1)) by (apply Z.pow_le_mono_r; lia). lia. }
  unfold float_div. rewrite Hx, float_of_million.
  unfold SFdiv, SFdiv_core_binary. cbn [Zdigits2 xorb].
  change (digits2_pos 8589934592000000) with 53%positive.
  rewrite digits2_pos_size, Hs1.
  unfold fexp, emin.
  change IntDef.Z.min with Z.min. change IntDef.Z.max with Z.max.
  change IntDef.Z.div_eucl with Z.div_eucl.
  replace (Z.min (Z.max (53 + (a - 53) - (53 + - 33) - 53) (3 - 1024 - 53))
             (a - 53 - - 33)) with (a - 73) by lia.
  replace (a - 53 - - 33 - (a - 73)) with 53 by lia.
  cbv iota. rewrite Z.shiftl_mul_pow2 by lia.
  destruct (Z.div_eucl (Z.pos m1 * 2 ^ 53) 8589934592000000) as [q r] eqn:Hdiv.
  assert (Hq : q = Z.pos m1 * 2 ^ 53 / 8589934592000000)
    by (unfold Z.div; now rewrite Hdiv).
  (* the quotient has 53 or 54 digits *)
  set (P := 2 ^ (73 - a)).
  assert (HP : 2 ^ 53 <= P) by (apply Z.pow_le_mono_r; lia).
  assert (Hscaled : Z.pos m1 * 2 ^ 53 = Z.pos us * P * 2 ^ 33).
  { rewrite Hm1. unfold P. rewrite <- !Z.mul_assoc, <- !Z.pow_add_r by lia.
    do 2 f_equal. lia. }
  assert (Hquot : q = Z.pos us * P / 1000000).
  { rewrite Hq, Hscaled.
    change 8589934592000000 with (1000000 * 2 ^ 33).
    apply Z.div_mul_cancel_r; lia. }
  assert (Hup : 2 ^ 72 <= Z.pos us * P < 2 ^ 73).
  { assert (H72 : 2 ^ 72 = 2 ^ (a - 1) * P)
      by (unfold P; rewrite <- Z.pow_add_r by lia; f_equal; lia).
    assert (H73 : 2 ^ 73 = 2 ^ a * P)
      by (unfold P; rewrite <- Z.pow_add_r by lia; f_equal; lia).
    rewrite H72, H73. split.
    - apply Z.mul_le_mono_nonneg_r; lia.
    - apply Z.mul_lt_mono_pos_r; lia. }
  assert (Hbelow : Z.pos us * P <= 999999 * P)
    by (apply Z.mul_le_mono_nonneg_r; lia).
  set (X := Z.pos us * P) in *.
  assert (Hqlow : 1000000 * q <= X) by (rewrite Hquot; apply Z.mul_div_le; lia).
  assert (Hqhigh : X < 1000000 * q + 1000000).
  { rewrite Hquot. pose proof (Z.mod_pos_bound X 1000000).
    pose proof (Z.div_mod X 1000000). lia. }
  assert (Hq52 : 2 ^ 52 <= q < 2 ^ 54).
  { change (2 ^ 72) with 4722366482869645213696 in Hup.
    change (2 ^ 73) with 9444732965739290427392 in Hup.
    change (2 ^ 52) with 4503599627370496.
    change (2 ^ 54) with 18014398509481984. lia. }
  destruct q as [|q|q]; [cbn in Hq52; lia| |lia].
  set (d := Z.pos (Pos.size q)).
  assert (Hd : d = 53 \/ d = 54).
  { destruct (Z.ltb_spec (Z.pos q) (2 ^ 53)) as [Hsmall|Hlarge].
    - left. apply size_unique. lia.
    - right. apply size_unique. change (2 ^ (54 - 1)) with (2 ^ 53). lia. }
  destruct (binary_round_aux_bounds false q (a - 73)
              (new_location 8589934592000000 r))
    as (mf & j & Hround & Hj & Hmf & Hnear); [fold d; lia|fold d; lia|].
  fold d in Hround, Hnear. rewrite Hround.
  exists mf, (a - 73 + (d - 53) + j).
  split; [reflexivity|]. split; [exact Hmf|].
  assert (Hvalue : Z.pos mf * 2 ^ 20 <
                   (2 ^ 20 - 1) * 2 ^ (- (a - 73 + (d - 53) + j))).
  2: { split; [|exact Hvalue]. split; [lia|].
       assert (Hexponent : 52 < - (a - 73 + (d - 53) + j)).
       { apply (Z.pow_lt_mono_r_iff 2); [lia|lia|].
         assert (0 < 2 ^ (- (a - 73 + (d - 53) + j)))
           by (apply Z.pow_pos_nonneg; lia).
         change (2 ^ 20) with 1048576 in Hvalue. nia. }
       lia. }
  (* the value *)
  set (t := d - 53) in *.
  assert (Hexp : P = 2 ^ (- (a - 73 + t + j)) * 2 ^ (t + j)).
  { unfold P. rewrite <- Z.pow_add_r by lia. f_equal. lia. }
  set (Q := 2 ^ (- (a - 73 + t + j))) in *.
  assert (HQ : 0 < Q) by (apply Z.pow_pos_nonneg; lia).
  change (2 ^ 20) with 1048576. change (2 ^ 53) with 9007199254740992 in HP.
  assert (Hfloor : (Z.pos q / 2 ^ t) * 2 ^ t <= Z.pos q).
  { rewrite Z.mul_comm. apply Z.mul_div_le. apply Z.pow_pos_nonneg; lia. }
  destruct Hd as [Hd|Hd], Hj as [-> | ->];
    replace t with (d - 53) in * by reflexivity; rewrite Hd in *;
    cbn in Hexp, Hnear, Hfloor; nia.
Qed.

Lemma int_of_float_of_int (n : positive) :
  Z.pos n < 2 ^ 53 -> int_of_float (float_of_int (Z.pos n)) = Z.pos n.
Proof.
  intros Hn. destruct (float_of_int_exact n Hn) as (mx & -> & Hmx & _).
  set (b := Z.pos (Pos.size n)) in *.
  pose proof (size_bounds n) as [Hlow _]. fold b in Hlow.
  assert (Hb : 1 <= b <= 53).
  { split; [unfold b; lia|].
    destruct (Z.leb_spec b 53) as [|Hbig]; [assumption|].
    assert (2 ^ 53 <= 2 ^ (b - 1)) by (apply Z.pow_le_mono_r; lia). lia. }
  cbn [int_of_float]. rewrite Hmx.
  destruct (Z.leb_spec 0 (b - 53)) as [Hzero|Hneg].
  - replace (b - 53) with 0 by lia. replace (53 - b) with 0 by lia. cbn. lia.
  - replace (- (b - 53)) with (53 - b) by lia.
    apply Z.quot_mul. apply Z.pow_nonzero; lia.
Qed.

(** Adding a float below [1 - 2 ^ -20] to whole seconds below [2 ^ 33]
    leaves the seconds in front of the point. *)
Lemma float_add_fraction (s my : positive) (ey : Z) :
  Z.pos s < 2 ^ 33 ->
  2 ^ 52 <= Z.pos my < 2 ^ 53 ->
  - 100 <= ey <= - 53 ->
  Z.pos my * 2 ^ 20 < (2 ^ 20 - 1) * 2 ^ (- ey) ->
  int_of_float (float_add (float_of_int (Z.pos s)) (S754_finite false my ey)) =
  Z.pos s.
Proof.
  intros Hs Hmy Hey Hvalue.
  destruct (float_of_int_exact s) as (mx & Hx & Hmx & Hsx);
    [change (2 ^ 33) with 8589934592 in Hs;
     change (2 ^ 53) with 9007199254740992; lia|].
  set (b := Z.pos (Pos.size s)) in *.
  pose proof (size_bounds s) as [Hlow Hhigh]. fold b in Hlow, Hhigh.
  assert (Hb : 1 <= b <= 33).
  { split; [unfold b; lia|].
    destruct (Z.leb_spec b 33) as [|Hbig]; [assumption|].
    assert (2 ^ 33 <= 2 ^ (b - 1)) by (apply Z.pow_le_mono_r; lia). lia. }
  (* the powers at work *)
  set (E := 2 ^ (- ey)) in *.
  set (A := 2 ^ (53 - b)) in *.
  set (N := 2 ^ (b - 53 - ey)).
  assert (HA : 2 ^ 20 <= A) by (apply Z.pow_le_mono_r; lia).
  assert (HN : 0 < N) by (apply Z.pow_pos_nonneg; lia).
  assert (HE : E = A * N)
    by (unfold E, A, N; rewrite <- Z.pow_add_r by lia; f_equal; lia).
  change (2 ^ 20) with 1048576 in *.
  assert (Hfraction : Z.pos my < N * (A - 1)) by nia.
  (* the sum of the mantissas *)
  unfold float_add. rewrite Hx. unfold SFadd. cbn [cond_Zopp].
  change IntDef.Z.min with Z.min.
  replace (Z.min (b - 53) ey) with ey by lia.
  unfold shl_align. replace (ey - ey) with 0 by lia.
  destruct (ey - (b - 53)) as [|k|k] eqn:Hk; [lia|lia|].
  cbn [fst].
  change (Z.pos (Pos.iter xO mx k) + Z.pos my)
    with (Z.pos (Pos.iter xO mx k + my)).
  set (pm := (Pos.iter xO mx k + my)%positive).
  assert (Hpm : Z.pos pm = Z.pos s * A * N + Z.pos my).
  { unfold pm. rewrite Pos2Z.inj_add, pos_iter_xO, Hmx.
    replace (Z.pos k) with (b - 53 - ey) by lia. reflexivity. }
  set (d := Z.pos (Pos.size pm)).
  assert (Hd : d = b - ey).
  { apply size_unique. rewrite Hpm.
    assert (H1 : 2 ^ (b - ey - 1) = 2 ^ (b - 1) * (A * N))
      by (rewrite <- HE; unfold E; rewrite <- Z.pow_add_r by lia; f_equal; lia).
    assert (H2 : 2 ^ (b - ey) = 2 ^ b * (A * N))
      by (rewrite <- HE; unfold E; rewrite <- Z.pow_add_r by lia; f_equal; lia).
    rewrite H1, H2. nia. }
  unfold binary_normalize, binary_round, fexp, emin.
  rewrite digits2_pos_size. fold d. rewrite Hd.
  change IntDef.Z.max with Z.max.
  replace (Z.max (b - ey + ey - 53) (3 - 1024 - 53)) with (b - 53) by lia.
  unfold shl_align.
  destruct (b - 53 - ey) as [|k'|k'] eqn:Hk'; [lia| |lia].
  destruct (binary_round_aux_bounds false pm ey loc_Exact)
    as (mf & j & Hround & Hj & Hmf & Hnear); [fold d; lia|fold d; lia|].
  fold d in Hround, Hnear. rewrite Hd in Hround, Hnear. rewrite Hround.
  replace (b - ey - 53) with (b - 53 - ey) in Hnear by lia.
  rewrite Hk' in Hnear. fold N in Hnear.
  assert (Hsplit : Z.pos pm / N = Z.pos s * A + Z.pos my / N)
    by (rewrite Hpm; apply Z.div_add_l; lia).
  assert (Hrest : 0 <= Z.pos my / N <= A - 2).
  { split; [apply Z.div_pos; lia|].
    assert (Z.pos my / N < A - 1) by (apply Z.div_lt_upper_bound; lia). lia. }
  cbn [int_of_float].
  replace (0 <=? ey + (b - ey - 53) + j) with false
    by (symmetry; apply Z.leb_gt; lia).
  replace (- (ey + (b - ey - 53) + j)) with (53 - b - j) by lia.
  rewrite Z.quot_div_nonneg by (try apply Z.pow_pos_nonneg; lia).
  symmetry. destruct Hj as [-> | ->].
  - replace (53 - b - 0) with (53 - b) by lia. fold A.
    rewrite Z.pow_0_r in Hnear.
    apply (Z.div_unique_pos _ _ _ (Z.pos mf - A * Z.pos s)); nia.
  - assert (Hhalf : A = 2 * 2 ^ (53 - b - 1))
      by (unfold A; rewrite <- Z.pow_succ_r by lia; f_equal; lia).
    set (A2 := 2 ^ (53 - b - 1)) in *.
    change (2 ^ 1) with 2 in Hnear.
    apply (Z.div_unique_pos _ _ _ (Z.pos mf - A2 * Z.pos s)); nia.
Qed.

(** The float of [timestamp()] keeps the whole second on every clock
    before [2 ^ 33] seconds, the year 2242. *)
Lemma posix_float_keeps_the_second (s us : Z) :
  0 <= s < 2 ^ 33 -> 0 <= us < 1000000 ->
  int_of_float (posix_float s us) = s.
Proof.
  intros Hs Hus. unfold posix_float.
  destruct us as [|us|us]; [| |lia].
  - change (float_div (float_of_int 0) (float_of_int 1000000))
      with (S754_zero false).
    destruct s as [|s|s]; [reflexivity| |lia].
    assert (Hfit : Z.pos s < 2 ^ 53)
      by (change (2 ^ 33) with 8589934592 in Hs;
          change (2 ^ 53) with 9007199254740992; lia).
    destruct (float_of_int_exact s Hfit) as (mx & Hx & _).
    rewrite <- (int_of_float_of_int s Hfit) at 2. rewrite Hx. reflexivity.
  - destruct (float_div_microsecond us) as (my & ey & -> & Hmy & Hey & Hvalue);
      [lia|].
    destruct s as [|s|s]; [| |lia].
    + change (float_add (float_of_int 0) (S754_finite false my ey))
        with (S754_finite false my ey).
      cbn [int_of_float].
      replace (0 <=? ey) with false by (symmetry; apply Z.leb_gt; lia).
      apply Z.quot_small.
      assert (0 < 2 ^ (- ey)) by (apply Z.pow_pos_nonneg; lia).
      change (2 ^ 20) with 1048576 in Hvalue. nia.
    + apply float_add_fraction; assumption || lia.
Qed.
End FloatFacts.

Section ClockFacts.
Context {zone : LocalTime}.

(** Where the zone keeps one offset, [_mktime] undoes [localtime]. *)
Lemma _mktime_steady (t offset : Z) :
  localtime t = t + offset ->
  localtime (t - offset) = t ->
  localtime (t - offset - 24 * 3600) = t - 24 * 3600 ->
  _mktime t = t - offset.
Proof.
  intros Ht Hu1 Hu2. unfold _mktime. cbv zeta.
  replace (t - (localtime t - t)) with (t - offset) by lia.
  rewrite Hu1, Z.eqb_refl, Hu2.
  replace (localtime t - t) with offset by lia.
  replace (t - 24 * 3600 - (t - offset - 24 * 3600)) with offset by lia.
  now rewrite Z.eqb_refl.
Qed.

(** With one offset over the last nine days and a float that keeps the
    whole second, [seven_days_ago] is the whole seconds of the clock
    less 604800. *)
Lemma seven_days_ago_steady (now offset : Z) :
  let seconds := now / 1000000 in
  - 86400 <= offset <= 86400 ->
  steady_offset offset (seconds - 9 * 86400) seconds ->
  int_of_float (posix_float (seconds - 604800) (now mod 1000000)) =
    seconds - 604800 ->
  seven_days_ago now = seconds - 604800.
Proof.
  intros seconds Hoffset Hsteady Hfloat.
  unfold seven_days_ago, datetime_timestamp, minus_days, datetime_now.
  cbn [wall microsecond]. fold seconds.
  rewrite (Hsteady seconds) by lia.
  rewrite (_mktime_steady _ offset).
  - replace (seconds + offset - 7 * 86400 - offset)
      with (seconds - 604800) by lia.
    exact Hfloat.
  - apply Hsteady. lia.
  - replace (seconds + offset - 7 * 86400 - offset)
      with (seconds - 604800) by lia.
    rewrite Hsteady by lia. lia.
  - replace (seconds + offset - 7 * 86400 - offset - 24 * 3600)
      with (seconds - 604800 - 86400) by lia.
    rewrite Hsteady by lia. lia.
Qed.
(** So it is on every clock from a week after 1970 to the year 2242. *)
Lemma seven_days_ago_plain (now offset : Z) :
  let seconds := now / 1000000 in
  - 86400 <= offset <= 86400 ->
  steady_offset offset (seconds - 9 * 86400) seconds ->
  0 <= seconds - 604800 < 2 ^ 33 ->
  seven_days_ago now = seconds - 604800.
Proof.
  intros seconds Hoffset Hsteady Hrange.
  apply (seven_days_ago_steady now offset Hoffset Hsteady).
  apply FloatFacts.posix_float_keeps_the_second; [exact Hrange|].
  apply Z.mod_pos_bound. lia.
Qed.
End ClockFacts.

(** After the clocks went back, the same hour a week ago is an hour
    further away: 608400 seconds, not 604800. *)
Example seven_days_ago_after_the_clocks_went_back :
  @seven_days_ago new_york_2024 (1730826000 * 1000000 + 250000) =
  1730826000 - 608400.
Proof. vm_compute. reflexivity. Qed.

(** On a clock of the year 2514 the float has no room for the
    microseconds and rounds to the next second. *)
Example seven_days_ago_rounds_up :
  @seven_days_ago utc ((2 ^ 34 + 604800) * 1000000 + 999999) = 2 ^ 34 + 1.
Proof. vm_compute. reflexivity. Qed.

(** ** Message synchronisation *)

Section SyncFacts.
Context {W RawChat Payload Chat Message : Type}.
Context {zone : LocalTime}.
Context {bridge : SyncBridge W RawChat Payload}.
Context {classifier : Classifier RawChat Payload Chat Message}.

Lemma recent_sorted_perm (cutoff : Z) (raw : RawGroup RawChat Payload) :
  Permutation (recent_sorted cutoff raw)
    (map factory_message
       (List.filter (fun msg => cutoff <=? rm_timestamp msg) (rg_messages raw))).
Proof. apply sorted_perm. Qed.

Lemma recent_sorted_ascending (cutoff : Z) (raw : RawGroup RawChat Payload) :
  ascending timestamp (recent_sorted cutoff raw).
Proof. apply sorted_ascending. Qed.

Lemma recent_sorted_stable (cutoff : Z) (raw : RawGroup RawChat Payload) :
  same_arrival_order timestamp
    (map factory_message
       (List.filter (fun msg => cutoff <=? rm_timestamp msg) (rg_messages raw)))
    (recent_sorted cutoff raw).
Proof. apply sorted_stable. Qed.

Lemma recent_sorted_nothing (cutoff : Z) (raw : RawGroup RawChat Payload) :
  Forall (fun msg => rm_timestamp msg < cutoff) (rg_messages raw) ->
  recent_sorted cutoff raw = [].
Proof.
  unfold recent_sorted. induction 1 as [|m l Hm _ IH]; [reflexivity|].
  cbn [List.filter]. destruct (Z.leb_spec cutoff (rm_timestamp m)); [lia|].
  exact IH.
Qed.

(** The until-date fetch, once both bridge calls have answered. *)
Lemma get_all_messages_until_date_run (w w1 w2 : W) (date : option Z)
    (include_me include_notifications : bool)
    (raws : list (RawGroup RawChat Payload)) :
  loadEarlierMessagesTillDateAllChats
    (effective_date date (seven_days_ago (now_us w))) w = (Ok tt, w1) ->
  getAllLatestMessages include_me include_notifications w1 = (Ok raws, w2) ->
  get_all_messages_until_date date include_me include_notifications w =
  (Ok (map (fun raw =>
              mkMessageGroup (factory_chat raw)
                (recent_sorted
                   (effective_date date (seven_days_ago (now_us w))) raw))
           raws), w2).
Proof.
  intros Hload Hget.
  unfold get_all_messages_until_date, bind, read, ret.
  rewrite Hload, Hget. reflexivity.
Qed.

(** The unread fetch, once the bridge has answered. *)
Lemma get_unread_run (w w' : W)
    (include_me include_notifications filter_week : bool)
    (specific_chat : option string)
    (raws : list (RawGroup RawChat Payload)) :
  unread_fetch include_me include_notifications specific_chat w = (Ok raws, w') ->
  get_unread include_me include_notifications filter_week specific_chat w =
  (Ok (map (fun raw =>
              mkMessageGroup (factory_chat raw)
                (if filter_week
                 then recent_sorted (seven_days_ago (now_us w)) raw
                 else as_listed raw))
           raws), w').
Proof.
  intros Hfetch. unfold get_unread, bind, read, ret.
  rewrite Hfetch. reflexivity.
Qed.

(** On the two paths that call [sorted], each group is in non-decreasing
    timestamp order and messages of equal timestamp keep the order in
    which the bridge listed them. *)
Lemma sorting_paths_ordered (cutoff : Z) (raws : list (RawGroup RawChat Payload)) :
  Forall2 (fun raw (group : MessageGroup Chat Message) =>
             ascending timestamp (mg_messages group) /\
             same_arrival_order timestamp
               (map factory_message
                  (List.filter (fun msg => cutoff <=? rm_timestamp msg)
                     (rg_messages raw)))
               (mg_messages group))
    raws
    (map (fun raw => mkMessageGroup (factory_chat raw) (recent_sorted cutoff raw))
       raws).
Proof.
  induction raws as [|raw raws IH]; cbn [map]; constructor; [|exact IH].
  split; [apply recent_sorted_ascending | apply recent_sorted_stable].
Qed.

(** X3. The until-date fetch returns every group in non-decreasing
    timestamp order, messages of equal timestamp in the order of the
    bridge. *)
Lemma until_date_groups_ordered (w w1 w2 : W) (date : option Z)
    (include_me include_notifications : bool)
    (raws : list (RawGroup RawChat Payload)) :
  let cutoff := effective_date date (seven_days_ago (now_us w)) in
  loadEarlierMessagesTillDateAllChats cutoff w = (Ok tt, w1) ->
  getAllLatestMessages include_me include_notifications w1 = (Ok raws, w2) ->
  exists out,
    get_all_messages_until_date date include_me include_notifications w =
      (Ok out, w2) /\
    Forall2 (fun raw (group : MessageGroup Chat Message) =>
               ascending timestamp (mg_messages group) /\
               same_arrival_order timestamp
                 (map factory_message
                    (List.filter (fun msg => cutoff <=? rm_timestamp msg)
                       (rg_messages raw)))
                 (mg_messages group))
      raws out.
Proof.
  intros cutoff Hload Hget. eexists. split.
  - eapply get_all_messages_until_date_run; eassumption.
  - apply sorting_paths_ordered.
Qed.

(** X2. With [filter_week] set, [get_unread] returns every group in
    non-decreasing timestamp order, messages of equal timestamp in the
    order of the bridge. *)
Lemma unread_week_groups_ordered (w w' : W)
    (include_me include_notifications : bool) (specific_chat : option string)
    (raws : list (RawGroup RawChat Payload)) :
  unread_fetch include_me include_notifications specific_chat w = (Ok raws, w') ->
  exists out,
    get_unread include_me include_notifications true specific_chat w =
      (Ok out, w') /\
    Forall2 (fun raw (group : MessageGroup Chat Message) =>
               ascending timestamp (mg_messages group) /\
               same_arrival_order timestamp
                 (map factory_message
                    (List.filter
                       (fun msg => seven_days_ago (now_us w) <=? rm_timestamp msg)
                       (rg_messages raw)))
                 (mg_messages group))
      raws out.
Proof.
  intros Hfetch. eexists. split.
  - apply get_unread_run. exact Hfetch.
  - apply sorting_paths_ordered.
Qed.

(** C2. [get_all_messages_until_date] works with the cutoff
    [max(date, seven_days_ago)], or [seven_days_ago] when no date is
    given.  On a platform whose zone kept one offset from UTC over the
    last nine days, and on a clock from a week after 1970 to the year
    2242, [seven_days_ago] is the whole seconds of the clock less
    604800: history is loaded back to [max(date, now - 604800)], every
    group holds exactly the classified messages whose raw timestamp is
    at least that, and a date at or before [now - 604800], such as
    thirty days ago, gives the messages of the last 604800 seconds. *)
Theorem until_date_window (w w1 w2 : W) (date : option Z)
    (include_me include_notifications : bool)
    (raws : list (RawGroup RawChat Payload)) (offset : Z) :
  let seconds := now_us w / 1000000 in
  let week := seconds - 604800 in
  let cutoff := match date with
                | None => week
                | Some requested => Z.max requested week
                end in
  - 86400 <= offset <= 86400 ->
  steady_offset offset (seconds - 9 * 86400) seconds ->
  0 <= week < 2 ^ 33 ->
  loadEarlierMessagesTillDateAllChats cutoff w = (Ok tt, w1) ->
  getAllLatestMessages include_me include_notifications w1 = (Ok raws, w2) ->
  exists out,
    get_all_messages_until_date date include_me include_notifications w =
      (Ok out, w2) /\
    Forall2 (fun raw group =>
               mg_chat group = factory_chat raw /\
               Permutation (mg_messages group)
                 (map factory_message
                    (List.filter (fun msg => cutoff <=? rm_timestamp msg)
                       (rg_messages raw))))
      raws out /\
    (forall requested,
        date = Some requested -> requested <= week -> cutoff = week).
Proof.
  intros seconds week cutoff Hoffset Hsteady Hrange Hload Hget.
  pose proof (seven_days_ago_plain (now_us w) offset Hoffset Hsteady Hrange)
    as Hweek.
  fold seconds in Hweek. fold week in Hweek.
  assert (Hcutoff : effective_date date (seven_days_ago (now_us w)) = cutoff)
    by (rewrite Hweek; reflexivity).
  eexists. split; [|split].
  - apply (get_all_messages_until_date_run w w1 w2 date);
      [rewrite Hcutoff|]; eassumption.
  - rewrite Hcutoff.
    clear Hget. induction raws as [|raw raws IH]; cbn [map]; constructor.
    + split; [reflexivity|]. apply recent_sorted_perm.
    + exact IH.
  - intros requested -> Hle. subst cutoff. cbn. lia.
Qed.

(** C7. Both entry points emit one group per raw group, for the chat of
    that raw group and in the order of the bridge; a group whose messages
    all fall before the cutoff is emitted with no messages. *)
Theorem every_chat_is_emitted (w : W) :
  (forall include_me include_notifications filter_week specific_chat raws w',
      unread_fetch include_me include_notifications specific_chat w =
        (Ok raws, w') ->
      exists out,
        get_unread include_me include_notifications filter_week
          specific_chat w = (Ok out, w') /\
        Forall2 (fun raw group =>
                   mg_chat group = factory_chat raw /\
                   (filter_week = true ->
                    Forall (fun msg =>
                              rm_timestamp msg < seven_days_ago (now_us w))
                      (rg_messages raw) ->
                    mg_messages group = []))
          raws out) /\
  (forall date include_me include_notifications raws w1 w2,
      let cutoff := effective_date date (seven_days_ago (now_us w)) in
      loadEarlierMessagesTillDateAllChats cutoff w = (Ok tt, w1) ->
      getAllLatestMessages include_me include_notifications w1 =
        (Ok raws, w2) ->
      exists out,
        get_all_messages_until_date date include_me include_notifications w =
          (Ok out, w2) /\
        Forall2 (fun raw group =>
                   mg_chat group = factory_chat raw /\
                   (Forall (fun msg => rm_timestamp msg < cutoff)
                      (rg_messages raw) ->
                    mg_messages group = []))
          raws out).
Proof.
  split.
  - intros im inn fw sc raws w' Hfetch.
    eexists. split; [apply get_unread_run; exact Hfetch|].
    clear Hfetch. induction raws as [|raw raws IH]; cbn [map]; constructor.
    + split; [reflexivity|]. intros -> Hold. cbn.
      now apply recent_sorted_nothing.
    + exact IH.
  - intros date im inn raws w1 w2 cutoff Hload Hget.
    eexists. split; [eapply get_all_messages_until_date_run; eassumption|].
    clear Hget. induction raws as [|raw raws IH]; cbn [map]; constructor.
    + split; [reflexivity|]. intros Hold. cbn.
      now apply recent_sorted_nothing.
    + exact IH.
Qed.
End SyncFacts.

(** *** The entry points on the small page *)

(** Thirty days back is clamped to a week: the stale message of the first
    chat and the only message of the second are left out. *)
Lemma until_date_window_witness :
  let week := toy_now - 604800 in
  let cutoff := Z.max (toy_now - 30 * 86400) week in
  exists out,
    get_all_messages_until_date (Some (toy_now - 30 * 86400)) true false
      toy_page_late = (Ok out, toy_page_late) /\
    Forall2 (fun raw group =>
               mg_chat group = factory_chat raw /\
               Permutation (mg_messages group)
                 (map factory_message
                    (List.filter (fun msg => cutoff <=? rm_timestamp msg)
                       (rg_messages raw))))
      (toy_loaded toy_page_late) out /\
    (forall requested,
        Some (toy_now - 30 * 86400) = Some requested ->
        requested <= week -> cutoff = week).
Proof.
  refine (until_date_window toy_page_late toy_page_late toy_page_late
            (Some (toy_now - 30 * 86400)) true false
            (toy_loaded toy_page_late) 0 _ _ _ eq_refl eq_refl).
  - lia.
  - intros u _. cbn. lia.
  - split; [apply Z.leb_le | apply Z.ltb_lt]; vm_compute; reflexivity.
Defined.

(** After the clocks went back the window is an hour longer than seven
    days: thirty days back returns a message that is seven days and
    half an hour old. *)
Lemma until_date_across_a_clock_change :
  let now := 1730826000 in
  @get_all_messages_until_date _ _ _ _ _ new_york_2024 toy_bridge
    toy_classifier (Some (now - 30 * 86400)) true false toy_page_new_york =
  (Ok [ mkMessageGroup "alice@c.us"
          [ mkRawMessage (now - 606600) "a week and half an hour old";
            mkRawMessage (now - 100) "late" ] ],
   toy_page_new_york) /\
  now - 606600 < now - 7 * 86400.
Proof. split; [vm_compute; reflexivity | lia]. Qed.

Example until_date_thirty_days_back :
  get_all_messages_until_date (Some (toy_now - 30 * 86400)) true false toy_page =
  (Ok [ mkMessageGroup "alice@c.us"
          [ mkRawMessage (toy_now - 300) "early";
            mkRawMessage (toy_now - 100) "late" ];
        mkMessageGroup "bob@c.us" [] ],
   toy_page).
Proof. reflexivity. Qed.

(** The second chat has nothing from the last week and is still there. *)
Lemma every_chat_is_emitted_witness :
  (exists out,
      get_unread false false true None toy_page = (Ok out, toy_page) /\
      Forall2 (fun raw group =>
                 mg_chat group = factory_chat raw /\
                 (true = true ->
                  Forall (fun msg =>
                            rm_timestamp msg < seven_days_ago (now_us toy_page))
                    (rg_messages raw) ->
                  mg_messages group = []))
        (toy_loaded toy_page) out) /\
  (exists out,
      get_all_messages_until_date None true false toy_page =
        (Ok out, toy_page) /\
      Forall2 (fun raw group =>
                 mg_chat group = factory_chat raw /\
                 (Forall (fun msg =>
                            rm_timestamp msg <
                            effective_date None
                              (seven_days_ago (now_us toy_page)))
                    (rg_messages raw) ->
                  mg_messages group = []))
        (toy_loaded toy_page) out).
Proof.
  split.
  - exact (proj1 (every_chat_is_emitted toy_page)
             false false true None (toy_loaded toy_page) toy_page eq_refl).
  - exact (proj2 (every_chat_is_emitted toy_page)
             None true false (toy_loaded toy_page) toy_page toy_page
             eq_refl eq_refl).
Defined.

(** C3, at the input where it fails.  With [filter_week=False] the
    messages of a group are returned as the bridge listed them: here the
    later message of the first chat comes before the earlier one.  On
    the same page the call with [filter_week=True] returns them sorted. *)
Theorem unread_without_filter_is_unsorted :
  get_unread false false false None toy_page =
  (Ok [ mkMessageGroup "alice@c.us"
          [ mkRawMessage (toy_now - 100) "late";
            mkRawMessage (toy_now - 300) "early";
            mkRawMessage (toy_now - 20 * 86400) "stale" ];
        mkMessageGroup "bob@c.us"
          [ mkRawMessage (toy_now - 10 * 86400) "old" ] ],
   toy_page) /\
  ~ ascending timestamp
      [ mkRawMessage (toy_now - 100) "late";
        mkRawMessage (toy_now - 300) "early";
        mkRawMessage (toy_now - 20 * 86400) "stale" ] /\
  get_unread false false true None toy_page =
  (Ok [ mkMessageGroup "alice@c.us"
          [ mkRawMessage (toy_now - 300) "early";
            mkRawMessage (toy_now - 100) "late" ];
        mkMessageGroup "bob@c.us" [] ],
   toy_page).
Proof.
  split; [reflexivity|]. split; [|reflexivity].
  intros Hsorted. inversion Hsorted as [|? ? _ Hhd]; subst.
  inversion Hhd as [|? ? Hle]; subst. cbn in Hle. unfold toy_now in Hle. lia.
Qed.

(** ** Session *)

Section SessionFacts.
Context {W E : Type} {desktop : Desktop W E}.

Lemma marker_probe_run (selector : string) (status : WhatsAPIDriverStatus)
    (w : W) :
  marker_probe selector status w =
  match find_element_by_css_selector selector w with
  | (Ok _, w') => (Ok (Some status), w')
  | (Raise NoSuchElementException, w') => (Ok None, w')
  | (Raise e, w') => (Raise e, w')
  end.
Proof.
  unfold marker_probe, try_except, bind, ret.
  destruct (find_element_by_css_selector selector w) as [[element|e] w'];
    [reflexivity|].
  destruct e; reflexivity.
Qed.

Lemma get_status_run (w : W) :
  get_status w =
  if driver_is_None w then (Ok NotConnected, w)
  else if session_id_is_None w then (Ok NotConnected, w)
  else match find_element_by_css_selector selector_mainPage w with
       | (Ok _, w1) => (Ok LoggedIn, w1)
       | (Raise NoSuchElementException, w1) =>
           match find_element_by_css_selector selector_qrCode w1 with
           | (Ok _, w2) => (Ok NotLoggedIn, w2)
           | (Raise NoSuchElementException, w2) => (Ok Unknown, w2)
           | (Raise e, w2) => (Raise e, w2)
           end
       | (Raise e, w1) => (Raise e, w1)
       end.
Proof.
  unfold get_status.
  destruct (driver_is_None w); [reflexivity|].
  destruct (session_id_is_None w); [reflexivity|].
  unfold bind at 1. rewrite marker_probe_run.
  destruct (find_element_by_css_selector selector_mainPage w)
    as [[element|e] w1]; [reflexivity|].
  destruct e; try reflexivity.
  unfold bind. rewrite marker_probe_run.
  destruct (find_element_by_css_selector selector_qrCode w1)
    as [[element|e] w2]; [reflexivity|].
  destruct e; reflexivity.
Qed.

(** C5, as the code has it.  [get_status] answers [NotConnected] without
    a driver or a session id, [LoggedIn] when the main-page marker is
    found, [NotLoggedIn] when that lookup raises
    [NoSuchElementException] and the QR marker is found, [Unknown] when
    both lookups raise [NoSuchElementException]; any other exception of a
    lookup is raised to the caller. *)
Theorem get_status_by_markers (w : W) :
  (driver_is_None w = true \/ session_id_is_None w = true ->
   get_status w = (Ok NotConnected, w)) /\
  (driver_is_None w = false -> session_id_is_None w = false ->
   forall at_main w1,
     find_element_by_css_selector selector_mainPage w = (at_main, w1) ->
     match at_main with
     | Ok _ => get_status w = (Ok LoggedIn, w1)
     | Raise NoSuchElementException =>
         forall at_qr w2,
           find_element_by_css_selector selector_qrCode w1 = (at_qr, w2) ->
           match at_qr with
           | Ok _ => get_status w = (Ok NotLoggedIn, w2)
           | Raise NoSuchElementException => get_status w = (Ok Unknown, w2)
           | Raise e => get_status w = (Raise e, w2)
           end
     | Raise e => get_status w = (Raise e, w1)
     end).
Proof.
  split.
  - rewrite get_status_run. intros [Hnone|Hnone]; rewrite Hnone; [reflexivity|].
    destruct (driver_is_None w); reflexivity.
  - intros Hdriver Hsession at_main w1 Hmain.
    destruct at_main as [element|e].
    { rewrite get_status_run, Hdriver, Hsession, Hmain. reflexivity. }
    destruct e;
      try (rewrite get_status_run, Hdriver, Hsession, Hmain; reflexivity).
    intros at_qr w2 Hqr.
    destruct at_qr as [element|e];
      [|destruct e];
      rewrite get_status_run, Hdriver, Hsession, Hmain, Hqr; reflexivity.
Qed.

(** C9, as the code has it.  Neither QR operation looks at the login
    state: when the lookup of the QR image raises, as it does once the
    image has left the page, [reload_qr] and [get_qr] raise that same
    exception and nothing is clicked, opened or written. *)
Theorem qr_operations_need_the_image (w w0 w1 : W) (filename : option string)
    (source : string) (e : exn) :
  page_source w = (Ok source, w0) ->
  find_element_by_css_selector selector_qrCode w0 = (Raise e, w1) ->
  get_qr filename w = (Raise e, w1) /\ reload_qr w0 = (Raise e, w1).
Proof.
  intros Hsource Hfind.
  assert (Hreload : reload_qr w0 = (Raise e, w1)).
  { unfold reload_qr, bind. rewrite Hfind. reflexivity. }
  split; [|exact Hreload].
  unfold get_qr. unfold bind at 1. rewrite Hsource.
  unfold bind at 1.
  destruct (contains "Click to reload QR code" source).
  - rewrite Hreload. reflexivity.
  - unfold ret at 1. unfold bind at 1. rewrite Hfind. reflexivity.
Qed.
End SessionFacts.

Lemma get_status_by_markers_witness :
  get_status toy_showing_qr = (Ok NotLoggedIn, toy_showing_qr).
Proof.
  exact (proj2 (get_status_by_markers toy_showing_qr) eq_refl eq_refl
           _ _ eq_refl _ _ eq_refl).
Defined.

Example get_status_logged_in :
  get_status toy_logged_in = (Ok LoggedIn, toy_logged_in).
Proof. reflexivity. Qed.

(** C5 fails where a marker lookup raises something other than
    [NoSuchElementException]: the status probe raises it too. *)
Lemma get_status_raises_driver_errors :
  get_status toy_window_closed =
    (Raise (WebDriverException "no such window"), toy_window_closed) /\
  ~ (forall w : ToyBrowser, exists status w', get_status w = (Ok status, w')).
Proof.
  split; [reflexivity|].
  intros Hnever. destruct (Hnever toy_window_closed) as (status & w' & Hrun).
  discriminate Hrun.
Qed.

Lemma qr_operations_need_the_image_witness :
  get_qr None toy_logged_in = (Raise NoSuchElementException, toy_logged_in) /\
  reload_qr toy_logged_in = (Raise NoSuchElementException, toy_logged_in).
Proof.
  exact (qr_operations_need_the_image toy_logged_in toy_logged_in toy_logged_in
           None (tb_source toy_logged_in) NoSuchElementException
           eq_refl eq_refl).
Defined.

(** C9 fails after login: the QR image is gone, and both operations raise
    instead of returning. *)
Lemma qr_operations_raise_after_login :
  get_status toy_logged_in = (Ok LoggedIn, toy_logged_in) /\
  ~ (exists path w', get_qr None toy_logged_in = (Ok path, w')) /\
  ~ (exists w', reload_qr toy_logged_in = (Ok tt, w')).
Proof.
  split; [reflexivity|]. split.
  - intros (path & w' & Hrun). discriminate Hrun.
  - intros (w' & Hrun). discriminate Hrun.
Qed.

Example get_qr_before_login :
  get_qr (Some "qr.png") toy_showing_qr =
  (Ok "/home/api/qr.png",
   mkToyBrowser true (Some "7f3a") (tb_source toy_showing_qr)
     (Raise NoSuchElementException) (Ok QrImage) 0 ["/home/api/qr.png"]).
Proof. reflexivity. Qed.

(** ** Lookups by id *)

Section LookupFacts.
Context {W RawChat Payload RawContact Chat Message Contact : Type}.
Context {lookups : LookupBridge W RawChat Payload RawContact}.
Context {classifier : Classifier RawChat Payload Chat Message}.
Context (new_Contact : RawContact -> Contact).

(** C10. A falsy answer of the bridge to a message lookup is returned as
    it is, [None] as [None] and [False] as [False], without an exception;
    a falsy answer to a chat lookup raises [ChatNotFoundError] and a
    [None] answer to a contact lookup raises [ContactNotFoundError]. *)
Theorem unknown_id_lookups (w w' : W) (id : string) :
  (forall answer,
      getMessageById id w = (Ok answer, w') -> truthy answer = false ->
      exists returned,
        get_message_by_id id w = (Ok returned, w') /\
        truthy returned = false /\
        (answer = PyNone <-> returned = PyNone) /\
        (answer = PyFalse <-> returned = PyFalse)) /\
  (forall answer,
      getChatById id w = (Ok answer, w') -> truthy answer = false ->
      get_chat_from_id id w =
        (Raise (ChatNotFoundError ("Chat " +:+ id +:+ " not found")), w')) /\
  (getContact id w = (Ok None, w') ->
   get_contact_from_id new_Contact id w =
     (Raise (ContactNotFoundError ("Contact " +:+ id +:+ " not found")), w')).
Proof.
  split; [|split].
  - intros answer Hanswer Hfalsy.
    unfold get_message_by_id, bind, ret. rewrite Hanswer.
    destruct answer as [| |raw]; [| |discriminate Hfalsy];
      eexists; (split; [reflexivity|]); repeat split;
      intros; try reflexivity; try discriminate.
  - intros answer Hanswer Hfalsy.
    unfold get_chat_from_id, bind, throw. rewrite Hanswer.
    destruct answer as [| |raw]; [reflexivity|reflexivity|discriminate Hfalsy].
  - intros Hanswer.
    unfold get_contact_from_id, bind, throw. rewrite Hanswer. reflexivity.
Qed.
End LookupFacts.

Lemma unknown_id_lookups_witness :
  (exists returned : bridge_value (RawMessage string),
      get_message_by_id "nobody@c.us" tt = (Ok returned, tt) /\
      truthy returned = false /\
      (@PyFalse (RawMessage string) = PyNone <-> returned = PyNone) /\
      (@PyFalse (RawMessage string) = PyFalse <-> returned = PyFalse)) /\
  get_chat_from_id "nobody@c.us" tt =
    (Raise (ChatNotFoundError "Chat nobody@c.us not found"), tt) /\
  get_contact_from_id (fun name : string => name) "nobody@c.us" tt =
    (Raise (ContactNotFoundError "Contact nobody@c.us not found"), tt).
Proof.
  pose proof (unknown_id_lookups (fun name : string => name) tt tt
                "nobody@c.us") as (Hmessage & Hchat & Hcontact).
  split; [|split].
  - exact (Hmessage PyFalse eq_refl eq_refl).
  - exact (Hchat PyFalse eq_refl eq_refl).
  - exact (Hcontact eq_refl).
Defined.

Example get_message_by_id_unknown :
  get_message_by_id "nobody@c.us" tt =
  (Ok (PyFalse : bridge_value (RawMessage string)), tt).
Proof. reflexivity. Qed.

(** ** Media *)

Lemma xor_bytes_length (a b : bytes) :
  length (xor_bytes a b) = Nat.min (length a) (length b).
Proof.
  revert b. induction a as [|x a IH]; intros [|y b]; cbn; try reflexivity.
  now rewrite IH.
Qed.

Lemma xor_bytes_involutive (a b : bytes) :
  (length a <= length b)%nat -> xor_bytes (xor_bytes a b) b = a.
Proof.
  revert b. induction a as [|x a IH]; intros [|y b] Hlen; cbn in *;
    try reflexivity; try lia.
  rewrite IH by lia. f_equal.
  rewrite Z.lxor_assoc, Z.lxor_nilpotent. apply Z.lxor_0_r.
Qed.

Lemma firstn_app_exact {A : Type} (n : nat) (front back : list A) :
  length front = n -> firstn n (front ++ back) = front.
Proof.
  intros <-. induction front as [|x front IH]; cbn; [|now rewrite IH].
  destruct back; reflexivity.
Qed.

Lemma skipn_app_exact {A : Type} (n : nat) (front back : list A) :
  length front = n -> skipn n (front ++ back) = back.
Proof. intros <-. induction front as [|x front IH]; cbn; [reflexivity|exact IH]. Qed.

Lemma slice_until_strips_tag {A : Type} (body tag : list A) :
  length tag = 10%nat -> slice_until (-10) (body ++ tag) = body.
Proof.
  intros Htag. unfold slice_until. cbn [Z.ltb Z.compare].
  rewrite length_app, Htag.
  apply firstn_app_exact. lia.
Qed.

Lemma slice_until_short {A : Type} (data : list A) :
  (length data <= 10)%nat -> slice_until (-10) data = [].
Proof.
  intros Hshort. unfold slice_until. cbn [Z.ltb Z.compare].
  replace (Z.to_nat (Z.max (-10 + Z.of_nat (length data)) 0)) with 0%nat by lia.
  reflexivity.
Qed.

Lemma slice_until_length {A : Type} (data : list A) :
  length (slice_until (-10) data) = (length data - 10)%nat.
Proof.
  unfold slice_until. cbn [Z.ltb Z.compare].
  rewrite length_firstn. lia.
Qed.

Section CbcFacts.
Context {codecs : Codecs}.
Context (encrypt_block : bytes -> bytes -> bytes) (key : bytes).
Context (Hcipher : block_cipher_pair encrypt_block aes_decrypt_block key).

Lemma cbc_encrypt_length (blocks : nat) (previous data : bytes) :
  length previous = 16%nat -> length data = (16 * blocks)%nat ->
  length (cbc_encrypt encrypt_block key blocks previous data) = (16 * blocks)%nat.
Proof using Hcipher.
  revert previous data.
  induction blocks as [|blocks IH]; intros previous data Hprev Hdata;
    [reflexivity|].
  cbn [cbc_encrypt].
  assert (Hblock : length (xor_bytes (firstn 16 data) previous) = 16%nat).
  { rewrite xor_bytes_length, length_firstn. lia. }
  destruct (Hcipher _ Hblock) as [Hlen _].
  rewrite length_app, Hlen, IH; [lia|exact Hlen|].
  rewrite length_skipn. lia.
Qed.

Lemma cbc_decrypt_encrypt (blocks : nat) (previous data : bytes) :
  length previous = 16%nat -> length data = (16 * blocks)%nat ->
  cbc_decrypt key blocks previous
    (cbc_encrypt encrypt_block key blocks previous data) = data.
Proof using Hcipher.
  revert previous data.
  induction blocks as [|blocks IH]; intros previous data Hprev Hdata.
  - destruct data; [reflexivity|discriminate Hdata].
  - cbn [cbc_encrypt cbc_decrypt].
    assert (Hblock : length (xor_bytes (firstn 16 data) previous) = 16%nat).
    { rewrite xor_bytes_length, length_firstn. lia. }
    destruct (Hcipher _ Hblock) as [Hlen Hinv].
    set (block := encrypt_block key (xor_bytes (firstn 16 data) previous)) in *.
    rewrite (firstn_app_exact 16 block) by exact Hlen.
    rewrite (skipn_app_exact 16 block) by exact Hlen.
    rewrite Hinv.
    rewrite xor_bytes_involutive by (rewrite length_firstn; lia).
    rewrite IH; [apply firstn_skipn|exact Hlen|].
    rewrite length_skipn. lia.
Qed.
End CbcFacts.

Lemma cbc_decrypt_length {codecs : Codecs} (key : bytes) (blocks : nat)
    (previous data : bytes) :
  (forall block, length block = 16%nat ->
                 length (aes_decrypt_block key block) = 16%nat) ->
  length previous = 16%nat -> (16 * blocks <= length data)%nat ->
  length (cbc_decrypt key blocks previous data) = (16 * blocks)%nat.
Proof.
  intros Hblock. revert previous data.
  induction blocks as [|blocks IH]; intros previous data Hprev Hdata;
    [reflexivity|].
  cbn [cbc_decrypt].
  assert (Hfirst : length (firstn 16 data) = 16%nat)
    by (rewrite length_firstn; lia).
  rewrite length_app, xor_bytes_length, (Hblock _ Hfirst), Hprev.
  rewrite IH; [lia|exact Hfirst|]. rewrite length_skipn. lia.
Qed.

Section MediaFacts.
Context {W : Type} {media_bridge : MediaBridge W} {codecs : Codecs}.

Lemma preview_not_requested (media_msg : MediaMessage) (w : W) :
  preview media_msg false w = (Ok None, w).
Proof.
  unfold preview, try_except, bind, lift, ret.
  destruct (content media_msg) as [c|]; [|reflexivity].
  rewrite andb_false_r. reflexivity.
Qed.

(** The full download, once the blob has arrived and the key fields
    decode: the cipher is built from bytes 16..47 and 0..15 of the
    derived secret and run over the blob without its last ten bytes. *)
Lemma download_media_run (w w' : W) (media_msg : MediaMessage)
    (encoded hex : string) (key_material info blob : bytes) :
  let derivative := deriveSecrets key_material info 112 in
  length derivative = 112%nat ->
  downloadFile (client_url media_msg) w = (Ok encoded, w') ->
  b64decode encoded = Ok blob ->
  b64decode (media_key media_msg) = Ok key_material ->
  dict_get (type media_msg) (crypt_keys media_msg) = Ok hex ->
  unhexlify hex = Ok info ->
  download_media media_msg false w =
  (decryptor_update_finalize
     (firstn 32 (skipn 16 derivative), firstn 16 derivative)
     (slice_until (-10) blob), w').
Proof.
  intros derivative Hlen Hfile Hblob Hkey Hhex Hinfo.
  unfold download_media. unfold bind at 1. rewrite preview_not_requested.
  unfold download_file, bind, lift.
  rewrite Hfile, Hblob, Hkey, Hhex, Hinfo.
  fold derivative. cbn [part ByteUtil_split nth].
  unfold new_AES, new_Cipher_CBC.
  rewrite !length_firstn, length_skipn, Hlen. reflexivity.
Qed.

(** C1, as the code has it.  With the preview not requested,
    [download_media] derives 112 bytes from the decoded media key and the
    info constant of the message type, takes bytes 0..15 as IV and bytes
    16..47 as key, drops the last ten bytes of the blob and returns the
    CBC decryption of the rest, as it is: data of a whole number of
    blocks that was encrypted under that key and IV and followed by a
    ten-byte tag comes back exactly. *)
Theorem download_media_returns_encrypted_blocks
    (encrypt_block : bytes -> bytes -> bytes) (w w' : W)
    (media_msg : MediaMessage) (encoded hex : string)
    (key_material info aligned tag : bytes) :
  let derivative := deriveSecrets key_material info 112 in
  let iv := firstn 16 derivative in
  let cipher_key := firstn 32 (skipn 16 derivative) in
  length derivative = 112%nat ->
  block_cipher_pair encrypt_block aes_decrypt_block cipher_key ->
  b64decode (media_key media_msg) = Ok key_material ->
  dict_get (type media_msg) (crypt_keys media_msg) = Ok hex ->
  unhexlify hex = Ok info ->
  downloadFile (client_url media_msg) w = (Ok encoded, w') ->
  b64decode encoded =
    Ok (uploaded_blob encrypt_block cipher_key iv aligned tag) ->
  length tag = 10%nat ->
  (length aligned mod 16 = 0)%nat ->
  download_media media_msg false w = (Ok aligned, w').
Proof.
  intros derivative iv cipher_key Hlen Hcipher Hkey Hhex Hinfo Hfile Hblob
    Htag Haligned.
  rewrite (download_media_run w w' media_msg encoded hex key_material info _
             Hlen Hfile Hblob Hkey Hhex Hinfo).
  fold derivative. fold iv. fold cipher_key.
  unfold uploaded_blob. rewrite slice_until_strips_tag by exact Htag.
  assert (Hiv : length iv = 16%nat).
  { unfold iv. rewrite length_firstn. lia. }
  assert (Hwhole : length aligned = (16 * (length aligned / 16))%nat).
  { pose proof (Nat.div_mod_eq (length aligned) 16). lia. }
  unfold decryptor_update_finalize.
  rewrite (cbc_encrypt_length encrypt_block cipher_key Hcipher _ _ _ Hiv Hwhole).
  rewrite Nat.mul_comm, Nat.div_mul, Nat.Div0.mod_mul by lia.
  cbn [Nat.eqb].
  rewrite (cbc_decrypt_encrypt encrypt_block cipher_key Hcipher _ _ _ Hiv Hwhole).
  reflexivity.
Qed.

(** What comes back is always a whole number of blocks. *)
Lemma download_media_whole_blocks (w w' : W) (media_msg : MediaMessage)
    (plain : bytes) :
  (forall key block, length block = 16%nat ->
                     length (aes_decrypt_block key block) = 16%nat) ->
  download_media media_msg false w = (Ok plain, w') ->
  (length plain mod 16 = 0)%nat.
Proof.
  intros Hblock. unfold download_media. unfold bind at 1.
  rewrite preview_not_requested.
  unfold download_file, bind, lift.
  destruct (downloadFile (client_url media_msg) w) as [[encoded|e] w1];
    [|discriminate].
  destruct (b64decode encoded) as [blob|e]; [|discriminate].
  destruct (b64decode (media_key media_msg)) as [key_material|e];
    [|discriminate].
  destruct (dict_get (type media_msg) (crypt_keys media_msg)) as [hex|e];
    [|discriminate].
  destruct (unhexlify hex) as [info|e]; [|discriminate].
  destruct (new_AES _) as [algorithm|e]; [|discriminate].
  unfold new_Cipher_CBC.
  destruct (Nat.eqb_spec
              (length (part (ByteUtil_split
                               (deriveSecrets key_material info 112) 16 32) 0))
              16) as [Hiv|Hiv]; [|discriminate].
  unfold decryptor_update_finalize.
  pose proof (Nat.Div0.mul_div_le (length (slice_until (-10) blob)) 16)
    as Hfits.
  set (blocks := (length (slice_until (-10) blob) / 16)%nat) in *.
  destruct (Nat.eqb_spec (length (slice_until (-10) blob) mod 16) 0)
    as [Hwhole|Hragged]; [|discriminate].
  intros Hplain. injection Hplain as <- <-.
  rewrite cbc_decrypt_length by (try apply Hblock; assumption).
  rewrite Nat.mul_comm. apply Nat.Div0.mod_mul.
Qed.

(** C8, as the code has it.  Once the key fields decode, a blob of ten
    bytes or fewer gives the empty plaintext and no error, and a blob
    that leaves a ragged last block after the ten bytes are dropped makes
    the cipher raise [ValueError], which reaches the caller as it is. *)
Theorem download_media_short_or_ragged (w w' : W) (media_msg : MediaMessage)
    (encoded hex : string) (key_material info blob : bytes) :
  length (deriveSecrets key_material info 112) = 112%nat ->
  downloadFile (client_url media_msg) w = (Ok encoded, w') ->
  b64decode encoded = Ok blob ->
  b64decode (media_key media_msg) = Ok key_material ->
  dict_get (type media_msg) (crypt_keys media_msg) = Ok hex ->
  unhexlify hex = Ok info ->
  ((length blob <= 10)%nat ->
   download_media media_msg false w = (Ok [], w')) /\
  (((length blob - 10) mod 16 <> 0)%nat ->
   download_media media_msg false w =
   (Raise (ValueError
      "The length of the provided data is not a multiple of the block length."),
    w')).
Proof.
  intros Hlen Hfile Hblob Hkey Hhex Hinfo.
  rewrite (download_media_run w w' media_msg encoded hex key_material info _
             Hlen Hfile Hblob Hkey Hhex Hinfo).
  unfold decryptor_update_finalize. split.
  - intros Hshort. rewrite slice_until_short by exact Hshort. reflexivity.
  - intros Hragged. rewrite slice_until_length.
    destruct (Nat.eqb_spec ((length blob - 10) mod 16) 0) as [Hzero|_];
      [contradiction|reflexivity].
Qed.
End MediaFacts.

(** *** The download on the stand-ins *)

Lemma toy_block_pair : block_cipher_pair toy_block toy_block toy_cipher_key.
Proof.
  intros block Hlen. unfold toy_block.
  assert (Hkey : length (firstn 16 toy_cipher_key) = 16%nat) by reflexivity.
  split.
  - rewrite xor_bytes_length. lia.
  - apply xor_bytes_involutive. lia.
Qed.

Lemma download_media_returns_encrypted_blocks_witness :
  download_media toy_media_message false
    (toy_served (uploaded_blob toy_block toy_cipher_key toy_iv toy_sixteen toy_tag)) =
  (Ok toy_sixteen,
   toy_served (uploaded_blob toy_block toy_cipher_key toy_iv toy_sixteen toy_tag)).
Proof.
  exact (download_media_returns_encrypted_blocks toy_block
           (toy_served (uploaded_blob toy_block toy_cipher_key toy_iv
                          toy_sixteen toy_tag))
           _ toy_media_message _ "WhatsApp Image Keys"
           (codes (media_key toy_media_message)) (codes "WhatsApp Image Keys")
           toy_sixteen toy_tag
           eq_refl toy_block_pair eq_refl eq_refl eq_refl eq_refl eq_refl
           eq_refl eq_refl).
Defined.

(** C1 fails for a plaintext that is not a whole number of blocks.  The
    sender pads the two bytes of ["Hi"] to a block before encrypting;
    what comes back is the padded block, fourteen bytes longer than the
    plaintext. *)
Lemma download_media_keeps_the_padding :
  let plain := codes "Hi" in
  let blob := uploaded_blob toy_block toy_cipher_key toy_iv
                (pkcs7_pad plain) toy_tag in
  download_media toy_media_message false (toy_served blob) =
    (Ok (plain ++ repeat 14 14%nat), toy_served blob) /\
  download_media toy_media_message false (toy_served blob) <>
    (Ok plain, toy_served blob).
Proof.
  intros plain blob.
  assert (Hrun : download_media toy_media_message false (toy_served blob) =
                 (Ok (plain ++ repeat 14 14%nat), toy_served blob))
    by reflexivity.
  split; [exact Hrun|].
  rewrite Hrun. intros Hsame. discriminate Hsame.
Qed.

Lemma download_media_short_or_ragged_witness :
  download_media toy_media_message false (toy_served [1; 2; 3; 4; 5]) =
    (Ok [], toy_served [1; 2; 3; 4; 5]) /\
  download_media toy_media_message false (toy_served (toy_sixteen ++ toy_sixteen)) =
    (Raise (ValueError
       "The length of the provided data is not a multiple of the block length."),
     toy_served (toy_sixteen ++ toy_sixteen)).
Proof.
  split.
  - exact (proj1 (download_media_short_or_ragged
                    (toy_served [1; 2; 3; 4; 5]) _ toy_media_message _
                    "WhatsApp Image Keys"
                    (codes (media_key toy_media_message))
                    (codes "WhatsApp Image Keys") [1; 2; 3; 4; 5]
                    eq_refl eq_refl eq_refl eq_refl eq_refl eq_refl)
             ltac:(cbn; lia)).
  - exact (proj2 (download_media_short_or_ragged
                    (toy_served (toy_sixteen ++ toy_sixteen)) _
                    toy_media_message _ "WhatsApp Image Keys"
                    (codes (media_key toy_media_message))
                    (codes "WhatsApp Image Keys") (toy_sixteen ++ toy_sixteen)
                    eq_refl eq_refl eq_refl eq_refl eq_refl eq_refl)
             ltac:(cbn; lia)).
Defined.

(** C8 fails on a truncated blob: five bytes decrypt to the empty
    plaintext, and no exception is raised. *)
Lemma download_media_accepts_truncated_blob :
  download_media toy_media_message false (toy_served [1; 2; 3; 4; 5]) =
    (Ok [], toy_served [1; 2; 3; 4; 5]) /\
  ~ (exists e w',
        download_media toy_media_message false (toy_served [1; 2; 3; 4; 5]) =
        (Raise e, w')).
Proof.
  split; [reflexivity|].
  intros (e & w' & Hraise). discriminate Hraise.
Qed.

(** ** Profile persistence *)

Lemma entry_set_entry_same (item : string) (new : node)
    (entries : list (string * node)) :
  entry item (set_entry item new entries) = Some new.
Proof.
  induction entries as [|[n child] rest IH]; cbn.
  - now rewrite String.eqb_refl.
  - destruct (String.eqb_spec n item) as [->|Hne]; cbn.
    + now rewrite String.eqb_refl.
    + destruct (String.eqb_spec n item); [contradiction|exact IH].
Qed.

Lemma entry_set_entry_other (item other : string) (new : node)
    (entries : list (string * node)) :
  other <> item ->
  entry other (set_entry item new entries) = entry other entries.
Proof.
  intros Hne. induction entries as [|[n child] rest IH]; cbn.
  - destruct (String.eqb_spec item other); [congruence|reflexivity].
  - destruct (String.eqb_spec n item) as [->|Hn]; cbn.
    + destruct (String.eqb_spec item other); [congruence|reflexivity].
    + destruct (String.eqb_spec n other); [reflexivity|exact IH].
Qed.

Lemma entry_del_entry_other (item other : string)
    (entries : list (string * node)) :
  other <> item ->
  entry other (del_entry item entries) = entry other entries.
Proof.
  intros Hne. induction entries as [|[n child] rest IH]; cbn; [reflexivity|].
  destruct (String.eqb_spec n item) as [->|Hn]; cbn.
  - destruct (String.eqb_spec item other); [congruence|reflexivity].
  - destruct (String.eqb_spec n other); [reflexivity|exact IH].
Qed.

Lemma node_at_empty_dir (p : list string) (item : string) :
  node_at (p ++ [item]) (Dir []) = None.
Proof. destruct p; reflexivity. Qed.

(** What was put at a place is found there. *)
Lemma node_at_put_at (create : bool) (p : list string) (new root root' : node) :
  put_at create p new root = Ok root' -> node_at p root' = Some new.
Proof.
  revert root root'.
  induction p as [|c p IH]; intros root root' Hput; cbn in Hput.
  - now injection Hput as <-.
  - destruct root as [data|entries]; [discriminate|].
    destruct p as [|c' p].
    + injection Hput as <-. cbn. now rewrite entry_set_entry_same.
    + destruct (entry c entries) as [child|].
      * destruct (put_at create (c' :: p) new child) as [child'|e] eqn:Hchild;
          [|discriminate].
        injection Hput as <-. cbn [node_at]. rewrite entry_set_entry_same.
        exact (IH _ _ Hchild).
      * destruct create; [|discriminate].
        destruct (put_at true (c' :: p) new (Dir [])) as [child'|e] eqn:Hchild;
          [|discriminate].
        injection Hput as <-. cbn [node_at]. rewrite entry_set_entry_same.
        exact (IH _ _ Hchild).
Qed.

(** Putting something at a place leaves its siblings alone. *)
Lemma node_at_put_at_sibling (create : bool) (dir : list string)
    (item other : string) (new root root' : node) :
  other <> item ->
  put_at create (dir ++ [item]) new root = Ok root' ->
  node_at (dir ++ [other]) root' = node_at (dir ++ [other]) root.
Proof.
  intros Hne. revert root root'.
  induction dir as [|c dir IH]; intros root root' Hput.
  - cbn in Hput. destruct root as [data|entries]; [discriminate|].
    injection Hput as <-. cbn. now rewrite entry_set_entry_other.
  - change ((c :: dir) ++ [item]) with (c :: (dir ++ [item])) in Hput.
    change ((c :: dir) ++ [other]) with (c :: (dir ++ [other])).
    cbn [put_at] in Hput.
    destruct root as [data|entries]; [discriminate|].
    destruct (dir ++ [item]) as [|c' rest] eqn:Hrest.
    { destruct dir; discriminate Hrest. }
    cbn [node_at].
    destruct (entry c entries) as [child|].
    + destruct (put_at create (c' :: rest) new child) as [child'|e] eqn:Hchild;
        [|discriminate].
      injection Hput as <-. rewrite entry_set_entry_same.
      exact (IH _ _ Hchild).
    + destruct create; [|discriminate].
      destruct (put_at true (c' :: rest) new (Dir [])) as [child'|e] eqn:Hchild;
        [|discriminate].
      injection Hput as <-. rewrite entry_set_entry_same.
      rewrite (IH _ _ Hchild).
      apply node_at_empty_dir.
Qed.

(** Removing a place leaves its siblings alone. *)
Lemma node_at_remove_at_sibling (dir : list string) (item other : string)
    (root : node) :
  other <> item ->
  node_at (dir ++ [other]) (remove_at (dir ++ [item]) root) =
  node_at (dir ++ [other]) root.
Proof.
  intros Hne. revert root.
  induction dir as [|c dir IH]; intros root.
  - cbn. destruct root as [data|entries]; [reflexivity|].
    now rewrite entry_del_entry_other.
  - change ((c :: dir) ++ [item]) with (c :: (dir ++ [item])).
    change ((c :: dir) ++ [other]) with (c :: (dir ++ [other])).
    cbn [remove_at].
    destruct root as [data|entries]; [reflexivity|].
    destruct (dir ++ [item]) as [|c' rest] eqn:Hrest.
    { destruct dir; discriminate Hrest. }
    cbn [node_at].
    destruct (entry c entries) as [child|] eqn:Hentry.
    + rewrite entry_set_entry_same. apply IH.
    + cbn [node_at]. now rewrite Hentry.
Qed.

(** A place that holds a new file sits in a directory that is not empty. *)
Lemma put_at_fills_directory (dir : list string) (item : string)
    (new root root' : node) :
  put_at false (dir ++ [item]) new root = Ok root' ->
  exists entries,
    node_at dir root' = Some (Dir entries) /\ entry item entries = Some new.
Proof.
  revert root root'.
  induction dir as [|c dir IH]; intros root root' Hput.
  - cbn in Hput. destruct root as [data|entries]; [discriminate|].
    injection Hput as <-. eexists. split; [reflexivity|].
    apply entry_set_entry_same.
  - change ((c :: dir) ++ [item]) with (c :: (dir ++ [item])) in Hput.
    cbn [put_at] in Hput.
    destruct root as [data|entries]; [discriminate|].
    destruct (dir ++ [item]) as [|c' rest] eqn:Hrest.
    { destruct dir; discriminate Hrest. }
    destruct (entry c entries) as [child|]; [|discriminate].
    destruct (put_at false (c' :: rest) new child) as [child'|e] eqn:Hchild;
      [|discriminate].
    injection Hput as <-. cbn [node_at]. rewrite entry_set_entry_same.
    exact (IH _ _ Hchild).
Qed.

Lemma string_length_append (front back : string) :
  String.length (front +:+ back) =
  (String.length front + String.length back)%nat.
Proof.
  induction front as [|c front IH]; [reflexivity|].
  change (S (String.length (front +:+ back)) =
          S (String.length front + String.length back)).
  now rewrite IH.
Qed.

Lemma tmp_name_differs (item : string) : item <> item +:+ "__tmp".
Proof.
  intros Heq. apply (f_equal String.length) in Heq.
  rewrite string_length_append in Heq. cbn in Heq. lia.
Qed.

Lemma bind_ok {W A B : Type} (c : call W A) (k : A -> call W B)
    (w w' : W) (b : B) :
  bind c k w = (Ok b, w') ->
  exists a w1, c w = (Ok a, w1) /\ k a w1 = (Ok b, w').
Proof.
  unfold bind. destruct (c w) as [[a|e] w1]; [|discriminate].
  intros Hk. now exists a, w1.
Qed.

(** A copy that succeeds puts the source directory, without its lock
    files, at the destination and touches nothing beside it. *)
Lemma shutil_copytree_ok (src dst : place) (m m1 : Machine) :
  shutil_copytree src dst m = (Ok tt, m1) ->
  exists entries,
    node_at (components src) (files m) = Some (Dir entries) /\
    node_at (components dst) (files m1) = Some (without_locks (Dir entries)) /\
    storage_dump m1 = storage_dump m /\
    forall other, other <> name dst ->
      node_at (parent dst ++ [other]) (files m1) =
      node_at (parent dst ++ [other]) (files m).
Proof.
  unfold shutil_copytree.
  destruct (node_at (components src) (files m)) as [[data|entries]|];
    try discriminate.
  destruct (node_at (components dst) (files m)); [discriminate|].
  destruct (put_at true (components dst) (without_locks (Dir entries)) (files m))
    as [root|e] eqn:Hput; [|discriminate].
  intros [= <-]. exists entries. cbn [files storage_dump with_files].
  split; [reflexivity|]. split; [exact (node_at_put_at _ _ _ _ _ Hput)|].
  split; [reflexivity|].
  intros other Hother.
  exact (node_at_put_at_sibling _ _ _ _ _ _ _ Hother Hput).
Qed.

(** A copy that fails leaves the machine as it was. *)
Lemma shutil_copytree_raise (src dst : place) (m m1 : Machine) (e : exn) :
  shutil_copytree src dst m = (Raise e, m1) -> m1 = m.
Proof.
  unfold shutil_copytree.
  destruct (node_at (components src) (files m)) as [[data|entries]|];
    try (now intros [= _ <-]).
  destruct (node_at (components dst) (files m)); [now intros [= _ <-]|].
  destruct (put_at true _ _ _); [discriminate|now intros [= _ <-]].
Qed.

(** The replacing save, after a copy that came out empty. *)
Lemma save_firefox_profile_empty_copy (profile_path _profile_path : place)
    (m m1 : Machine) :
  shutil_copytree profile_path (tmp_of _profile_path) m = (Ok tt, m1) ->
  node_at (components (tmp_of _profile_path)) (files m1) = Some (Dir []) ->
  save_firefox_profile profile_path _profile_path true m =
  (Raise (WhatsAPIException "Missing tmp firefox profile."),
   with_files m1 (remove_at (components (tmp_of _profile_path)) (files m1))).
Proof.
  intros Hcopy Htmp.
  unfold save_firefox_profile, bind, os_path_exists, os_listdir, read, ret,
    throw, shutil_rmtree.
  cbv beta zeta. cbn [place_of]. rewrite Hcopy.
  repeat first [ rewrite Htmp
               | progress cbn [map length]
               | progress change (0 <? Z.of_nat 0) with false
               | progress cbv beta iota ].
  reflexivity.
Qed.

(** Neither the copy to the temporary place nor its removal touches the
    permanent profile. *)
Lemma permanent_profile_untouched (profile_path _profile_path : place)
    (m m1 : Machine) :
  shutil_copytree profile_path (tmp_of _profile_path) m = (Ok tt, m1) ->
  node_at (components _profile_path)
    (remove_at (components (tmp_of _profile_path)) (files m1)) =
  node_at (components _profile_path) (files m).
Proof.
  intros Hcopy.
  destruct (shutil_copytree_ok _ _ _ _ Hcopy) as (entries & _ & _ & _ & Hside).
  unfold components, tmp_of in *. cbn [parent name] in *.
  rewrite node_at_remove_at_sibling by apply tmp_name_differs.
  apply Hside. apply tmp_name_differs.
Qed.

(** C6. When the copy of the live profile to the temporary place comes
    out empty (or is not there), the replacing save raises
    [WhatsAPIException "Missing tmp firefox profile."] and the permanent
    profile is as before; a save that returns, or that changed the
    permanent profile, had a copy with entries; and after a save that
    returns the permanent profile is a directory with entries. *)
Theorem save_replacing_needs_a_filled_copy (profile_path _profile_path : place)
    (m : Machine) :
  let tmp_path := tmp_of _profile_path in
  (forall m1,
      shutil_copytree profile_path tmp_path m = (Ok tt, m1) ->
      os_path_exists tmp_path m1 = (Ok false, m1) \/
      os_listdir tmp_path m1 = (Ok [], m1) ->
      exists m',
        save_firefox_profile profile_path _profile_path true m =
          (Raise (WhatsAPIException "Missing tmp firefox profile."), m') /\
        node_at (components _profile_path) (files m') =
        node_at (components _profile_path) (files m)) /\
  (forall outcome m',
      save_firefox_profile profile_path _profile_path true m = (outcome, m') ->
      outcome = Ok tt \/
      node_at (components _profile_path) (files m') <>
      node_at (components _profile_path) (files m) ->
      exists m1 listing,
        shutil_copytree profile_path tmp_path m = (Ok tt, m1) /\
        os_listdir tmp_path m1 = (Ok listing, m1) /\
        listing <> []) /\
  (forall m',
      save_firefox_profile profile_path _profile_path true m = (Ok tt, m') ->
      exists entries,
        node_at (components _profile_path) (files m') = Some (Dir entries) /\
        entries <> []).
Proof.
  intros tmp_path. split; [|split].
  - intros m1 Hcopy Hempty.
    destruct (shutil_copytree_ok _ _ _ _ Hcopy) as (entries & _ & Htmp & _).
    assert (Hdir : exists copied, without_locks (Dir entries) = Dir copied)
      by (eexists; reflexivity).
    destruct Hdir as (copied & Hdir). rewrite Hdir in Htmp.
    assert (Hnone : copied = []).
    { destruct Hempty as [Hmissing|Hlisting].
      - unfold os_path_exists, read in Hmissing. cbn [place_of] in Hmissing.
        fold tmp_path in Htmp.
        rewrite Htmp in Hmissing. discriminate Hmissing.
      - unfold os_listdir in Hlisting. fold tmp_path in Htmp.
        rewrite Htmp in Hlisting.
        destruct copied; [reflexivity|discriminate Hlisting]. }
    subst copied. eexists. split.
    + apply save_firefox_profile_empty_copy; eassumption.
    + cbn [files with_files].
      now apply (permanent_profile_untouched profile_path).
  - intros outcome m' Hsave Hchanged.
    destruct (shutil_copytree profile_path tmp_path m) as [[[]|e] m1] eqn:Hcopy.
    + destruct (shutil_copytree_ok _ _ _ _ Hcopy) as (entries & _ & Htmp & _).
      assert (Hdir : exists copied, without_locks (Dir entries) = Dir copied)
        by (eexists; reflexivity).
      destruct Hdir as (copied & Hdir). rewrite Hdir in Htmp.
      destruct copied as [|first copied].
      * rewrite (save_firefox_profile_empty_copy _ _ _ _ Hcopy Htmp) in Hsave.
        injection Hsave as <- <-. exfalso.
        destruct Hchanged as [Hok|Hdiff]; [discriminate Hok|].
        apply Hdiff. cbn [files with_files].
        now apply (permanent_profile_untouched profile_path).
      * exists m1, (map fst (first :: copied)). split; [reflexivity|].
        split; [|discriminate].
        unfold os_listdir. fold tmp_path in Htmp. now rewrite Htmp.
    + exfalso.
      assert (Hraise : save_firefox_profile profile_path _profile_path true m =
                       (Raise e, m1)).
      { unfold save_firefox_profile, bind. cbv beta zeta.
        fold tmp_path. now rewrite Hcopy. }
      rewrite Hraise in Hsave. injection Hsave as <- <-.
      apply shutil_copytree_raise in Hcopy. subst m1.
      destruct Hchanged as [Hok|Hdiff]; [discriminate Hok|now apply Hdiff].
  - intros m' Hsave. unfold save_firefox_profile in Hsave.
    apply bind_ok in Hsave as (done & m2 & _ & Hsave).
    apply bind_ok in Hsave as (opened & m3 & _ & Hsave).
    apply bind_ok in Hsave as (text & m4 & _ & Hsave).
    unfold write_text in Hsave.
    destruct (put_at false _ (File text) (files m4)) as [root|e] eqn:Hput;
      [|discriminate].
    injection Hsave as <-. cbn [files with_files].
    destruct (put_at_fills_directory _ _ _ _ _ Hput) as (entries & Hat & Hentry).
    exists entries. split; [exact Hat|].
    intros ->. discriminate Hentry.
Qed.

(** *** The save on the small disk *)

Lemma save_replacing_needs_a_filled_copy_witness :
  exists m',
    save_firefox_profile toy_live toy_permanent true (toy_disk toy_only_locks) =
      (Raise (WhatsAPIException "Missing tmp firefox profile."), m') /\
    node_at (components toy_permanent) (files m') =
    node_at (components toy_permanent) (files (toy_disk toy_only_locks)).
Proof.
  exact (proj1 (save_replacing_needs_a_filled_copy toy_live toy_permanent
                  (toy_disk toy_only_locks))
           _ eq_refl (or_intror eq_refl)).
Defined.

Example save_replaces_the_profile :
  save_firefox_profile toy_live toy_permanent true (toy_disk toy_fresh_profile) =
  (Ok tt,
   {| files :=
        Dir [ ("tmp", Dir [("rust_mozprofile", Dir toy_fresh_profile)]);
              ("home", Dir [("api", Dir [("profile",
                 Dir [ ("cookies.sqlite", File "new cookies");
                       ("storage", Dir [("ls.sqlite", File "data")]);
                       ("localStorage.json", File "{}") ])])]) ];
      storage_dump := Ok "{}" |}).
Proof. reflexivity. Qed.

(** ** Local storage *)

Lemma unhex_hexdigit (n : Z) : 0 <= n < 16 -> unhex (hexdigit n) = Some n.
Proof.
  intros Hn. unfold hexdigit, unhex.
  destruct (Z.ltb_spec n 10) as [Hdecimal|Hletter].
  - destruct (Z.leb_spec 48 (48 + n)); [|lia].
    destruct (Z.leb_spec (48 + n) 57); [|lia].
    cbn [andb]. f_equal. lia.
  - destruct (Z.leb_spec (87 + n) 57); [lia|].
    rewrite andb_false_r.
    destruct (Z.leb_spec 97 (87 + n)); [|lia].
    destruct (Z.leb_spec (87 + n) 102); [|lia].
    cbn [andb]. f_equal. lia.
Qed.

Lemma hexdigit_is_not_a_brace (n : Z) : 0 <= n < 16 -> (hexdigit n =? 123) = false.
Proof.
  intros Hn. unfold hexdigit.
  destruct (Z.ltb_spec n 10); apply Z.eqb_neq; lia.
Qed.

Lemma js_string_literal_plain (c : Z) (rest : pystr) :
  plain_in_quotes c ->
  js_string_literal (c :: rest) = literal_cons c (js_string_literal rest).
Proof.
  intros (Hquote & Hbackslash & Hlf & Hcr). cbn [js_string_literal].
  destruct (Z.eqb_spec c 39); [contradiction|].
  destruct (Z.eqb_spec c 10); [contradiction|].
  destruct (Z.eqb_spec c 13); [contradiction|].
  destruct (Z.eqb_spec c 92); [contradiction|].
  reflexivity.
Qed.

Lemma js_string_literal_x (h1 h2 : Z) (rest : pystr) :
  js_string_literal (92 :: 120 :: h1 :: h2 :: rest) =
  match unhex h1, unhex h2 with
  | Some a, Some b => literal_cons (16 * a + b) (js_string_literal rest)
  | _, _ => BadEscape
  end.
Proof. reflexivity. Qed.

Lemma js_string_literal_u (h1 h2 h3 h4 : Z) (rest : pystr) :
  js_string_literal (92 :: 117 :: h1 :: h2 :: h3 :: h4 :: rest) =
  if h1 =? 123 then NotModelled
  else match unhex h1, unhex h2, unhex h3, unhex h4 with
       | Some a, Some b, Some c, Some d =>
           literal_cons (4096 * a + 256 * b + 16 * c + d)
             (js_string_literal rest)
       | _, _, _, _ => BadEscape
       end.
Proof. reflexivity. Qed.

(** The literal reader undoes the escape of one character. *)
Lemma js_string_literal_escape_char (c : Z) (rest : pystr) :
  restorable c ->
  js_string_literal (unicode_escape_char c ++ rest) =
  literal_cons c (js_string_literal rest).
Proof.
  intros [Hrange Hquote]. unfold unicode_escape_char.
  destruct (Z.ltb_spec c 256) as [Hbyte|Hwide].
  - destruct (Z.leb_spec 32 c) as [Hprint|Hcontrol];
      [destruct (Z.ltb_spec c 127) as [Hascii|Hhigh]|]; cbn [andb].
    + destruct (Z.eqb_spec c 92) as [->|Hbackslash]; [reflexivity|].
      apply js_string_literal_plain. unfold plain_in_quotes. lia.
    + destruct (Z.eqb_spec c 9); [lia|]. destruct (Z.eqb_spec c 10); [lia|].
      destruct (Z.eqb_spec c 13); [lia|].
      cbn [app]. rewrite js_string_literal_x.
      rewrite !unhex_hexdigit by (Z.to_euclidean_division_equations; lia).
      f_equal. Z.to_euclidean_division_equations; lia.
    + destruct (Z.eqb_spec c 9) as [->|]; [reflexivity|].
      destruct (Z.eqb_spec c 10) as [->|]; [reflexivity|].
      destruct (Z.eqb_spec c 13) as [->|]; [reflexivity|].
      cbn [app]. rewrite js_string_literal_x.
      rewrite !unhex_hexdigit by (Z.to_euclidean_division_equations; lia).
      f_equal. Z.to_euclidean_division_equations; lia.
  - destruct (Z.ltb_spec c 65536) as [_|Hastral]; [|lia].
    cbn [app]. rewrite js_string_literal_u.
    rewrite hexdigit_is_not_a_brace
      by (Z.to_euclidean_division_equations; lia).
    rewrite !unhex_hexdigit by (Z.to_euclidean_division_equations; lia).
    f_equal. Z.to_euclidean_division_equations; lia.
Qed.

(** An escaped value between quotes is read back as the value. *)
Lemma js_string_literal_escaped (v rest : pystr) :
  Forall restorable v ->
  js_string_literal (unicode_escape v ++ 39 :: rest) = Literal v rest.
Proof.
  induction 1 as [|c v Hc _ IH]; [reflexivity|].
  unfold unicode_escape in *. cbn [flat_map]. rewrite <- app_assoc.
  rewrite js_string_literal_escape_char by exact Hc.
  now rewrite IH.
Qed.

(** A key without quote, backslash or line break is read back as it is. *)
Lemma js_string_literal_key (k rest : pystr) :
  Forall plain_in_quotes k ->
  js_string_literal (k ++ 39 :: rest) = Literal k rest.
Proof.
  induction 1 as [|c k Hc _ IH]; [reflexivity|].
  cbn [app]. rewrite js_string_literal_plain by exact Hc.
  now rewrite IH.
Qed.

Lemma strip_prefix_app (prefix rest : pystr) :
  strip_prefix prefix (prefix ++ rest) = Some rest.
Proof.
  induction prefix as [|p prefix IH]; [reflexivity|].
  cbn. now rewrite Z.eqb_refl.
Qed.

(** The statement written for a key and an escaped value is read as
    that key and the value itself. *)
Lemma js_statement_escaped (k v rest : pystr) :
  Forall plain_in_quotes k -> Forall restorable v ->
  js_statement (setItem_statement k (VStr (unicode_escape v)) ++ rest) =
  SetItem k v rest.
Proof.
  intros Hk Hv. unfold js_statement, setItem_statement.
  cbn [rendered_value].
  rewrite <- !app_assoc. rewrite strip_prefix_app.
  change (codes "', '") with (39 :: codes ", '").
  rewrite <- app_comm_cons. rewrite js_string_literal_key by exact Hk.
  rewrite strip_prefix_app.
  change (codes "');") with (39 :: codes ");").
  rewrite <- app_comm_cons. rewrite js_string_literal_escaped by exact Hv.
  rewrite strip_prefix_app. reflexivity.
Qed.

Lemma setItem_statement_not_empty (k : pystr) (v : storage_value)
    (rest : pystr) :
  exists c script, setItem_statement k v ++ rest = c :: script.
Proof. unfold setItem_statement. cbn. eauto. Qed.

(** The script written from a snapshot is read as the items
    themselves. *)
Lemma js_program_snapshot (items : Storage) (steps : nat) :
  Forall (fun kv => Forall plain_in_quotes (fst kv) /\
                    Forall restorable (snd kv)) items ->
  (length items <= steps)%nat ->
  js_program steps (script_of (snapshot_of items)) = Ok items.
Proof.
  intros Hitems. revert steps.
  induction Hitems as [|[k v] items [Hk Hv] _ IH]; intros steps Hsteps.
  - destruct steps; reflexivity.
  - unfold script_of, snapshot_of in *. cbn [map concat fst snd] in *.
    destruct (setItem_statement_not_empty k (VStr (unicode_escape v))
                (concat (map (fun item => setItem_statement (fst item) (snd item))
                           (map (fun kv => (fst kv, VStr (unicode_escape (snd kv))))
                              items))))
      as (c & script & Hshape).
    destruct steps as [|steps]; [cbn in Hsteps; lia|].
    cbn [js_program]. rewrite Hshape at 1.
    rewrite js_statement_escaped by assumption.
    rewrite IH by (cbn in Hsteps; lia). reflexivity.
Qed.

Lemma script_of_length (data : list (pystr * storage_value)) :
  (length data <= length (script_of data))%nat.
Proof.
  unfold script_of. induction data as [|[k v] data IH]; [reflexivity|].
  cbn [map concat fst snd]. rewrite length_app.
  destruct (setItem_statement_not_empty k v []) as (c & script & Hshape).
  rewrite app_nil_r in Hshape. rewrite Hshape. cbn [length]. lia.
Qed.

Lemma setItem_fresh (k v : pystr) (items : Storage) :
  ~ In k (map fst items) -> setItem k v items = items ++ [(k, v)].
Proof.
  induction items as [|[k' v'] items IH]; intros Hfresh; [reflexivity|].
  cbn in *. destruct (decide (k' = k)) as [->|Hne]; [tauto|].
  rewrite IH by tauto. reflexivity.
Qed.

(** Setting items of distinct new keys appends them in order. *)
Lemma run_setItems_fresh (program items : Storage) :
  List.NoDup (map fst (items ++ program)) ->
  run_setItems program items = items ++ program.
Proof.
  revert items. induction program as [|[k v] program IH]; intros items Hnodup.
  - now rewrite app_nil_r.
  - unfold run_setItems in *. cbn [fold_left fst snd].
    rewrite setItem_fresh.
    + rewrite IH; rewrite <- app_assoc; [reflexivity|exact Hnodup].
    + rewrite map_app in Hnodup. cbn in Hnodup.
      apply NoDup_remove_2 in Hnodup. intros Hin. apply Hnodup.
      apply in_or_app. now left.
Qed.

Lemma hexdigit_printable (n : Z) : 0 <= n < 16 -> 32 <= hexdigit n < 127.
Proof. intros Hn. unfold hexdigit. destruct (Z.ltb_spec n 10); lia. Qed.

(** Escaped text is printable ASCII. *)
Lemma unicode_escape_printable (s : pystr) :
  Forall (fun c => 0 <= c) s ->
  Forall (fun c => 32 <= c < 127) (unicode_escape s).
Proof.
  induction 1 as [|c s Hc _ IH]; [constructor|].
  unfold unicode_escape in *. cbn [flat_map].
  apply Forall_app. split; [|exact IH].
  unfold unicode_escape_char.
  repeat first
    [ progress cbn [andb]
    | match goal with
      | |- context [?a <? ?b] => destruct (Z.ltb_spec a b)
      | |- context [?a <=? ?b] => destruct (Z.leb_spec a b)
      | |- context [?a =? ?b] => destruct (Z.eqb_spec a b)
      end ];
    repeat (apply List.Forall_cons;
            [first [ lia
                   | apply hexdigit_printable;
                     Z.to_euclidean_division_equations; lia ]|]);
    apply List.Forall_nil.
Qed.

(** X10. Where the round trip holds.  A storage whose keys hold no single
    quote, backslash or line break, and whose values hold no single quote
    and no character above U+FFFF, is restored exactly from its snapshot:
    every value of the snapshot is printable ASCII, and running the
    script written from it on an empty storage gives the original
    items, control and non-ASCII characters included. *)
Theorem local_storage_round_trip (original : Storage) :
  List.NoDup (map fst original) ->
  Forall (fun kv => Forall plain_in_quotes (fst kv) /\
                    Forall restorable (snd kv)) original ->
  exists snapshot,
    get_local_storage original = (Ok snapshot, original) /\
    Forall (fun item => exists escaped,
                snd item = VStr escaped /\
                Forall (fun c => 32 <= c < 127) escaped) snapshot /\
    set_local_storage snapshot [] = (Ok tt, original).
Proof.
  intros Hkeys Hsafe. exists (snapshot_of original). split; [|split].
  - unfold get_local_storage, bind, ret. cbn [return_localStorage js_page].
    f_equal. f_equal. rewrite map_map. reflexivity.
  - unfold snapshot_of. apply Forall_map.
    eapply List.Forall_impl; [|exact Hsafe].
    intros [k v] [_ Hv]. eexists. split; [reflexivity|].
    apply unicode_escape_printable.
    eapply List.Forall_impl; [|exact Hv]. intros c [Hc _]. cbn. lia.
  - unfold set_local_storage. cbn [execute_script js_page].
    fold (script_of (snapshot_of original)).
    rewrite js_program_snapshot.
    + rewrite run_setItems_fresh by exact Hkeys. reflexivity.
    + exact Hsafe.
    + etransitivity; [|apply script_of_length].
      unfold snapshot_of. now rewrite length_map.
Qed.

Lemma local_storage_round_trip_witness :
  exists snapshot,
    get_local_storage toy_storage = (Ok snapshot, toy_storage) /\
    Forall (fun item => exists escaped,
                snd item = VStr escaped /\
                Forall (fun c => 32 <= c < 127) escaped) snapshot /\
    set_local_storage snapshot [] = (Ok tt, toy_storage).
Proof.
  apply (local_storage_round_trip toy_storage).
  - repeat constructor; cbn; intuition discriminate.
  - unfold toy_storage, plain_in_quotes, restorable. cbn.
    repeat first [apply List.Forall_cons | apply List.Forall_nil | split];
      vm_compute; first [reflexivity | discriminate].
Defined.

(** C4, at an input where it fails.  A character above U+FFFF is
    escaped as [\U0001f600], which the page reads as the letter U and
    eight digits: the restored value is not the original one. *)
Lemma local_storage_loses_astral_characters :
  exists snapshot,
    get_local_storage toy_storage_emoji = (Ok snapshot, toy_storage_emoji) /\
    snapshot = [(codes "last-status", VStr (codes "\U0001f600"))] /\
    set_local_storage snapshot [] =
      (Ok tt, [(codes "last-status", codes "U0001f600")]) /\
    [(codes "last-status", codes "U0001f600")] <> toy_storage_emoji.
Proof.
  eexists. split; [reflexivity|]. split; [reflexivity|].
  split; [reflexivity|]. discriminate.
Qed.

(** A single quote is printable ASCII, so the escape leaves it alone and
    it ends the literal it was meant to sit in. *)
Example single_quote_is_not_escaped :
  script_of (snapshot_of [(codes "k", codes "it's")]) =
  codes "window.localStorage.setItem('k', 'it's');".
Proof. reflexivity. Qed.

(** * Part III: further properties of the driver *)

(** ** The unread fetch *)

Section UnreadFacts.
Context {W RawChat Payload Chat Message : Type}.
Context {zone : LocalTime}.
Context {bridge : SyncBridge W RawChat Payload}.
Context {classifier : Classifier RawChat Payload Chat Message}.

(** X1. The week of [get_unread].  On a platform whose zone kept one
    offset from UTC over the last nine days, and on a clock from a week
    after 1970 to the year 2242, [get_unread] with [filter_week]
    returns for every chat exactly the classified messages whose raw
    timestamp is at least the whole seconds of the clock less 604800. *)
Theorem unread_groups_content (w w' : W)
    (include_me include_notifications : bool)
    (specific_chat : option string)
    (raws : list (RawGroup RawChat Payload)) (offset : Z) :
  let seconds := now_us w / 1000000 in
  let week := seconds - 604800 in
  - 86400 <= offset <= 86400 ->
  steady_offset offset (seconds - 9 * 86400) seconds ->
  0 <= week < 2 ^ 33 ->
  unread_fetch include_me include_notifications specific_chat w = (Ok raws, w') ->
  exists out,
    get_unread include_me include_notifications true specific_chat w =
      (Ok out, w') /\
    Forall2 (fun raw (group : MessageGroup Chat Message) =>
               mg_chat group = factory_chat raw /\
               Permutation (mg_messages group)
                 (map factory_message
                    (List.filter (fun msg => week <=? rm_timestamp msg)
                       (rg_messages raw))))
      raws out.
Proof.
  intros seconds week Hoffset Hsteady Hrange Hfetch.
  pose proof (seven_days_ago_plain (now_us w) offset Hoffset Hsteady Hrange)
    as Hweek.
  fold seconds in Hweek. fold week in Hweek.
  eexists. split; [apply get_unread_run; exact Hfetch|].
  rewrite Hweek.
  clear Hfetch. induction raws as [|raw raws IH]; cbn [map]; constructor;
    [|exact IH].
  split; [reflexivity|]. apply recent_sorted_perm.
Qed.
End UnreadFacts.

Lemma unread_week_groups_ordered_witness :
  exists out,
    get_unread false false true None toy_page = (Ok out, toy_page) /\
    Forall2 (fun raw (group : MessageGroup string (RawMessage string)) =>
               ascending timestamp (mg_messages group) /\
               same_arrival_order timestamp
                 (map factory_message
                    (List.filter
                       (fun msg =>
                          seven_days_ago (now_us toy_page) <=? rm_timestamp msg)
                       (rg_messages raw)))
                 (mg_messages group))
      (toy_loaded toy_page) out.
Proof.
  exact (unread_week_groups_ordered toy_page toy_page false false None
           (toy_loaded toy_page) eq_refl).
Defined.

Lemma until_date_groups_ordered_witness :
  exists out,
    get_all_messages_until_date (Some (toy_now - 86400)) true false toy_page =
      (Ok out, toy_page) /\
    Forall2 (fun raw (group : MessageGroup string (RawMessage string)) =>
               ascending timestamp (mg_messages group) /\
               same_arrival_order timestamp
                 (map factory_message
                    (List.filter
                       (fun msg =>
                          effective_date (Some (toy_now - 86400))
                            (seven_days_ago (now_us toy_page))
                          <=? rm_timestamp msg)
                       (rg_messages raw)))
                 (mg_messages group))
      (toy_loaded toy_page) out.
Proof.
  exact (until_date_groups_ordered toy_page toy_page toy_page
           (Some (toy_now - 86400)) true false (toy_loaded toy_page)
           eq_refl eq_refl).
Defined.

Lemma unread_groups_content_witness :
  exists out,
    get_unread false false true None toy_page_late = (Ok out, toy_page_late) /\
    Forall2 (fun raw (group : MessageGroup string (RawMessage string)) =>
               mg_chat group = factory_chat raw /\
               Permutation (mg_messages group)
                 (map factory_message
                    (List.filter
                       (fun msg => toy_now - 604800 <=? rm_timestamp msg)
                       (rg_messages raw))))
      (toy_loaded toy_page_late) out.
Proof.
  refine (unread_groups_content toy_page_late toy_page_late false false None
            (toy_loaded toy_page_late) 0 _ _ _ eq_refl).
  - lia.
  - intros u _. cbn. lia.
  - split; [apply Z.leb_le | apply Z.ltb_lt]; vm_compute; reflexivity.
Defined.

(** ** The status probe *)

Section StatusFacts.
Context {W E : Type} {desktop : Desktop W E}.

(** X4. [get_status] never answers [NoDriver], and it answers
    [NotConnected] exactly when the driver or its session id is
    missing. *)
Theorem get_status_answers (w w' : W) (status : WhatsAPIDriverStatus) :
  get_status w = (Ok status, w') ->
  status <> NoDriver /\
  (status = NotConnected <->
   driver_is_None w = true \/ session_id_is_None w = true).
Proof.
  rewrite get_status_run.
  destruct (driver_is_None w).
  { intros [= <- <-]. split; [discriminate|]. split; auto. }
  destruct (session_id_is_None w).
  { intros [= <- <-]. split; [discriminate|]. split; auto. }
  assert (Hno : forall P : Prop, (P <-> false = true \/ false = true) <-> ~ P).
  { intros P. split.
    - intros [Hp _] Hyes. destruct (Hp Hyes); discriminate.
    - intros Hnot. split; [contradiction|]. intros [|]; discriminate. }
  destruct (find_element_by_css_selector selector_mainPage w)
    as [[element|e] w1].
  { intros [= <- <-]. split; [discriminate|]. apply Hno. discriminate. }
  destruct e; try discriminate.
  destruct (find_element_by_css_selector selector_qrCode w1)
    as [[element|e] w2].
  { intros [= <- <-]. split; [discriminate|]. apply Hno. discriminate. }
  destruct e; try discriminate.
  intros [= <- <-]. split; [discriminate|]. apply Hno. discriminate.
Qed.
End StatusFacts.

Lemma get_status_answers_witness :
  LoggedIn <> NoDriver /\
  (LoggedIn = NotConnected <->
   driver_is_None toy_logged_in = true \/
   session_id_is_None toy_logged_in = true).
Proof.
  exact (get_status_answers toy_logged_in toy_logged_in LoggedIn eq_refl).
Defined.

(** ** Chats by phone number *)

Lemma prefix_is_a_start (start text : string) :
  String.prefix start text = true <-> exists rest, text = start +:+ rest.
Proof.
  revert text. induction start as [|c start IH]; intros text.
  - split; [intros _; now exists text|intros _; now destruct text].
  - destruct text as [|d text]; cbn [String.prefix].
    + split; [discriminate|]. intros [rest Hrest]. discriminate Hrest.
    + destruct (Ascii.ascii_dec c d) as [->|Hne].
      * rewrite IH. split; intros [rest Hrest]; exists rest.
        -- cbn. now rewrite Hrest.
        -- now injection Hrest.
      * split; [discriminate|]. intros [rest Hrest].
        injection Hrest as Hd _. congruence.
Qed.

(** [contains] decides the occurrence of one string in another. *)
Lemma contains_is_occurrence (needle haystack : string) :
  contains needle haystack = true <->
  exists before after, haystack = before +:+ needle +:+ after.
Proof.
  induction haystack as [|c haystack IH]; cbn [contains].
  - destruct (String.prefix needle "") eqn:Hprefix.
    + split; [intros _|reflexivity].
      apply prefix_is_a_start in Hprefix as [rest Hrest].
      now exists "", rest.
    + split; [discriminate|]. intros (before & after & Hsplit).
      destruct before; [|discriminate Hsplit].
      assert (String.prefix needle "" = true)
        by (apply prefix_is_a_start; now exists after).
      congruence.
  - destruct (String.prefix needle (String c haystack)) eqn:Hprefix.
    + split; [intros _|reflexivity].
      apply prefix_is_a_start in Hprefix as [rest Hrest].
      now exists "", rest.
    + rewrite IH. split; intros (before & after & Hsplit).
      * exists (String c before), after. cbn. now rewrite Hsplit.
      * destruct before as [|d before].
        -- assert (String.prefix needle (String c haystack) = true)
             by (apply prefix_is_a_start; now exists after).
           congruence.
        -- injection Hsplit as _ Hsplit. now exists before, after.
Qed.

Section ChatsFacts.
Context {W RawChat Payload Chat Message : Type}.
Context {chats_bridge : ChatsBridge W RawChat Payload}.
Context {classifier : Classifier RawChat Payload Chat Message}.
Context {chat_view : ChatView Chat}.

Lemma chat_matches_test (number : string) (chat : Chat) :
  negb (is_UserChat chat) || negb (contains number (get_id chat)) = false <->
  chat_matches number chat.
Proof.
  unfold chat_matches. rewrite <- contains_is_occurrence.
  destruct (is_UserChat chat), (contains number (get_id chat)); cbn;
    intuition discriminate.
Qed.

Lemma first_chat_for_found (number : string) (chats : list Chat)
    (chat : Chat) (w w' : W) :
  first_chat_for number chats w = (Ok chat, w') <->
  w' = w /\
  exists before after,
    chats = before ++ chat :: after /\
    chat_matches number chat /\
    Forall (fun c => ~ chat_matches number c) before.
Proof.
  induction chats as [|c chats IH]; cbn [first_chat_for].
  - split; [discriminate|].
    intros (_ & before & after & Hsplit & _). destruct before; discriminate.
  - destruct (negb (is_UserChat c) || negb (contains number (get_id c)))
      eqn:Htest.
    + assert (Hc : ~ chat_matches number c).
      { rewrite <- chat_matches_test. congruence. }
      rewrite IH. split; intros (Hw & before & after & Hsplit & Hchat & Hnone).
      * split; [exact Hw|]. exists (c :: before), after.
        rewrite Hsplit. split; [reflexivity|]. split; [exact Hchat|].
        now constructor.
      * split; [exact Hw|]. destruct before as [|b before].
        -- injection Hsplit as -> _. contradiction.
        -- injection Hsplit as _ Hsplit. inversion Hnone; subst.
           now exists before, after.
    + apply chat_matches_test in Htest. unfold ret. split.
      * intros [= <- <-]. split; [reflexivity|]. now exists [], chats.
      * intros (-> & before & after & Hsplit & Hchat & Hnone).
        destruct before as [|b before].
        -- now injection Hsplit as ->.
        -- injection Hsplit as <- _. inversion Hnone; subst. contradiction.
Qed.

Lemma first_chat_for_missing (number : string) (chats : list Chat)
    (w w' : W) (e : exn) :
  first_chat_for number chats w = (Raise e, w') <->
  w' = w /\
  e = ChatNotFoundError ("Chat for phone " +:+ number +:+ " not found") /\
  Forall (fun c => ~ chat_matches number c) chats.
Proof.
  induction chats as [|c chats IH]; cbn [first_chat_for].
  - unfold throw. split.
    + intros [= <- <-]. auto.
    + intros (-> & -> & _). reflexivity.
  - destruct (negb (is_UserChat c) || negb (contains number (get_id c)))
      eqn:Htest.
    + assert (Hc : ~ chat_matches number c).
      { rewrite <- chat_matches_test. congruence. }
      rewrite IH. split; intros (Hw & He & Hnone).
      * repeat split; try assumption. now constructor.
      * repeat split; try assumption. now inversion Hnone.
    + apply chat_matches_test in Htest. unfold ret. split; [discriminate|].
      intros (_ & _ & Hnone). inversion Hnone; subst. contradiction.
Qed.

(** X5. [get_chat_from_phone_number] returns the first user chat, in the
    order of the bridge, whose id has the number anywhere in it; chats
    that are not user chats are passed over.  It raises
    [ChatNotFoundError] exactly when there is no such chat. *)
Theorem phone_lookup_first_match (number : string) (w w' : W)
    (raws : list (RawGroup RawChat Payload)) :
  getAllChats w = (Ok raws, w') ->
  (forall chat,
      get_chat_from_phone_number number w = (Ok chat, w') <->
      exists before after,
        map factory_chat raws = before ++ chat :: after /\
        chat_matches number chat /\
        Forall (fun c => ~ chat_matches number c) before) /\
  (get_chat_from_phone_number number w =
     (Raise (ChatNotFoundError
               ("Chat for phone " +:+ number +:+ " not found")), w') <->
   Forall (fun c => ~ chat_matches number c) (map factory_chat raws)).
Proof.
  intros Hchats.
  assert (Hrun : get_chat_from_phone_number number w =
                 first_chat_for number (map factory_chat raws) w').
  { unfold get_chat_from_phone_number, get_all_chats, bind, ret.
    now rewrite Hchats. }
  rewrite Hrun. split.
  - intros chat. rewrite first_chat_for_found. intuition.
  - rewrite first_chat_for_missing. intuition.
Qed.
End ChatsFacts.

(** The number of the third chat also occurs in the id of the group
    before it; the group is passed over. *)
Lemma phone_lookup_first_match_witness :
  get_chat_from_phone_number "972512345678" toy_chats =
    (Ok (mkToyChat true "972512345678@c.us"), toy_chats) /\
  get_chat_from_phone_number "0000" toy_chats =
    (Raise (ChatNotFoundError "Chat for phone 0000 not found"), toy_chats).
Proof.
  pose proof (phone_lookup_first_match "972512345678" toy_chats toy_chats
                toy_chats eq_refl) as [Hfound _].
  pose proof (phone_lookup_first_match "0000" toy_chats toy_chats
                toy_chats eq_refl) as [_ Hmissing].
  split.
  - apply Hfound.
    exists [mkToyChat false "972512345678-1500000000@g.us";
            mkToyChat true "4915112345678@c.us"], [].
    split; [reflexivity|]. split.
    + split; [reflexivity|]. now exists "", "@c.us".
    + repeat constructor.
      * intros [Huser _]. discriminate Huser.
      * intros Hmatch. apply chat_matches_test in Hmatch.
        discriminate Hmatch.
  - apply Hmissing.
    repeat constructor; intros Hmatch; apply chat_matches_test in Hmatch;
      discriminate Hmatch.
Defined.

(** ** The media download *)

Lemma pkcs7_pad_whole_blocks (data : bytes) :
  (length (pkcs7_pad data) mod 16 = 0)%nat.
Proof.
  unfold pkcs7_pad. rewrite length_app, repeat_length.
  pose proof (Nat.div_mod_eq (length data) 16) as Hsplit.
  pose proof (Nat.mod_upper_bound (length data) 16) as Hbound.
  replace (length data + (16 - length data mod 16))%nat
    with ((length data / 16 + 1) * 16)%nat by lia.
  apply Nat.Div0.mod_mul.
Qed.

Section DownloadFacts.
Context {W : Type} {media_bridge : MediaBridge W} {codecs : Codecs}.

(** The cipher run on an uploaded blob gives back the data that was
    encrypted. *)
Lemma decryptor_undoes_upload (encrypt_block : bytes -> bytes -> bytes)
    (key iv aligned tag : bytes) :
  block_cipher_pair encrypt_block aes_decrypt_block key ->
  length iv = 16%nat -> length tag = 10%nat ->
  (length aligned mod 16 = 0)%nat ->
  decryptor_update_finalize (key, iv)
    (slice_until (-10) (uploaded_blob encrypt_block key iv aligned tag)) =
  Ok aligned.
Proof.
  intros Hcipher Hiv Htag Haligned.
  unfold uploaded_blob. rewrite slice_until_strips_tag by exact Htag.
  assert (Hwhole : length aligned = (16 * (length aligned / 16))%nat).
  { pose proof (Nat.div_mod_eq (length aligned) 16). lia. }
  unfold decryptor_update_finalize.
  rewrite (cbc_encrypt_length encrypt_block key Hcipher _ _ _ Hiv Hwhole).
  rewrite Nat.mul_comm, Nat.div_mul, Nat.Div0.mod_mul by lia.
  cbn [Nat.eqb].
  now rewrite (cbc_decrypt_encrypt encrypt_block key Hcipher _ _ _ Hiv Hwhole).
Qed.

(** X6. A plaintext that the sender padded by PKCS#7 comes back with its
    padding: the plaintext, then [n] bytes of value [n], for an [n]
    from 1 to 16. *)
Theorem download_media_returns_padded_plaintext
    (encrypt_block : bytes -> bytes -> bytes) (w w' : W)
    (media_msg : MediaMessage) (encoded hex : string)
    (key_material info plain tag : bytes) :
  let derivative := deriveSecrets key_material info 112 in
  let iv := firstn 16 derivative in
  let cipher_key := firstn 32 (skipn 16 derivative) in
  length derivative = 112%nat ->
  block_cipher_pair encrypt_block aes_decrypt_block cipher_key ->
  b64decode (media_key media_msg) = Ok key_material ->
  dict_get (type media_msg) (crypt_keys media_msg) = Ok hex ->
  unhexlify hex = Ok info ->
  downloadFile (client_url media_msg) w = (Ok encoded, w') ->
  b64decode encoded =
    Ok (uploaded_blob encrypt_block cipher_key iv (pkcs7_pad plain) tag) ->
  length tag = 10%nat ->
  exists n,
    (1 <= n <= 16)%nat /\
    download_media media_msg false w =
      (Ok (plain ++ repeat (Z.of_nat n) n), w').
Proof.
  intros derivative iv cipher_key Hlen Hcipher Hkey Hhex Hinfo Hfile Hblob Htag.
  exists (16 - length plain mod 16)%nat. split.
  { pose proof (Nat.mod_upper_bound (length plain) 16). lia. }
  rewrite (download_media_run w w' media_msg encoded hex key_material info _
             Hlen Hfile Hblob Hkey Hhex Hinfo).
  fold derivative. fold iv. fold cipher_key.
  rewrite decryptor_undoes_upload; [reflexivity|exact Hcipher| |exact Htag|].
  - unfold iv. rewrite length_firstn. lia.
  - apply pkcs7_pad_whole_blocks.
Qed.

(** The download once the blob has arrived: the steps that can still
    fail, in their order. *)
Lemma download_media_after_fetch (w w' : W) (media_msg : MediaMessage)
    (encoded : string) (blob : bytes) :
  downloadFile (client_url media_msg) w = (Ok encoded, w') ->
  b64decode encoded = Ok blob ->
  download_media media_msg false w =
  (rbind (b64decode (media_key media_msg)) (fun key_material =>
   rbind (dict_get (type media_msg) (crypt_keys media_msg)) (fun hex =>
   rbind (unhexlify hex) (fun info =>
   let derivative := deriveSecrets key_material info 112 in
   rbind (new_AES (firstn 32 (skipn 16 derivative))) (fun algorithm =>
   rbind (new_Cipher_CBC algorithm (firstn 16 derivative)) (fun cr_obj =>
   decryptor_update_finalize cr_obj (slice_until (-10) blob)))))), w').
Proof.
  intros Hfile Hblob.
  unfold download_media. unfold bind at 1. rewrite preview_not_requested.
  unfold download_file, bind, lift. rewrite Hfile, Hblob.
  destruct (b64decode (media_key media_msg)); [|reflexivity].
  destruct (dict_get (type media_msg) (crypt_keys media_msg)); [|reflexivity].
  cbn [rbind]. destruct (unhexlify _); [|reflexivity].
  cbn [rbind part ByteUtil_split nth]. destruct (new_AES _); [|reflexivity].
  cbn [rbind]. destruct (new_Cipher_CBC _ _); reflexivity.
Qed.

(** X7. The last ten bytes of the blob are dropped unread: two blobs that
    differ only there give the same result. *)
Theorem download_media_ignores_the_tag (w1 w1' w2 w2' : W)
    (media_msg : MediaMessage) (encoded1 encoded2 : string)
    (body tag1 tag2 : bytes) :
  downloadFile (client_url media_msg) w1 = (Ok encoded1, w1') ->
  downloadFile (client_url media_msg) w2 = (Ok encoded2, w2') ->
  b64decode encoded1 = Ok (body ++ tag1) ->
  b64decode encoded2 = Ok (body ++ tag2) ->
  length tag1 = 10%nat -> length tag2 = 10%nat ->
  fst (download_media media_msg false w1) =
  fst (download_media media_msg false w2).
Proof.
  intros Hfile1 Hfile2 Hblob1 Hblob2 Htag1 Htag2.
  rewrite (download_media_after_fetch _ _ _ _ _ Hfile1 Hblob1).
  rewrite (download_media_after_fetch _ _ _ _ _ Hfile2 Hblob2).
  now rewrite !slice_until_strips_tag by assumption.
Qed.

(** X8. When the preview is asked for and the message carries content, the
    decoded content is returned, or the error of decoding it is raised,
    and nothing is downloaded; only an [AttributeError] is caught.  When
    the message has no content, or empty content, asking for the preview
    gives the full download. *)
Theorem download_media_preview (w : W) (media_msg : MediaMessage) :
  (forall inline,
      content media_msg = Some inline -> inline <> "" ->
      b64decode inline <> Raise AttributeError ->
      download_media media_msg true w = (b64decode inline, w)) /\
  (content media_msg = None \/ content media_msg = Some "" ->
   download_media media_msg true w = download_media media_msg false w).
Proof.
  split.
  - intros inline Hcontent Hfilled Hdecode.
    unfold download_media, preview, try_except, bind, lift, ret.
    rewrite Hcontent.
    destruct (String.eqb_spec inline ""); [contradiction|]. cbn [negb andb].
    destruct (b64decode inline) as [decoded|e]; [reflexivity|].
    destruct e; try reflexivity. now contradiction Hdecode.
  - intros Hnone.
    assert (Hpreview : preview media_msg true w = preview media_msg false w).
    { rewrite preview_not_requested.
      unfold preview, try_except, bind, lift, ret.
      destruct Hnone as [->| ->]; reflexivity. }
    unfold download_media, bind. now rewrite Hpreview.
Qed.

(** X9. Whatever [download_media] returns from the cipher is a whole number
    of blocks. *)
Theorem download_media_gives_whole_blocks (w w' : W)
    (media_msg : MediaMessage) (plain : bytes) :
  (forall key block,
      (16 <= length key)%nat -> length block = 16%nat ->
      length (aes_decrypt_block key block) = 16%nat) ->
  download_media media_msg false w = (Ok plain, w') ->
  (length plain mod 16 = 0)%nat.
Proof.
  intros Hblock. unfold download_media. unfold bind at 1.
  rewrite preview_not_requested.
  unfold download_file, bind, lift.
  destruct (downloadFile (client_url media_msg) w) as [[encoded|e] w1];
    [|discriminate].
  destruct (b64decode encoded) as [blob|e]; [|discriminate].
  destruct (b64decode (media_key media_msg)) as [key_material|e];
    [|discriminate].
  destruct (dict_get (type media_msg) (crypt_keys media_msg)) as [hex|e];
    [|discriminate].
  destruct (unhexlify hex) as [info|e]; [|discriminate].
  unfold new_AES.
  set (cipher_key := part (ByteUtil_split
                             (deriveSecrets key_material info 112) 16 32) 1).
  destruct ((length cipher_key =? 16)%nat || (length cipher_key =? 24)%nat
            || (length cipher_key =? 32)%nat) eqn:Hsize; [|discriminate].
  assert (Hkey : (16 <= length cipher_key)%nat).
  { apply orb_true_iff in Hsize as [Hsize|Hsize];
      [apply orb_true_iff in Hsize as [Hsize|Hsize]|];
      apply Nat.eqb_eq in Hsize; lia. }
  unfold new_Cipher_CBC.
  destruct (Nat.eqb_spec
              (length (part (ByteUtil_split
                               (deriveSecrets key_material info 112) 16 32) 0))
              16) as [Hiv|Hiv]; [|discriminate].
  unfold decryptor_update_finalize.
  pose proof (Nat.Div0.mul_div_le (length (slice_until (-10) blob)) 16)
    as Hfits.
  set (blocks := (length (slice_until (-10) blob) / 16)%nat) in *.
  destruct (Nat.eqb_spec (length (slice_until (-10) blob) mod 16) 0)
    as [Hwhole|Hragged]; [|discriminate].
  intros Hplain. injection Hplain as <- <-.
  rewrite cbc_decrypt_length by (try (intros; apply Hblock); assumption).
  rewrite Nat.mul_comm. apply Nat.Div0.mod_mul.
Qed.
End DownloadFacts.

Lemma toy_block_length (key block : bytes) :
  (16 <= length key)%nat -> length block = 16%nat ->
  length (toy_block key block) = 16%nat.
Proof.
  intros Hkey Hblock. unfold toy_block.
  rewrite xor_bytes_length, length_firstn. lia.
Qed.

Lemma download_media_returns_padded_plaintext_witness :
  exists n,
    (1 <= n <= 16)%nat /\
    download_media toy_media_message false
      (toy_served (uploaded_blob toy_block toy_cipher_key toy_iv
                     (pkcs7_pad (codes "Hi")) toy_tag)) =
    (Ok (codes "Hi" ++ repeat (Z.of_nat n) n),
     toy_served (uploaded_blob toy_block toy_cipher_key toy_iv
                   (pkcs7_pad (codes "Hi")) toy_tag)).
Proof.
  exact (download_media_returns_padded_plaintext toy_block
           (toy_served (uploaded_blob toy_block toy_cipher_key toy_iv
                          (pkcs7_pad (codes "Hi")) toy_tag))
           _ toy_media_message _ "WhatsApp Image Keys"
           (codes (media_key toy_media_message)) (codes "WhatsApp Image Keys")
           (codes "Hi") toy_tag
           eq_refl toy_block_pair eq_refl eq_refl eq_refl eq_refl eq_refl
           eq_refl).
Defined.

Lemma download_media_ignores_the_tag_witness :
  fst (download_media toy_media_message false
         (toy_served (toy_sixteen ++ toy_tag))) =
  fst (download_media toy_media_message false
         (toy_served (toy_sixteen ++ repeat 0 10%nat))).
Proof.
  exact (download_media_ignores_the_tag
           (toy_served (toy_sixteen ++ toy_tag)) _
           (toy_served (toy_sixteen ++ repeat 0 10%nat)) _
           toy_media_message _ _ toy_sixteen toy_tag (repeat 0 10%nat)
           eq_refl eq_refl eq_refl eq_refl eq_refl eq_refl).
Defined.

Lemma download_media_preview_witness :
  download_media toy_preview_message true (toy_served []) =
    (Ok (codes "thumb"), toy_served []) /\
  download_media toy_media_message true (toy_served [1; 2; 3]) =
  download_media toy_media_message false (toy_served [1; 2; 3]).
Proof.
  split.
  - exact (proj1 (download_media_preview (toy_served []) toy_preview_message)
             "thumb" eq_refl ltac:(discriminate) ltac:(discriminate)).
  - exact (proj2 (download_media_preview (toy_served [1; 2; 3])
                    toy_media_message) (or_introl eq_refl)).
Defined.

Lemma download_media_gives_whole_blocks_witness :
  (length toy_sixteen mod 16 = 0)%nat.
Proof.
  exact (download_media_gives_whole_blocks
           (toy_served (uploaded_blob toy_block toy_cipher_key toy_iv
                          toy_sixteen toy_tag))
           _ toy_media_message toy_sixteen toy_block_length eq_refl).
Defined.

(** ** Saving and restoring the local storage *)

Section SnapshotFacts.
Context {W : Type} {browser : Browser W}.

(** X11. The snapshot has the keys of the browser's dictionary, unescaped and
    in its order; every string value in it is printable ASCII, and a
    value that is not a string is passed on as it is. *)
Theorem get_local_storage_escapes (w w' : W)
    (local_storage : list (pystr * storage_value)) :
  return_localStorage w = (Ok local_storage, w') ->
  Forall (fun item => match snd item with
                      | VStr s => Forall (fun c => 0 <= c) s
                      | VOther _ => True
                      end) local_storage ->
  exists snapshot,
    get_local_storage w = (Ok snapshot, w') /\
    map fst snapshot = map fst local_storage /\
    Forall2 (fun item escaped =>
               match snd item with
               | VStr _ =>
                   exists text,
                     snd escaped = VStr text /\
                     Forall (fun c => 32 <= c < 127) text
               | VOther rendered => snd escaped = VOther rendered
               end) local_storage snapshot.
Proof.
  intros Hdict Hchars. eexists. split; [|split].
  - unfold get_local_storage, bind, ret. rewrite Hdict. reflexivity.
  - rewrite map_map. apply map_ext. intros [k [s|r]]; reflexivity.
  - clear Hdict.
    induction Hchars as [|item rest Hitem _ IH]; cbn [map]; [constructor|].
    constructor; [|exact IH].
    destruct item as [k [s|r]]; cbn [snd] in *; [|reflexivity].
    eexists. split; [reflexivity|]. now apply unicode_escape_printable.
Qed.
End SnapshotFacts.

Lemma get_local_storage_escapes_witness :
  exists snapshot,
    get_local_storage toy_storage_emoji = (Ok snapshot, toy_storage_emoji) /\
    map fst snapshot =
      map fst (map (fun kv => (fst kv, VStr (snd kv))) toy_storage_emoji) /\
    Forall2 (fun item escaped =>
               match snd item with
               | VStr _ =>
                   exists text,
                     snd escaped = VStr text /\
                     Forall (fun c => 32 <= c < 127) text
               | VOther rendered => snd escaped = VOther rendered
               end)
      (map (fun kv => (fst kv, VStr (snd kv))) toy_storage_emoji) snapshot.
Proof.
  apply (@get_local_storage_escapes Storage js_page
           toy_storage_emoji toy_storage_emoji
           (map (fun kv => (fst kv, VStr (snd kv))) toy_storage_emoji)
           eq_refl).
  repeat constructor. cbn. lia.
Defined.

Lemma getItem_setItem_same (k v : pystr) (items : Storage) :
  getItem k (setItem k v items) = Some v.
Proof.
  induction items as [|[k' v'] items IH]; cbn.
  - now destruct (decide (k = k)).
  - destruct (decide (k' = k)) as [->|Hne]; cbn.
    + now destruct (decide (k = k)).
    + now destruct (decide (k' = k)).
Qed.

Lemma getItem_setItem_other (k other v : pystr) (items : Storage) :
  other <> k -> getItem other (setItem k v items) = getItem other items.
Proof.
  intros Hne. induction items as [|[k' v'] items IH]; cbn.
  - destruct (decide (k = other)); [congruence|reflexivity].
  - destruct (decide (k' = k)) as [->|Hk]; cbn.
    + destruct (decide (k = other)); [congruence|reflexivity].
    + destruct (decide (k' = other)); [reflexivity|exact IH].
Qed.

Lemma run_setItems_other (program items : Storage) (k : pystr) :
  ~ In k (map fst program) ->
  getItem k (run_setItems program items) = getItem k items.
Proof.
  revert items. induction program as [|[k1 v1] program IH]; intros items Hk;
    [reflexivity|].
  unfold run_setItems in *. cbn [fold_left fst snd]. cbn in Hk.
  rewrite IH by tauto. apply getItem_setItem_other. intros ->. tauto.
Qed.

Lemma run_setItems_set (program items : Storage) (k v : pystr) :
  List.NoDup (map fst program) -> In (k, v) program ->
  getItem k (run_setItems program items) = Some v.
Proof.
  revert items. induction program as [|[k1 v1] program IH];
    intros items Hkeys Hin; [contradiction|].
  cbn in Hkeys. inversion Hkeys as [|? ? Hfresh Hrest]; subst.
  destruct Hin as [[= -> ->]|Hin].
  - change (run_setItems ((k, v) :: program) items)
      with (run_setItems program (setItem k v items)).
    rewrite run_setItems_other by exact Hfresh.
    apply getItem_setItem_same.
  - change (run_setItems ((k1, v1) :: program) items)
      with (run_setItems program (setItem k1 v1 items)).
    now apply IH.
Qed.

(** X12. Take a storage with distinct keys, whose keys hold no single
    quote, backslash or line break and whose values hold no single quote
    and no character above U+FFFF.  Restoring its snapshot into a page
    that already holds items sets every item of the snapshot to its
    original value and leaves the items under other keys as they are:
    nothing is cleared. *)
Theorem set_local_storage_merges (original page : Storage) :
  List.NoDup (map fst original) ->
  Forall (fun kv => Forall plain_in_quotes (fst kv) /\
                    Forall restorable (snd kv)) original ->
  exists page',
    set_local_storage (snapshot_of original) page = (Ok tt, page') /\
    (forall k v, In (k, v) original -> getItem k page' = Some v) /\
    (forall k, ~ In k (map fst original) -> getItem k page' = getItem k page).
Proof.
  intros Hkeys Hsafe. exists (run_setItems original page).
  split; [|split].
  - unfold set_local_storage. cbn [execute_script js_page].
    fold (script_of (snapshot_of original)).
    rewrite js_program_snapshot; [reflexivity|exact Hsafe|].
    etransitivity; [|apply script_of_length].
    unfold snapshot_of. now rewrite length_map.
  - intros k v Hin. now apply run_setItems_set.
  - intros k Hk. now apply run_setItems_other.
Qed.

Lemma set_local_storage_merges_witness :
  exists page',
    set_local_storage (snapshot_of toy_storage) toy_page_storage =
      (Ok tt, page') /\
    (forall k v, In (k, v) toy_storage -> getItem k page' = Some v) /\
    (forall k, ~ In k (map fst toy_storage) ->
               getItem k page' = getItem k toy_page_storage).
Proof.
  apply (set_local_storage_merges toy_storage toy_page_storage).
  - repeat constructor; cbn; intuition discriminate.
  - unfold toy_storage, plain_in_quotes, restorable. cbn.
    repeat first [apply List.Forall_cons | apply List.Forall_nil | split];
      vm_compute; first [reflexivity | discriminate].
Defined.

(** ** The replacing save, step by step *)

Lemma node_at_snoc (dir : list string) (item : string) (root : node) :
  node_at (dir ++ [item]) root =
  match node_at dir root with
  | Some (Dir entries) => entry item entries
  | _ => None
  end.
Proof.
  revert root. induction dir as [|c dir IH]; intros root.
  - cbn. destruct root as [data|entries]; [reflexivity|].
    now destruct (entry item entries).
  - cbn [app node_at]. destruct root as [data|entries]; [reflexivity|].
    destruct (entry c entries) as [child|]; [apply IH|reflexivity].
Qed.

(** Putting something into a directory that is there succeeds and sets
    that entry of the directory. *)
Lemma put_at_under (create : bool) (dir : list string) (item : string)
    (new root : node) (entries : list (string * node)) :
  node_at dir root = Some (Dir entries) ->
  exists root',
    put_at create (dir ++ [item]) new root = Ok root' /\
    node_at dir root' = Some (Dir (set_entry item new entries)).
Proof.
  revert root. induction dir as [|c dir IH]; intros root Hdir.
  - cbn in Hdir. injection Hdir as ->. cbn. eauto.
  - cbn [node_at] in Hdir. destruct root as [data|siblings]; [discriminate|].
    destruct (entry c siblings) as [child|] eqn:Hchild; [|discriminate].
    destruct (IH _ Hdir) as (child' & Hput & Hat).
    change ((c :: dir) ++ [item]) with (c :: (dir ++ [item])).
    cbn [put_at]. destruct (dir ++ [item]) as [|c' rest] eqn:Hrest.
    { destruct dir; discriminate Hrest. }
    rewrite Hchild, Hput. cbn [rbind]. eexists. split; [reflexivity|].
    cbn [node_at]. now rewrite entry_set_entry_same.
Qed.

(** Removing an entry of a directory that is there deletes that entry. *)
Lemma remove_at_under (dir : list string) (item : string) (root : node)
    (entries : list (string * node)) :
  node_at dir root = Some (Dir entries) ->
  node_at dir (remove_at (dir ++ [item]) root) =
  Some (Dir (del_entry item entries)).
Proof.
  revert root. induction dir as [|c dir IH]; intros root Hdir.
  - cbn in Hdir. injection Hdir as ->. reflexivity.
  - cbn [node_at] in Hdir. destruct root as [data|siblings]; [discriminate|].
    destruct (entry c siblings) as [child|] eqn:Hchild; [|discriminate].
    change ((c :: dir) ++ [item]) with (c :: (dir ++ [item])).
    cbn [remove_at]. destruct (dir ++ [item]) as [|c' rest] eqn:Hrest.
    { destruct dir; discriminate Hrest. }
    rewrite Hchild. cbn [node_at]. rewrite entry_set_entry_same.
    now apply IH.
Qed.





Lemma entry_del_entry_same (item : string) (entries : list (string * node)) :
  List.NoDup (map fst entries) -> entry item (del_entry item entries) = None.
Proof.
  induction entries as [|[n child] rest IH]; cbn; [reflexivity|].
  intros Hnodup. inversion Hnodup as [|? ? Hfresh Hrest]; subst.
  destruct (String.eqb_spec n item) as [->|Hne].
  - clear IH Hnodup Hrest. induction rest as [|[n' child'] rest IH];
      [reflexivity|].
    cbn in *. destruct (String.eqb_spec n' item) as [->|Hne']; [tauto|].
    apply IH. tauto.
  - cbn. destruct (String.eqb_spec n item); [contradiction|]. now apply IH.
Qed.


Lemma bind_run {W A B : Type} (c : call W A) (k : A -> call W B)
    (w w' : W) (a : A) :
  c w = (Ok a, w') -> bind c k w = k a w'.
Proof. intros Hc. unfold bind. now rewrite Hc. Qed.

(** Putting something below one entry of a directory leaves the other
    entries alone. *)
Lemma node_at_put_at_below_sibling (create : bool) (dir rest : list string)
    (item other : string) (new root root' : node) :
  other <> item ->
  put_at create (dir ++ item :: rest) new root = Ok root' ->
  node_at (dir ++ [other]) root' = node_at (dir ++ [other]) root.
Proof.
  intros Hne. revert root root'.
  induction dir as [|c dir IH]; intros root root' Hput.
  - cbn [app] in *. cbn [put_at] in Hput.
    destruct root as [data|entries]; [discriminate|].
    cbn [node_at]. destruct rest as [|c' rest].
    + injection Hput as <-. now rewrite entry_set_entry_other.
    + destruct (entry item entries) as [child|].
      * destruct (put_at create (c' :: rest) new child); [|discriminate].
        injection Hput as <-. now rewrite entry_set_entry_other.
      * destruct create; [|discriminate].
        destruct (put_at true (c' :: rest) new (Dir [])); [|discriminate].
        injection Hput as <-. now rewrite entry_set_entry_other.
  - change ((c :: dir) ++ item :: rest) with (c :: (dir ++ item :: rest)) in Hput.
    change ((c :: dir) ++ [other]) with (c :: (dir ++ [other])).
    cbn [put_at] in Hput.
    destruct root as [data|entries]; [discriminate|].
    destruct (dir ++ item :: rest) as [|c' tail] eqn:Htail.
    { destruct dir; discriminate Htail. }
    cbn [node_at].
    destruct (entry c entries) as [child|].
    + destruct (put_at create (c' :: tail) new child) as [child'|e] eqn:Hchild;
        [|discriminate].
      injection Hput as <-. rewrite entry_set_entry_same.
      exact (IH _ _ Hchild).
    + destruct create; [|discriminate].
      destruct (put_at true (c' :: tail) new (Dir [])) as [child'|e] eqn:Hchild;
        [|discriminate].
      injection Hput as <-. rewrite entry_set_entry_same.
      rewrite (IH _ _ Hchild). apply node_at_empty_dir.
Qed.

Section SaveSteps.
Context (dir : list string) (m : Machine) (siblings : list (string * node)).
Context (Hdir : node_at dir (files m) = Some (Dir siblings)).



End SaveSteps.

Lemma open_w_in (p : place) (item : string) (m : Machine)
    (entries : list (string * node)) :
  node_at (components p) (files m) = Some (Dir entries) ->
  (forall inner, entry item entries <> Some (Dir inner)) ->
  exists m1,
    open_w (inside p item) m = (Ok tt, m1) /\
    storage_dump m1 = storage_dump m /\
    node_at (components p) (files m1) =
      Some (Dir (set_entry item (File "") entries)) /\
    forall other, other <> name p ->
      node_at (parent p ++ [other]) (files m1) =
      node_at (parent p ++ [other]) (files m).
Proof.
  intros Hp Hfile. unfold open_w.
  change (components (inside p item)) with (components p ++ [item]).
  rewrite node_at_snoc, Hp.
  destruct (put_at_under false (components p) item (File "") _ _ Hp)
    as (root & Hput & Hat).
  rewrite Hput.
  assert (Hside : forall other, other <> name p ->
            node_at (parent p ++ [other]) root =
            node_at (parent p ++ [other]) (files m)).
  { intros other Hother.
    unfold components in Hput. rewrite <- app_assoc in Hput.
    exact (node_at_put_at_below_sibling _ _ _ _ _ _ _ _ Hother Hput). }
  destruct (entry item entries) as [[data|inner]|] eqn:Hentry.
  - eexists. repeat split; try reflexivity; assumption.
  - now contradiction (Hfile inner).
  - eexists. repeat split; try reflexivity; assumption.
Qed.

Lemma write_text_in (p : place) (item text : string) (m : Machine)
    (entries : list (string * node)) :
  node_at (components p) (files m) = Some (Dir entries) ->
  exists m1,
    write_text (inside p item) text m = (Ok tt, m1) /\
    storage_dump m1 = storage_dump m /\
    node_at (components p) (files m1) =
      Some (Dir (set_entry item (File text) entries)) /\
    forall other, other <> name p ->
      node_at (parent p ++ [other]) (files m1) =
      node_at (parent p ++ [other]) (files m).
Proof.
  intros Hp. unfold write_text.
  change (components (inside p item)) with (components p ++ [item]).
  destruct (put_at_under false (components p) item (File text) _ _ Hp)
    as (root & Hput & Hat).
  rewrite Hput. eexists. repeat split; try reflexivity; [exact Hat|].
  intros other Hother.
  unfold components in Hput. rewrite <- app_assoc in Hput.
  exact (node_at_put_at_below_sibling _ _ _ _ _ _ _ _ Hother Hput).
Qed.






(** X15. A temporary directory left over from an earlier run blocks the
    replacing save: it raises [FileExistsError] and touches nothing. *)
Theorem save_replacing_blocked_by_stale_tmp (profile_path _profile_path : place)
    (m : Machine) (entries : list (string * node)) (stale : node) :
  node_at (components profile_path) (files m) = Some (Dir entries) ->
  node_at (components (tmp_of _profile_path)) (files m) = Some stale ->
  save_firefox_profile profile_path _profile_path true m =
  (Raise (OSError "FileExistsError"), m).
Proof.
  intros Hlive Hstale.
  unfold save_firefox_profile, bind, shutil_copytree. cbv zeta.
  now rewrite Hlive, Hstale.
Qed.



Lemma save_replacing_blocked_by_stale_tmp_witness :
  save_firefox_profile toy_live toy_permanent true toy_disk_stale_tmp =
  (Raise (OSError "FileExistsError"), toy_disk_stale_tmp).
Proof.
  exact (save_replacing_blocked_by_stale_tmp toy_live toy_permanent
           toy_disk_stale_tmp toy_fresh_profile (Dir []) eq_refl eq_refl).
Defined.

(** ** The non-replacing save *)

Lemma save_firefox_profile_merging (profile_path _profile_path : place)
    (m : Machine) :
  save_firefox_profile profile_path _profile_path false m =
  (do! (let! listing := os_listdir profile_path in
        for_each listing (copy_item profile_path _profile_path)) in
   let target := inside _profile_path _LOCAL_STORAGE_FILE in
   do! open_w target in
   let! text := (fun m => (storage_dump m, m)) in
   write_text target text)%call m.
Proof. reflexivity. Qed.

(** Putting something on one of two paths that part ways leaves the
    other alone. *)
Lemma node_at_put_at_apart (create : bool) (p q : list string)
    (new root root' : node) :
  apart p q ->
  put_at create q new root = Ok root' ->
  node_at p root' = node_at p root.
Proof.
  intros (common & a & b & p' & q' & -> & -> & Hne).
  revert root root'.
  induction common as [|c common IH]; intros root root' Hput.
  - cbn [app] in *. cbn [put_at] in Hput.
    destruct root as [data|entries]; [discriminate|].
    cbn [node_at].
    assert (Hside : forall X, entry a (set_entry b X entries) = entry a entries)
      by (intros X; now apply entry_set_entry_other).
    destruct q' as [|c' q'].
    + injection Hput as <-. now rewrite Hside.
    + destruct (entry b entries) as [child|].
      * destruct (put_at create (c' :: q') new child); [|discriminate].
        injection Hput as <-. now rewrite Hside.
      * destruct create; [|discriminate].
        destruct (put_at true (c' :: q') new (Dir [])); [|discriminate].
        injection Hput as <-. now rewrite Hside.
  - change ((c :: common) ++ b :: q') with (c :: (common ++ b :: q')) in Hput.
    change ((c :: common) ++ a :: p') with (c :: (common ++ a :: p')).
    cbn [put_at] in Hput.
    destruct root as [data|entries]; [discriminate|].
    destruct (common ++ b :: q') as [|c' tail] eqn:Htail.
    { destruct common; discriminate Htail. }
    cbn [node_at].
    destruct (entry c entries) as [child|].
    + destruct (put_at create (c' :: tail) new child) as [child'|e] eqn:Hchild;
        [|discriminate].
      injection Hput as <-. rewrite entry_set_entry_same.
      exact (IH _ _ Hchild).
    + destruct create; [|discriminate].
      destruct (put_at true (c' :: tail) new (Dir [])) as [child'|e] eqn:Hchild;
        [|discriminate].
      injection Hput as <-. rewrite entry_set_entry_same.
      rewrite (IH _ _ Hchild).
      destruct common as [|c2 common]; reflexivity.
Qed.

Lemma apart_below (p q : list string) (more : list string) :
  apart p q -> apart p (q ++ more).
Proof.
  intros (common & a & b & p' & q' & -> & -> & Hne).
  exists common, a, b, p', (q' ++ more).
  split; [reflexivity|]. split; [|exact Hne].
  now rewrite <- app_assoc.
Qed.

(** Paths that part ways stay different, whatever is put behind them. *)
Lemma apart_differ (p q more_p more_q : list string) :
  apart p q -> p ++ more_p <> q ++ more_q.
Proof.
  intros (common & a & b & p' & q' & -> & -> & Hne) Hsame.
  rewrite <- !app_assoc in Hsame. apply app_inv_head in Hsame.
  injection Hsame as Hab _. now apply Hne.
Qed.

Lemma entry_of_listing (item : string) (entries : list (string * node)) :
  In item (map fst entries) <-> entry item entries <> None.
Proof.
  induction entries as [|[n child] rest IH]; cbn; [tauto|].
  destruct (String.eqb_spec n item) as [->|Hne].
  - split; [discriminate|auto].
  - rewrite <- IH. tauto.
Qed.

(** Putting something two levels below a directory that is there. *)
Lemma put_at_under_entry (create : bool) (dir : list string)
    (item inner_item : string) (new root : node)
    (entries inner : list (string * node)) :
  node_at dir root = Some (Dir entries) ->
  entry item entries = Some (Dir inner) ->
  exists root',
    put_at create ((dir ++ [item]) ++ [inner_item]) new root = Ok root' /\
    node_at dir root' =
      Some (Dir (set_entry item (Dir (set_entry inner_item new inner)) entries)).
Proof.
  intros Hdir Hitem.
  assert (Hat : node_at (dir ++ [item]) root = Some (Dir inner))
    by now rewrite node_at_snoc, Hdir.
  destruct (put_at_under create (dir ++ [item]) inner_item new _ _ Hat)
    as (root' & Hput & Hat').
  exists root'. split; [exact Hput|].
  clear Hat. revert root root' Hdir Hput Hat'.
  induction dir as [|c dir IH]; intros root root' Hdir Hput Hat'.
  - cbn in Hdir. injection Hdir as ->. cbn in Hput. rewrite Hitem in Hput.
    cbn in Hput. now injection Hput as <-.
  - cbn [node_at] in Hdir. destruct root as [data|siblings]; [discriminate|].
    destruct (entry c siblings) as [child|] eqn:Hchild; [|discriminate].
    change (((c :: dir) ++ [item]) ++ [inner_item])
      with (c :: ((dir ++ [item]) ++ [inner_item])) in Hput.
    cbn [put_at] in Hput.
    destruct ((dir ++ [item]) ++ [inner_item]) as [|c' rest] eqn:Hrest.
    { destruct dir; discriminate Hrest. }
    rewrite Hchild in Hput.
    destruct (put_at create (c' :: rest) new child) as [child'|e] eqn:Hput';
      [|discriminate].
    injection Hput as <-. cbn [node_at]. rewrite entry_set_entry_same.
    apply (IH child child' Hdir Hput').
    change ((c :: dir) ++ [item]) with (c :: (dir ++ [item])) in Hat'.
    cbn [node_at] in Hat'. now rewrite entry_set_entry_same in Hat'.
Qed.

Section CopyItem.
Context (profile_path _profile_path : place).
Context (entries : list (string * node)).
Context (Hapart : apart (components profile_path) (components _profile_path)).

(** One directory of the live profile: copied without its lock files
    when the permanent profile has no entry of that name, refused when
    it has one. *)
Lemma copy_item_directory (m : Machine) (kept inner : list (string * node))
    (item : string) :
  node_at (components profile_path) (files m) = Some (Dir entries) ->
  node_at (components _profile_path) (files m) = Some (Dir kept) ->
  entry item entries = Some (Dir inner) ->
  is_lock item = false ->
  match entry item kept with
  | Some _ =>
      copy_item profile_path _profile_path item m =
      (Raise (OSError "FileExistsError"), m)
  | None =>
      exists m',
        copy_item profile_path _profile_path item m = (Ok tt, m') /\
        storage_dump m' = storage_dump m /\
        node_at (components profile_path) (files m') = Some (Dir entries) /\
        node_at (components _profile_path) (files m') =
          Some (Dir (set_entry item (without_locks (Dir inner)) kept))
  end.
Proof using Hapart.
  intros Hlive Hperm Hentry Hlock.
  assert (Hsource : node_at (components (inside profile_path item)) (files m) =
                    Some (Dir inner)).
  { change (components (inside profile_path item))
      with (components profile_path ++ [item]).
    now rewrite node_at_snoc, Hlive. }
  assert (Hrun : copy_item profile_path _profile_path item m =
                 shutil_copytree (inside profile_path item)
                   (inside _profile_path item) m).
  { unfold copy_item. rewrite Hlock. cbv zeta.
    unfold bind, os_path_isdir, read. now rewrite Hsource. }
  rewrite Hrun. unfold shutil_copytree. rewrite Hsource.
  change (components (inside _profile_path item))
    with (components _profile_path ++ [item]).
  rewrite (node_at_snoc (components _profile_path) item), Hperm.
  destruct (entry item kept) as [present|]; [reflexivity|].
  destruct (put_at_under true (components _profile_path) item
              (without_locks (Dir inner)) _ _ Hperm) as (root & Hput & Hat).
  rewrite Hput. eexists. split; [reflexivity|]. split; [reflexivity|].
  cbn [files with_files]. split; [|exact Hat].
  rewrite <- Hlive.
  exact (node_at_put_at_apart _ _ _ _ _ _ (apart_below _ _ [item] Hapart) Hput).
Qed.

(** One file of the live profile: written over the entry of that name,
    or into it when that entry is a directory; refused when the
    directory holds a directory of that name again. *)
Lemma copy_item_file (m : Machine) (kept : list (string * node))
    (item data : string) :
  node_at (components profile_path) (files m) = Some (Dir entries) ->
  node_at (components _profile_path) (files m) = Some (Dir kept) ->
  entry item entries = Some (File data) ->
  is_lock item = false ->
  (copy_item profile_path _profile_path item m =
     (Raise (OSError "IsADirectoryError"), m) /\
   exists inside_it deep,
     entry item kept = Some (Dir inside_it) /\
     entry item inside_it = Some (Dir deep)) \/
  exists m',
    copy_item profile_path _profile_path item m = (Ok tt, m') /\
    storage_dump m' = storage_dump m /\
    node_at (components profile_path) (files m') = Some (Dir entries) /\
    node_at (components _profile_path) (files m') =
      Some (Dir (set_entry item
                   (match entry item kept with
                    | Some (Dir inside_it) =>
                        Dir (set_entry item (File data) inside_it)
                    | _ => File data
                    end) kept)).
Proof using Hapart.
  intros Hlive Hperm Hentry Hlock.
  assert (Hsource : node_at (components (inside profile_path item)) (files m) =
                    Some (File data)).
  { change (components (inside profile_path item))
      with (components profile_path ++ [item]).
    now rewrite node_at_snoc, Hlive. }
  assert (Hrun : copy_item profile_path _profile_path item m =
                 shutil_copy2 (inside profile_path item)
                   (inside _profile_path item) m).
  { unfold copy_item. rewrite Hlock. cbv zeta.
    unfold bind, os_path_isdir, read. now rewrite Hsource. }
  rewrite Hrun. unfold shutil_copy2. rewrite Hsource.
  change (components (inside profile_path item))
    with (components profile_path ++ [item]).
  change (components (inside _profile_path item))
    with (components _profile_path ++ [item]).
  rewrite (node_at_snoc (components _profile_path) item), Hperm.
  assert (Hplain : forall target,
            target = File data ->
            (forall inside_it, entry item kept <> Some (Dir inside_it)) ->
            exists m',
              (if decide (components profile_path ++ [item] =
                          components _profile_path ++ [item])
               then (Raise (OSError "SameFileError"), m)
               else
                 match node_at (components _profile_path ++ [item]) (files m)
                 with
                 | Some (Dir _) => (Raise (OSError "IsADirectoryError"), m)
                 | _ =>
                     match put_at false (components _profile_path ++ [item])
                             (File data) (files m) with
                     | Ok root => (Ok tt, with_files m root)
                     | Raise e => (Raise e, m)
                     end
                 end) = (Ok tt, m') /\
              storage_dump m' = storage_dump m /\
              node_at (components profile_path) (files m') =
                Some (Dir entries) /\
              node_at (components _profile_path) (files m') =
                Some (Dir (set_entry item target kept))).
  { intros target -> Hfile.
    destruct (decide _) as [Hsame|_];
      [now apply (apart_differ _ _ _ _ Hapart) in Hsame|].
    rewrite (node_at_snoc (components _profile_path) item), Hperm.
    destruct (put_at_under false (components _profile_path) item
                (File data) _ _ Hperm) as (root & Hput & Hat).
    rewrite Hput.
    assert (Hdone : exists m',
              (Ok tt, with_files m root) = (Ok tt, m') /\
              storage_dump m' = storage_dump m /\
              node_at (components profile_path) (files m') =
                Some (Dir entries) /\
              node_at (components _profile_path) (files m') =
                Some (Dir (set_entry item (File data) kept))).
    { eexists. split; [reflexivity|]. split; [reflexivity|].
      cbn [files with_files]. split; [|exact Hat]. rewrite <- Hlive.
      exact (node_at_put_at_apart _ _ _ _ _ _
               (apart_below _ _ [item] Hapart) Hput). }
    destruct (entry item kept) as [[old|inside_it]|];
      [exact Hdone|now contradiction (Hfile inside_it)|exact Hdone]. }
  destruct (entry item kept) as [[old|inside_it]|] eqn:Hkept.
  - right. apply Hplain; [reflexivity|discriminate].
  - change (name (inside profile_path item)) with item.
    change (components (inside (inside _profile_path item) item))
      with ((components _profile_path ++ [item]) ++ [item]).
    clear Hplain.
    destruct (decide _) as [Hsame|_].
    { rewrite <- app_assoc in Hsame.
      now apply (apart_differ _ _ _ _ Hapart) in Hsame. }
    rewrite (node_at_snoc (components _profile_path ++ [item]) item),
      (node_at_snoc (components _profile_path) item), Hperm, Hkept.
    destruct (entry item inside_it) as [[older|deep]|] eqn:Hdeep.
    + right.
      destruct (put_at_under_entry false (components _profile_path) item item
                  (File data) _ _ _ Hperm Hkept) as (root & Hput & Hat).
      rewrite Hput. eexists. split; [reflexivity|]. split; [reflexivity|].
      cbn [files with_files]. split; [|exact Hat]. rewrite <- Hlive.
      refine (node_at_put_at_apart _ _ _ _ _ _ _ Hput).
      rewrite <- app_assoc. now apply apart_below.
    + left. split; [reflexivity|]. now exists inside_it, deep.
    + right.
      destruct (put_at_under_entry false (components _profile_path) item item
                  (File data) _ _ _ Hperm Hkept) as (root & Hput & Hat).
      rewrite Hput. eexists. split; [reflexivity|]. split; [reflexivity|].
      cbn [files with_files]. split; [|exact Hat]. rewrite <- Hlive.
      refine (node_at_put_at_apart _ _ _ _ _ _ _ Hput).
      rewrite <- app_assoc. now apply apart_below.
  - right. apply Hplain; [reflexivity|discriminate].
Qed.
End CopyItem.

Section MergingSave.
Context (profile_path _profile_path : place).
Context (entries : list (string * node)).
Context (Hapart : apart (components profile_path) (components _profile_path)).

Lemma copy_item_lock (m : Machine) (item : string) :
  is_lock item = true ->
  copy_item profile_path _profile_path item m = (Ok tt, m).
Proof. intros Hlock. unfold copy_item. now rewrite Hlock. Qed.

(** The loop stops with [FileExistsError] when one of the directories
    still to be copied has its name taken in the permanent profile. *)
Lemma for_each_copy_item_clash (todo : list string) :
  forall (m : Machine) (kept : list (string * node)),
    node_at (components profile_path) (files m) = Some (Dir entries) ->
    node_at (components _profile_path) (files m) = Some (Dir kept) ->
    (forall item, In item todo -> entry item entries <> None) ->
    (exists item inner,
        In item todo /\ entry item entries = Some (Dir inner) /\
        is_lock item = false /\ entry item kept <> None) ->
    exists kind m',
      for_each todo (copy_item profile_path _profile_path) m =
        (Raise (OSError kind), m') /\
      (kind = "FileExistsError" \/ kind = "IsADirectoryError").
Proof using Hapart.
  induction todo as [|x todo IH];
    intros m kept Hlive Hperm Hlisted (item & inner & Hin & Hitem & Hlock & Htaken).
  { contradiction. }
  cbn [for_each]. unfold bind.
  assert (Hrest : forall item', In item' todo -> entry item' entries <> None)
    by (intros item' Hin'; apply Hlisted; now right).
  destruct (is_lock x) eqn:Hx.
  { rewrite copy_item_lock by exact Hx.
    apply (IH m kept Hlive Hperm Hrest).
    exists item, inner. repeat split; try assumption.
    destruct Hin as [->|Hin]; [congruence|exact Hin]. }
  destruct (entry x entries) as [[data|inner_x]|] eqn:Hentry.
  - destruct (copy_item_file profile_path _profile_path entries Hapart
                m kept x data Hlive Hperm Hentry Hx)
      as [(Hrun & _)|(m' & Hrun & _ & Hlive' & Hperm')].
    { rewrite Hrun. exists "IsADirectoryError", m. auto. }
    rewrite Hrun. apply (IH m' _ Hlive' Hperm' Hrest).
    assert (Hother : item <> x) by (intros ->; congruence).
    exists item, inner. repeat split; try assumption.
    + destruct Hin as [->|Hin]; [congruence|exact Hin].
    + now rewrite entry_set_entry_other.
  - pose proof (copy_item_directory profile_path _profile_path entries Hapart
                  m kept inner_x x Hlive Hperm Hentry Hx) as Hstep.
    destruct (entry x kept) as [present|] eqn:Hkept.
    + rewrite Hstep. exists "FileExistsError", m. auto.
    + destruct Hstep as (m' & Hrun & _ & Hlive' & Hperm').
      rewrite Hrun. apply (IH m' _ Hlive' Hperm' Hrest).
      assert (Hother : item <> x) by (intros ->; congruence).
      exists item, inner. repeat split; try assumption.
      * destruct Hin as [->|Hin]; [congruence|exact Hin].
      * now rewrite entry_set_entry_other.
  - exfalso. apply (Hlisted x); [now left|exact Hentry].
Qed.

(** X16. A save that does not replace the old profile never returns
    when a directory of the live profile, other than a lock, has its
    name already taken in the permanent profile, as on a second save of
    a profile with a directory in it: it raises [FileExistsError] from
    the copy of that directory, or before that [IsADirectoryError] from
    the copy of a file onto a directory. *)
Theorem save_merging_refuses_existing_directory (m : Machine)
    (kept inner : list (string * node)) (item : string) :
  node_at (components profile_path) (files m) = Some (Dir entries) ->
  node_at (components _profile_path) (files m) = Some (Dir kept) ->
  entry item entries = Some (Dir inner) ->
  is_lock item = false ->
  entry item kept <> None ->
  exists kind m',
    save_firefox_profile profile_path _profile_path false m =
      (Raise (OSError kind), m') /\
    (kind = "FileExistsError" \/ kind = "IsADirectoryError").
Proof using Hapart.
  intros Hlive Hperm Hitem Hlock Htaken.
  rewrite save_firefox_profile_merging.
  destruct (for_each_copy_item_clash (map fst entries) m kept Hlive Hperm)
    as (kind & m' & Hloop & Hkind).
  { intros x Hx. now apply entry_of_listing. }
  { exists item, inner. repeat split; try assumption.
    apply entry_of_listing. congruence. }
  exists kind, m'. split; [|exact Hkind].
  unfold bind, os_listdir. rewrite Hlive. now rewrite Hloop.
Qed.

(** The loop, when no name clashes with a directory: every entry that is
    not a lock is copied, without lock files below it, and the entries
    under other names stay. *)
Lemma for_each_copy_item_merge (todo : list string) :
  forall (m : Machine) (kept : list (string * node)),
    node_at (components profile_path) (files m) = Some (Dir entries) ->
    node_at (components _profile_path) (files m) = Some (Dir kept) ->
    List.NoDup todo ->
    (forall item, In item todo -> entry item entries <> None) ->
    (forall item child,
        In item todo -> entry item entries = Some child ->
        is_lock item = false ->
        entry item kept = None \/
        exists data old,
          child = File data /\ entry item kept = Some (File old)) ->
    exists m' kept',
      for_each todo (copy_item profile_path _profile_path) m = (Ok tt, m') /\
      storage_dump m' = storage_dump m /\
      node_at (components profile_path) (files m') = Some (Dir entries) /\
      node_at (components _profile_path) (files m') = Some (Dir kept') /\
      (forall item child,
          In item todo -> entry item entries = Some child ->
          is_lock item = false ->
          entry item kept' = Some (without_locks child)) /\
      (forall x, ~ In x todo \/ is_lock x = true ->
                 entry x kept' = entry x kept).
Proof using Hapart.
  induction todo as [|x todo IH];
    intros m kept Hlive Hperm Hnodup Hlisted Hfits.
  { exists m, kept. cbn [for_each]. unfold ret.
    repeat split; try assumption; try reflexivity. intros ? ? []. }
  inversion Hnodup as [|? ? Hfresh Hnodup']; subst.
  cbn [for_each]. unfold bind.
  assert (Hrest : forall item', In item' todo -> entry item' entries <> None)
    by (intros item' Hin'; apply Hlisted; now right).
  destruct (is_lock x) eqn:Hx.
  { rewrite copy_item_lock by exact Hx.
    destruct (IH m kept Hlive Hperm Hnodup' Hrest)
      as (m' & kept' & Hrun & Hdump & Hlive' & Hperm' & Hcopied & Hothers).
    { intros item child Hin. apply Hfits. now right. }
    exists m', kept'. repeat split; try assumption.
    - intros item child [->|Hin] Hentry Hlock; [congruence|].
      now apply Hcopied.
    - intros y [Hy|Hy]; apply Hothers.
      + left. intros Hin. apply Hy. now right.
      + now right. }
  assert (Hstep : exists child m1,
            entry x entries = Some child /\
            copy_item profile_path _profile_path x m = (Ok tt, m1) /\
            storage_dump m1 = storage_dump m /\
            node_at (components profile_path) (files m1) = Some (Dir entries) /\
            node_at (components _profile_path) (files m1) =
              Some (Dir (set_entry x (without_locks child) kept))).
  { destruct (entry x entries) as [[data|inner]|] eqn:Hentry.
    - destruct (Hfits x (File data) (or_introl eq_refl) Hentry Hx)
        as [Hfree|(data' & old & _ & Hfree)];
        (destruct (copy_item_file profile_path _profile_path entries Hapart
                     m kept x data Hlive Hperm Hentry Hx)
           as [(_ & inside_it & deep & Hdir & _)
              |(m1 & Hrun & Hdump & Hlive1 & Hperm1)];
         [congruence|]);
        exists (File data), m1; repeat split; try assumption;
        rewrite Hperm1; now rewrite Hfree.
    - pose proof (copy_item_directory profile_path _profile_path entries
                    Hapart m kept inner x Hlive Hperm Hentry Hx) as Hdirectory.
      destruct (Hfits x (Dir inner) (or_introl eq_refl) Hentry Hx)
        as [Hnone|(data' & old & Hfile & _)]; [|discriminate Hfile].
      rewrite Hnone in Hdirectory.
      destruct Hdirectory as (m1 & Hrun & Hdump & Hlive1 & Hperm1).
      exists (Dir inner), m1. repeat split; assumption.
    - exfalso. apply (Hlisted x); [now left|exact Hentry]. }
  destruct Hstep as (child & m1 & Hentry & Hrun & Hdump1 & Hlive1 & Hperm1).
  rewrite Hrun.
  destruct (IH m1 _ Hlive1 Hperm1 Hnodup' Hrest)
    as (m' & kept' & Hloop & Hdump & Hlive' & Hperm' & Hcopied & Hothers).
  { intros item child' Hin Hitem Hlock.
    rewrite entry_set_entry_other by (intros ->; contradiction).
    apply Hfits; [now right|assumption|assumption]. }
  exists m', kept'. repeat split; try assumption; try congruence.
  - intros item child' [->|Hin] Hitem Hlock.
    + rewrite Hothers by (now left). rewrite entry_set_entry_same. congruence.
    + now apply Hcopied.
  - intros y [Hy|Hy].
    + rewrite Hothers by (left; intros Hin; apply Hy; now right).
      apply entry_set_entry_other. intros ->. apply Hy. now left.
    + rewrite Hothers by now right.
      apply entry_set_entry_other. intros ->. congruence.
Qed.
End MergingSave.

(** X17. A save that does not replace the old profile, when it succeeds:
    every entry of the live profile that is not a lock is in the
    permanent profile, directories without the lock files below them;
    [localStorage.json] holds the dump of the page's storage; and what
    the permanent profile held under other names, or under the name of a
    lock, is still there.  It succeeds when the names of the live
    profile are either free in the permanent one or name a file on both
    sides. *)
Theorem save_merging_result (profile_path _profile_path : place)
    (m : Machine) (entries kept : list (string * node)) (text : string) :
  apart (components profile_path) (components _profile_path) ->
  node_at (components profile_path) (files m) = Some (Dir entries) ->
  node_at (components _profile_path) (files m) = Some (Dir kept) ->
  List.NoDup (map fst entries) ->
  storage_dump m = Ok text ->
  (forall item child,
      entry item entries = Some child -> is_lock item = false ->
      entry item kept = None \/
      exists data old, child = File data /\ entry item kept = Some (File old)) ->
  (forall inner, entry _LOCAL_STORAGE_FILE entries <> Some (Dir inner)) ->
  (forall inner, entry _LOCAL_STORAGE_FILE kept <> Some (Dir inner)) ->
  exists m' final,
    save_firefox_profile profile_path _profile_path false m = (Ok tt, m') /\
    node_at (components _profile_path) (files m') = Some (Dir final) /\
    entry _LOCAL_STORAGE_FILE final = Some (File text) /\
    (forall item child,
        entry item entries = Some child -> is_lock item = false ->
        item <> _LOCAL_STORAGE_FILE ->
        entry item final = Some (without_locks child)) /\
    (forall item,
        entry item entries = None \/ is_lock item = true ->
        item <> _LOCAL_STORAGE_FILE ->
        entry item final = entry item kept).
Proof.
  intros Hapart Hlive Hperm Hnodup Hdump Hfits Hjson_live Hjson_kept.
  rewrite save_firefox_profile_merging.
  destruct (for_each_copy_item_merge profile_path _profile_path entries Hapart
              (map fst entries) m kept Hlive Hperm Hnodup)
    as (m1 & kept1 & Hloop & Hdump1 & Hlive1 & Hperm1 & Hcopied & Hothers).
  { intros item. apply entry_of_listing. }
  { intros item child _. apply Hfits. }
  assert (Hjson1 : forall inner,
            entry _LOCAL_STORAGE_FILE kept1 <> Some (Dir inner)).
  { intros inner Hentry.
    destruct (entry _LOCAL_STORAGE_FILE entries) as [child|] eqn:Hchild.
    - rewrite (Hcopied _LOCAL_STORAGE_FILE child) in Hentry;
        [|apply entry_of_listing; congruence|exact Hchild|reflexivity].
      destruct child as [data|inner']; [discriminate|].
      now apply (Hjson_live inner').
    - rewrite Hothers in Hentry.
      + now apply (Hjson_kept inner).
      + left. rewrite entry_of_listing. intros Hin. now apply Hin. }
  destruct (open_w_in _profile_path _LOCAL_STORAGE_FILE m1 kept1 Hperm1 Hjson1)
    as (m2 & Hopen & Hdump2 & Hperm2 & _).
  destruct (write_text_in _profile_path _LOCAL_STORAGE_FILE text m2 _ Hperm2)
    as (m3 & Hwrite & _ & Hperm3 & _).
  exists m3, (set_entry _LOCAL_STORAGE_FILE (File text)
                (set_entry _LOCAL_STORAGE_FILE (File "") kept1)).
  split.
  { unfold bind at 1. unfold bind at 1. unfold os_listdir. rewrite Hlive, Hloop.
    unfold bind at 1. rewrite Hopen. unfold bind.
    rewrite Hdump2, Hdump1, Hdump. exact Hwrite. }
  split; [exact Hperm3|].
  split; [apply entry_set_entry_same|].
  split.
  - intros item child Hentry Hlock Hname.
    rewrite !entry_set_entry_other by exact Hname.
    apply Hcopied; [apply entry_of_listing; congruence|assumption|assumption].
  - intros item Hitem Hname.
    rewrite !entry_set_entry_other by exact Hname.
    apply Hothers. destruct Hitem as [Hnone|Hlock]; [left|now right].
    rewrite entry_of_listing. intros Hin. now apply Hin.
Qed.

Lemma toy_profiles_apart : apart (components toy_live) (components toy_permanent).
Proof.
  exists [], "tmp", "home", ["rust_mozprofile"], ["api"; "profile"].
  repeat split; discriminate.
Qed.

Lemma save_merging_refuses_existing_directory_witness :
  exists kind m',
    save_firefox_profile toy_live toy_permanent false toy_disk_saved_before =
      (Raise (OSError kind), m') /\
    (kind = "FileExistsError" \/ kind = "IsADirectoryError").
Proof.
  apply (save_merging_refuses_existing_directory toy_live toy_permanent
           toy_fresh_profile toy_profiles_apart toy_disk_saved_before
           [ ("cookies.sqlite", File "old cookies");
             ("storage", Dir [("ls.sqlite", File "old data")]) ]
           [("parent.lock", File ""); ("ls.sqlite", File "data")]
           "storage");
    first [reflexivity | discriminate].
Defined.

Lemma save_merging_result_witness :
  exists m' final,
    save_firefox_profile toy_live toy_permanent false
      (toy_disk toy_fresh_profile) = (Ok tt, m') /\
    node_at (components toy_permanent) (files m') = Some (Dir final) /\
    entry _LOCAL_STORAGE_FILE final = Some (File "{}") /\
    (forall item child,
        entry item toy_fresh_profile = Some child -> is_lock item = false ->
        item <> _LOCAL_STORAGE_FILE ->
        entry item final = Some (without_locks child)) /\
    (forall item,
        entry item toy_fresh_profile = None \/ is_lock item = true ->
        item <> _LOCAL_STORAGE_FILE ->
        entry item final =
        entry item [("cookies.sqlite", File "old cookies")]).
Proof.
  apply (save_merging_result toy_live toy_permanent
           (toy_disk toy_fresh_profile) toy_fresh_profile
           [("cookies.sqlite", File "old cookies")] "{}" toy_profiles_apart);
    try reflexivity.
  - repeat constructor; cbn; intuition discriminate.
  - intros item child Hentry Hlock.
    unfold toy_fresh_profile in Hentry. cbn [entry] in Hentry |- *.
    destruct (String.eqb_spec "cookies.sqlite" item) as [<-|_].
    + right. injection Hentry as <-. now exists "new cookies", "old cookies".
    + now left.
  - intros inner. discriminate.
  - intros inner. discriminate.
Defined.

(** ** The proxy settings *)

Lemma str_split_pieces (sep : ascii) (s : string) :
  length (str_split sep s) = S (occurrences sep s).
Proof.
  induction s as [|c rest IH]; cbn [str_split occurrences]; [reflexivity|].
  destruct (Ascii.eqb c sep); cbn [length]; [now rewrite IH|].
  destruct (str_split sep rest) as [|piece pieces]; [discriminate IH|exact IH].
Qed.

Lemma str_split_whole (sep : ascii) (s : string) :
  occurrences sep s = 0%nat -> str_split sep s = [s].
Proof.
  induction s as [|c rest IH]; cbn [str_split occurrences]; [reflexivity|].
  destruct (Ascii.eqb c sep); [discriminate|].
  intros Hnone. now rewrite IH.
Qed.

Lemma str_split_at (sep : ascii) (front back : string) :
  occurrences sep front = 0%nat ->
  str_split sep (front +:+ String sep back) = front :: str_split sep back.
Proof.
  induction front as [|c rest IH].
  - intros _. change ("" +:+ String sep back) with (String sep back).
    cbn [str_split]. now rewrite Ascii.eqb_refl.
  - change (String c rest +:+ String sep back)
      with (String c (rest +:+ String sep back)).
    cbn [str_split occurrences].
    destruct (Ascii.eqb c sep); [discriminate|].
    intros Hnone. now rewrite IH.
Qed.

Section ProxyFacts.
Context {builtins : Builtins}.

(** X18. [set_proxy] wants exactly one colon: with none, or with more than
    one, it raises [ValueError] and no preference is changed. *)
Theorem set_proxy_needs_one_colon (proxy : string) (prefs : gmap string pref) :
  occurrences ":" proxy <> 1%nat ->
  exists msg, set_proxy proxy prefs = (Raise (ValueError msg), prefs).
Proof.
  intros Hcolons. pose proof (str_split_pieces ":" proxy) as Hpieces.
  unfold set_proxy.
  destruct (str_split ":" proxy) as [|a [|b [|c pieces]]];
    cbn [length] in Hpieces; unfold throw; eauto.
  congruence.
Qed.

(** X19. With an address and a port around one colon, and a port that [int]
    reads: the proxy type is 1, the http and the ssl proxy are both the
    address and the number, and no other preference changes. *)
Theorem set_proxy_result (address port : string) (number : Z)
    (prefs : gmap string pref) :
  occurrences ":" address = 0%nat ->
  occurrences ":" port = 0%nat ->
  int port = Ok number ->
  exists prefs',
    set_proxy (address +:+ ":" +:+ port) prefs = (Ok tt, prefs') /\
    prefs' !! "network.proxy.type" = Some (PInt 1) /\
    prefs' !! "network.proxy.http" = Some (PStr address) /\
    prefs' !! "network.proxy.http_port" = Some (PInt number) /\
    prefs' !! "network.proxy.ssl" = Some (PStr address) /\
    prefs' !! "network.proxy.ssl_port" = Some (PInt number) /\
    forall key,
      ~ In key [ "network.proxy.type"; "network.proxy.http";
                 "network.proxy.http_port"; "network.proxy.ssl";
                 "network.proxy.ssl_port" ] ->
      prefs' !! key = prefs !! key.
Proof.
  intros Haddress Hport Hint. unfold set_proxy.
  change (":" +:+ port) with (String ":" port).
  rewrite (str_split_at ":" address port Haddress), (str_split_whole ":" port Hport).
  unfold bind, set_preference, lift. rewrite Hint.
  eexists. split; [reflexivity|].
  repeat split; try (now simplify_map_eq).
  intros key Hkey. cbn [In] in Hkey.
  rewrite !lookup_insert_ne; [reflexivity|..]; intros <-; tauto.
Qed.

(** X20. With a port that [int] refuses, [set_proxy] raises what [int]
    raised after it has switched the proxy on and set the http address:
    the profile is left with these two preferences and no port. *)
Theorem set_proxy_bad_port (address port : string) (e : exn)
    (prefs : gmap string pref) :
  occurrences ":" address = 0%nat ->
  occurrences ":" port = 0%nat ->
  int port = Raise e ->
  exists prefs',
    set_proxy (address +:+ ":" +:+ port) prefs = (Raise e, prefs') /\
    prefs' !! "network.proxy.type" = Some (PInt 1) /\
    prefs' !! "network.proxy.http" = Some (PStr address) /\
    forall key,
      key <> "network.proxy.type" -> key <> "network.proxy.http" ->
      prefs' !! key = prefs !! key.
Proof.
  intros Haddress Hport Hint. unfold set_proxy.
  change (":" +:+ port) with (String ":" port).
  rewrite (str_split_at ":" address port Haddress), (str_split_whole ":" port Hport).
  unfold bind, set_preference, lift. rewrite Hint.
  eexists. split; [reflexivity|].
  repeat split; try (now simplify_map_eq).
  intros key Htype Hhttp. now rewrite !lookup_insert_ne.
Qed.

End ProxyFacts.

Lemma set_proxy_needs_one_colon_witness :
  exists msg,
    set_proxy "10.0.0.1:8080:1" (∅ : gmap string pref) =
    (Raise (ValueError msg), ∅).
Proof.
  apply (set_proxy_needs_one_colon "10.0.0.1:8080:1" ∅). cbn. lia.
Defined.

Lemma set_proxy_result_witness :
  exists prefs',
    set_proxy ("10.0.0.1" +:+ ":" +:+ "8080")
      ({[ "permissions.default.image" := PInt 2 ]} : gmap string pref) =
      (Ok tt, prefs') /\
    prefs' !! "network.proxy.type" = Some (PInt 1) /\
    prefs' !! "network.proxy.http" = Some (PStr "10.0.0.1") /\
    prefs' !! "network.proxy.http_port" = Some (PInt 8080) /\
    prefs' !! "network.proxy.ssl" = Some (PStr "10.0.0.1") /\
    prefs' !! "network.proxy.ssl_port" = Some (PInt 8080) /\
    forall key,
      ~ In key [ "network.proxy.type"; "network.proxy.http";
                 "network.proxy.http_port"; "network.proxy.ssl";
                 "network.proxy.ssl_port" ] ->
      prefs' !! key =
      ({[ "permissions.default.image" := PInt 2 ]} : gmap string pref) !! key.
Proof.
  apply (set_proxy_result "10.0.0.1" "8080" 8080); reflexivity.
Defined.

Lemma set_proxy_bad_port_witness :
  exists prefs',
    set_proxy ("10.0.0.1" +:+ ":" +:+ "http") (∅ : gmap string pref) =
      (Raise (ValueError "invalid literal for int() with base 10: 'http'"),
       prefs') /\
    prefs' !! "network.proxy.type" = Some (PInt 1) /\
    prefs' !! "network.proxy.http" = Some (PStr "10.0.0.1") /\
    forall key,
      key <> "network.proxy.type" -> key <> "network.proxy.http" ->
      prefs' !! key = (∅ : gmap string pref) !! key.
Proof.
  apply (set_proxy_bad_port "10.0.0.1" "http"); reflexivity.
Defined.

(** ** The replacing save behind a separator *)

Lemma map_fst_set_entry (item : string) (new old : node)
    (entries : list (string * node)) :
  entry item entries = Some old ->
  map fst (set_entry item new entries) = map fst entries.
Proof.
  induction entries as [|[n child] rest IH]; cbn; [discriminate|].
  destruct (String.eqb_spec n item) as [->|Hne]; cbn; [reflexivity|].
  intros Hentry. now rewrite IH.
Qed.

Lemma bind_raise {W A B : Type} (c : call W A) (k : A -> call W B)
    (w w' : W) (e : exn) :
  c w = (Raise e, w') -> bind c k w = (Raise e, w').
Proof. intros Hc. unfold bind. now rewrite Hc. Qed.

(** X21. When the permanent profile is given with a separator at its
    end, the temporary copy of line 123 is made inside the permanent
    profile: a replacing save with something to keep removes the
    permanent profile, the copy with it, and raises
    [FileNotFoundError] when it goes on to move the copy.  Neither the
    old profile nor the new one is left. *)
Theorem save_replacing_behind_a_separator (profile_path permanent : place)
    (m : Machine) (entries copied siblings kept : list (string * node)) :
  apart (components profile_path) (components (tmp_of (Slashed permanent))) ->
  node_at (components profile_path) (files m) = Some (Dir entries) ->
  without_locks (Dir entries) = Dir copied ->
  copied <> [] ->
  node_at (parent permanent) (files m) = Some (Dir siblings) ->
  List.NoDup (map fst siblings) ->
  entry (name permanent) siblings = Some (Dir kept) ->
  entry "__tmp" kept = None ->
  exists m',
    save_firefox_profile profile_path (Slashed permanent) true m =
      (Raise (OSError "FileNotFoundError"), m') /\
    node_at (components permanent) (files m') = None.
Proof.
  intros _ Hlive Hcopied Hfilled Hdir Hnodup Hperm Htmpfree.
  destruct permanent as [dir pname]. cbn [parent name] in *.
  pose (tmp := mkPlace (dir ++ [pname]) "__tmp").
  assert (Hat : node_at (dir ++ [pname]) (files m) = Some (Dir kept))
    by now rewrite node_at_snoc, Hdir.
  destruct (put_at_under_entry true dir pname "__tmp" (Dir copied) _ _ _
              Hdir Hperm) as (root & Hput & Hdir1).
  assert (Hperm1 : node_at (dir ++ [pname]) root =
                   Some (Dir (set_entry "__tmp" (Dir copied) kept)))
    by now rewrite node_at_snoc, Hdir1, entry_set_entry_same.
  assert (Htmp1 : node_at ((dir ++ [pname]) ++ ["__tmp"]) root =
                  Some (Dir copied))
    by now rewrite node_at_snoc, Hperm1, entry_set_entry_same.
  assert (Hgone : node_at (dir ++ [pname]) (remove_at (dir ++ [pname]) root) =
                  None).
  { rewrite node_at_snoc, (remove_at_under dir pname root _ Hdir1).
    apply entry_del_entry_same. now rewrite (map_fst_set_entry _ _ _ _ Hperm). }
  assert (Hcopy : shutil_copytree profile_path tmp m =
                  (Ok tt, with_files m root)).
  { unfold shutil_copytree. rewrite Hlive.
    change (components tmp) with ((dir ++ [pname]) ++ ["__tmp"]).
    rewrite (node_at_snoc (dir ++ [pname]) "__tmp"), Hat, Htmpfree.
    now rewrite Hcopied, Hput. }
  assert (Hexists : os_path_exists tmp (with_files m root) =
                    (Ok true, with_files m root)).
  { unfold os_path_exists, read. cbn [place_of files with_files].
    change (components tmp) with ((dir ++ [pname]) ++ ["__tmp"]).
    now rewrite Htmp1. }
  assert (Hlisting : os_listdir tmp (with_files m root) =
                     (Ok (map fst copied), with_files m root)).
  { unfold os_listdir. cbn [files with_files].
    change (components tmp) with ((dir ++ [pname]) ++ ["__tmp"]).
    now rewrite Htmp1. }
  assert (Hcount : (0 <? Z.of_nat (length (map fst copied))) = true)
    by (destruct copied; [contradiction|reflexivity]).
  assert (Hold : os_path_exists (Slashed (mkPlace dir pname))
                   (with_files m root) = (Ok true, with_files m root)).
  { unfold os_path_exists, read. cbn [place_of files with_files].
    change (components (mkPlace dir pname)) with (dir ++ [pname]).
    now rewrite Hperm1. }
  pose (m2 := with_files (with_files m root)
                (remove_at (dir ++ [pname]) root)).
  assert (Hrm : try_except (shutil_rmtree (mkPlace dir pname)) is_OSError
                  (ret tt) (with_files m root) = (Ok tt, m2)).
  { unfold try_except, shutil_rmtree. cbn [files with_files].
    change (components (mkPlace dir pname)) with (dir ++ [pname]).
    now rewrite Hperm1. }
  assert (Hmove : shutil_move tmp (mkPlace dir pname) m2 =
                  (Raise (OSError "FileNotFoundError"), m2)).
  { unfold shutil_move. cbn [files with_files m2].
    change (components tmp) with ((dir ++ [pname]) ++ ["__tmp"]).
    now rewrite (node_at_snoc (dir ++ [pname]) "__tmp"), Hgone. }
  exists m2. split; [|exact Hgone].
  unfold save_firefox_profile. cbn [tmp_of place_of].
  change (mkPlace (components (mkPlace dir pname)) "__tmp") with tmp.
  apply bind_raise.
  rewrite (bind_run _ _ _ _ _ Hcopy).
  rewrite (bind_run _ _ _ _ _ Hexists).
  assert (Hfull : (let! listing := os_listdir tmp in
                   ret (0 <? Z.of_nat (length listing)))%call
                    (with_files m root) = (Ok true, with_files m root)).
  { rewrite (bind_run _ _ _ _ _ Hlisting). unfold ret. now rewrite Hcount. }
  rewrite (bind_run _ _ _ _ _ Hfull).
  rewrite (bind_run _ _ _ _ _ Hold).
  rewrite (bind_run _ _ _ _ _ Hrm).
  exact Hmove.
Qed.

Lemma toy_inner_copy_apart :
  apart (components toy_live) (components (tmp_of (Slashed toy_permanent))).
Proof.
  exists [], "tmp", "home", ["rust_mozprofile"], ["api"; "profile"; "__tmp"].
  repeat split; discriminate.
Qed.

Lemma save_replacing_behind_a_separator_witness :
  exists m',
    save_firefox_profile toy_live (Slashed toy_permanent) true
      (toy_disk toy_fresh_profile) =
      (Raise (OSError "FileNotFoundError"), m') /\
    node_at (components toy_permanent) (files m') = None.
Proof.
  apply (save_replacing_behind_a_separator toy_live toy_permanent
           (toy_disk toy_fresh_profile) toy_fresh_profile
           [ ("cookies.sqlite", File "new cookies");
             ("storage", Dir [("ls.sqlite", File "data")]) ]
           [ ("profile", Dir [("cookies.sqlite", File "old cookies")]) ]
           [ ("cookies.sqlite", File "old cookies") ]);
    try reflexivity; try discriminate;
    [exact toy_inner_copy_apart | repeat constructor; cbn; tauto].
Defined.
